(** * Series transformation engine of the XY chart: stacking, series keys,
    series splitting and colour resolution.

    A shallow embedding of [stacked_series_utils.ts] and [series.ts].

    JavaScript numbers are IEEE-754 binary64 values: they are modelled by
    Rocq's primitive [float], so that [0], [-0], [NaN] and the infinities
    behave as they do in the program.  A [Map] or a [Set] is a list in
    insertion order, looked up with the SameValueZero comparison.
    Strings are sequences of 8-bit code units. *)

From Stdlib Require Import Floats List ZArith String Ascii Bool Lia Arith.
From Stdlib Require Import Permutation Sorted DecimalString OrderedTypeEx.
Import ListNotations.

Set Implicit Arguments.

(* ================================================================== *)
(** ** JavaScript values and operators *)

Module JS.

(** The values a [number | null | undefined] slot can hold. *)
Inductive value : Type :=
| Undefined
| Null
| Num (f : float).

(** [ToNumber]: [undefined] is [NaN], [null] is [+0]. *)
Definition ToNumber (v : value) : float :=
  match v with
  | Undefined => nan
  | Null => 0%float
  | Num f => f
  end.

(** [a + b] and [a / b] on operands that are not strings. *)
Definition add (a b : value) : float := (ToNumber a + ToNumber b)%float.
Definition div (a b : value) : float := (ToNumber a / ToNumber b)%float.

(** [v === 0]: a number equal to zero ([-0 === 0] is true, [NaN === 0],
    [null === 0] and [undefined === 0] are false). *)
Definition strictEqZero (v : value) : bool :=
  match v with
  | Num f => (f =? 0)%float
  | _ => false
  end.

(** [v != null]: neither [null] nor [undefined]. *)
Definition notNullish (v : value) : bool :=
  match v with
  | Num _ => true
  | _ => false
  end.

(** [v !== null]: [undefined] passes this test. *)
Definition strictNotNull (v : value) : bool :=
  match v with
  | Null => false
  | _ => true
  end.

(** [ToBoolean]: [0], [-0], [NaN], [null] and [undefined] are falsy. *)
Definition truthy (v : value) : bool :=
  match v with
  | Num f => negb (f =? 0)%float && negb (is_nan f)
  | _ => false
  end.

(** [a || b]. *)
Definition or (a b : value) : value := if truthy a then a else b.

(** [arr[i]]: [undefined] past the end. *)
Definition array_get (arr : list value) (i : nat) : value :=
  nth i arr Undefined.

(** [arr.reduce(f, init)]: the callback receives the accumulator, the
    element and its index. *)
Fixpoint reduce_from {A B : Type} (f : B -> A -> nat -> B)
         (i : nat) (arr : list A) (acc : B) : B :=
  match arr with
  | [] => acc
  | a :: rest => reduce_from f (S i) rest (f acc a i)
  end.

Definition array_reduce {A B : Type} (f : B -> A -> nat -> B)
           (arr : list A) (init : B) : B :=
  reduce_from f 0 arr init.

(** [arr[i] = v] for an index inside the array.  The program only writes
    inside arrays created with [new Array(n).fill(0)] at an index below
    [n]; past the end the model leaves the array as it is. *)
Fixpoint array_set {A : Type} (arr : list A) (i : nat) (v : A) : list A :=
  match arr, i with
  | [], _ => []
  | _ :: rest, O => v :: rest
  | a :: rest, S j => a :: array_set rest j v
  end.

(** [arr.map(f)] with the index passed to the callback. *)
Fixpoint mapi_from {A B : Type} (f : A -> nat -> B) (i : nat)
         (arr : list A) : list B :=
  match arr with
  | [] => []
  | a :: rest => f a i :: mapi_from f (S i) rest
  end.

Definition array_mapi {A B : Type} (f : A -> nat -> B) (arr : list A) : list B :=
  mapi_from f 0 arr.

(** [arr.sort(cmp)].  ECMAScript fixes the result for a consistent
    comparator only: the stable sorted order.  The model is the stable
    insertion sort: each element in turn is placed before the first
    element of the sorted prefix that it precedes ([cmp a b < 0]). *)
Fixpoint sort_insert {A : Type} (cmp : A -> A -> float) (a : A)
         (sorted : list A) : list A :=
  match sorted with
  | [] => [a]
  | b :: rest =>
      if (cmp a b <? 0)%float then a :: b :: rest
      else b :: sort_insert cmp a rest
  end.

Definition array_sort {A : Type} (cmp : A -> A -> float) (arr : list A) : list A :=
  fold_left (fun sorted a => sort_insert cmp a sorted) arr [].

(** The primitive values a field of an input record can hold. *)
Inductive jsprim : Type :=
| PUndefined
| PNull
| PBool (b : bool)
| PNumber (f : float)
| PString (s : string).

(** The values [string | number]: x values, accessors, split values. *)
Inductive strnum : Type :=
| SNum (f : float)
| SStr (s : string).

(** SameValueZero, the key comparison of [Map] and [Set]: [NaN] is equal
    to itself and [+0] to [-0]. *)
Definition sameValueZero (a b : strnum) : bool :=
  match a, b with
  | SNum f, SNum g => (f =? g)%float || (is_nan f && is_nan g)
  | SStr s, SStr t => String.eqb s t
  | _, _ => false
  end.

(** A [Map] or [Set] stores [+0] for the key [-0]. *)
Definition canonKey (a : strnum) : strnum :=
  match a with
  | SNum f => if (f =? 0)%float then SNum 0%float else SNum f
  | SStr s => SStr s
  end.

End JS.

Import JS.

(* ------------------------------------------------------------------ *)
(** ** Insertion-ordered maps and sets *)

(** The key comparison of a [Map]/[Set], and the key actually stored. *)
Class MapKey (K : Type) : Type := {
  key_eqb : K -> K -> bool;
  key_canon : K -> K
}.

Class MapKeyLaws (K : Type) `{MapKey K} : Prop := {
  key_eqb_refl : forall k, key_eqb k k = true;
  key_eqb_sym : forall j k, key_eqb j k = key_eqb k j;
  key_eqb_trans : forall i j k,
      key_eqb i j = true -> key_eqb j k = true -> key_eqb i k = true;
  key_canon_eqb : forall k, key_eqb (key_canon k) k = true
}.

Arguments MapKeyLaws K {_}.

#[export] Instance strnum_MapKey : MapKey strnum :=
  {| key_eqb := sameValueZero; key_canon := canonKey |}.

#[export] Instance string_MapKey : MapKey string :=
  {| key_eqb := String.eqb; key_canon := fun s => s |}.

Module JsMap.
Section Defs.
Context {K V : Type} `{MapKey K}.

(** [m.get(k)]; [None] is [undefined]. *)
Fixpoint get (m : list (K * V)) (k : K) : option V :=
  match m with
  | [] => None
  | (j, v) :: rest => if key_eqb j k then Some v else get rest k
  end.

Definition has (m : list (K * V)) (k : K) : bool :=
  match get m k with Some _ => true | None => false end.

(** [m.set(k, v)]: an existing key keeps its place, a new one goes last. *)
Fixpoint set (m : list (K * V)) (k : K) (v : V) : list (K * V) :=
  match m with
  | [] => [(key_canon k, v)]
  | (j, w) :: rest =>
      if key_eqb j k then (j, v) :: rest else (j, w) :: set rest k v
  end.

Definition keys (m : list (K * V)) : list K := map fst m.
Definition values (m : list (K * V)) : list V := map snd m.

(** No key occurs twice: what every [Map] satisfies. *)
Fixpoint wfb (m : list (K * V)) : bool :=
  match m with
  | [] => true
  | (j, _) :: rest => negb (has rest j) && wfb rest
  end.
End Defs.
End JsMap.

Module JsSet.
Section Defs.
Context {K : Type} `{MapKey K}.

Definition has (s : list K) (k : K) : bool := existsb (fun j => key_eqb j k) s.

Definition add (s : list K) (k : K) : list K :=
  if has s k then s else s ++ [key_canon k].

Definition delete (s : list K) (k : K) : list K :=
  filter (fun j => negb (key_eqb j k)) s.

(** [new Set(arr)]. *)
Definition of_list (l : list K) : list K := fold_left add l [].

Fixpoint wfb (s : list K) : bool :=
  match s with
  | [] => true
  | j :: rest => negb (has rest j) && wfb rest
  end.

(** How many elements of a list are the key [k]. *)
Definition countKey (k : K) (l : list K) : nat :=
  List.length (filter (fun j => key_eqb j k) l).
End Defs.
End JsSet.

(* ================================================================== *)
(** ** Data model ([series.ts]) *)

(** Modelled from the spec: the [ScaleType] enumeration of [scales],
    which is not part of the sources at hand ("xScaleType (enum:
    continuous/time/ordinal)").  The program only tests for [Ordinal]. *)
Inductive ScaleType : Type :=
| Continuous
| Time
| Ordinal.

Definition isOrdinal (t : ScaleType) : bool :=
  match t with
  | Ordinal => true
  | _ => false
  end.

(** [FilledValues]: every field is optional. *)
Record FilledValues : Type := {
  filled_x : option strnum;
  filled_y1 : option float;
  filled_y0 : option float
}.

(** [RawDataSeriesDatum<T>]: an absent optional field is [Undefined]
    (for [datum]: [None] stands for [null] and for an absent field).  The
    mark is whatever the mark accessor returned. *)
Record RawDataSeriesDatum (T : Type) : Type := {
  raw_x : strnum;
  raw_y1 : value;
  raw_y0 : value;
  raw_mark : jsprim;
  raw_datum : option T
}.

(** [DataSeriesDatum<T>]. *)
Record DataSeriesDatum (T : Type) : Type := {
  x : strnum;
  y1 : value;
  y0 : value;
  initialY1 : value;
  initialY0 : value;
  mark : jsprim;
  datum : option T;
  filled : option FilledValues
}.

Record XYChartSeriesIdentifier : Type := {
  specId : string;
  yAccessor : strnum;
  splitAccessors : list (strnum * strnum);
  seriesKeys : list strnum;
  key : string
}.

(** [XYChartSeriesIdentifier & { data }]: [RawDataSeries] when [D] is the
    raw datum, [DataSeries] when it is the formatted one. *)
Record Series (D : Type) : Type := {
  seriesIdentifier : XYChartSeriesIdentifier;
  data : list D
}.

Definition RawDataSeries (T : Type) : Type := Series (RawDataSeriesDatum T).
Definition DataSeries (T : Type) : Type := Series (DataSeriesDatum T).

(** [{ ...ds, data: newData }]. *)
Definition with_data {D E : Type} (ds : Series D) (newData : list E) : Series E :=
  {| seriesIdentifier := seriesIdentifier ds; data := newData |}.

(** Modelled from the spec: [isDefined] of [state/utils], which is not
    part of the sources at hand; a value is defined when it is neither
    [null] nor [undefined] ("mark is null when no mark accessor is
    configured"). *)
Definition isDefined (v : jsprim) : bool :=
  match v with
  | PUndefined | PNull => false
  | _ => true
  end.

(* ================================================================== *)
(** ** The stacking engine ([stacked_series_utils.ts]) *)

Record StackedValues : Type := {
  values : list value;
  percent : list value;
  total : value
}.

(** The accumulator of the reduction in [computeYStackedMapValues]. *)
Record StackAcc : Type := {
  acc_values : list value;
  acc_total : value
}.

Definition stackReducer (scaleToExtent : bool)
           (acc : StackAcc) (currentValue : value) (index : nat) : StackAcc :=
  if Nat.eqb (List.length (acc_values acc)) 0 then
    if scaleToExtent then
      {| acc_values := [currentValue; currentValue]; acc_total := currentValue |}
    else
      {| acc_values := [Num 0%float; currentValue]; acc_total := currentValue |}
  else
    {| acc_values :=
         acc_values acc ++ [Num (add (array_get (acc_values acc) index) currentValue)];
       acc_total := Num (add (acc_total acc) currentValue) |}.

(** The body of the [forEach] of [computeYStackedMapValues] for one x. *)
Definition computeStackedValues (scaleToExtent : bool)
           (yStackArray : list value) : StackedValues :=
  let stackArray :=
    array_reduce (stackReducer scaleToExtent) yStackArray
                 {| acc_values := []; acc_total := Num 0%float |} in
  let percent :=
    map (fun value =>
           if strictEqZero (acc_total stackArray) then Num 0%float
           else Num (div value (acc_total stackArray)))
        (acc_values stackArray) in
  {| values := acc_values stackArray;
     percent := percent;
     total := acc_total stackArray |}.

Definition computeYStackedMapValues
           (yValueStackMap : list (strnum * list value))
           (scaleToExtent : bool) : list (strnum * StackedValues) :=
  fold_left
    (fun stackedValues '(xValue, yStackArray) =>
       JsMap.set stackedValues xValue (computeStackedValues scaleToExtent yStackArray))
    yValueStackMap [].

Section Stacking.
Context {T : Type}.

Definition getStackedFormattedSeriesDatum
           (data : RawDataSeriesDatum T)
           (stackedValues : list (strnum * StackedValues))
           (seriesIndex : nat)
           (scaleToExtent isPercentageMode : bool)
           (filled : option FilledValues) : option (DataSeriesDatum T) :=
  let x := raw_x data in
  let markValue := raw_mark data in
  let datum := raw_datum data in
  match JsMap.get stackedValues x with
  | None => None
  | Some stack =>
      let y1 :=
        if isPercentageMode then
          if notNullish (raw_y1 data) then
            if negb (strictEqZero (total stack))
            then Num (div (raw_y1 data) (total stack)) else Num 0%float
          else Null
        else raw_y1 data in
      let y0 :=
        if isPercentageMode then
          if notNullish (raw_y0 data) then
            if negb (strictEqZero (total stack))
            then Num (div (raw_y0 data) (total stack)) else Num 0%float
          else Null
        else raw_y0 data in
      let computedY0 := if scaleToExtent then or y0 y1 else or y0 Null in
      let initialY0 := if notNullish y0 then y0 else Null in
      let mark := if isDefined markValue then markValue else PNull in
      if Nat.eqb seriesIndex 0 then
        Some {| x := x; y1 := y1; y0 := computedY0;
                initialY1 := y1; initialY0 := initialY0;
                mark := mark; datum := datum; filled := filled |}
      else
        let stackY :=
          if isPercentageMode then array_get (percent stack) seriesIndex
          else array_get (values stack) seriesIndex in
        let stackedY1 :=
          if isPercentageMode then
            if strictNotNull y1 && notNullish stackY then Num (add stackY y1) else Null
          else if negb (notNullish stackY) then
            if strictNotNull y1 then y1 else Null
          else
            if strictNotNull y1 then Num (add stackY y1) else Null in
        let stackedY0 :=
          if isPercentageMode then
            if notNullish y0 && notNullish stackY then Num (add stackY y0) else stackY
          else
            let stackedY0 :=
              if negb (notNullish stackY) then
                if notNullish y0 then y0 else stackY
              else
                if notNullish y0 then Num (add stackY y0) else stackY in
            if negb (strictNotNull stackedY1) then Null else stackedY0 in
        Some {| x := x; y1 := stackedY1; y0 := stackedY0;
                initialY1 := y1; initialY0 := initialY0;
                mark := mark; datum := datum; filled := filled |}
  end.

End Stacking.

Section StackedSeries.
Context {T : Type}.

(** [0] for an ordinal scale or when one of the two x values is a string,
    [a.x - b.x] otherwise. *)
Definition datumXSortPredicate (xScaleType : ScaleType)
           (a b : DataSeriesDatum T) : float :=
  match x a, x b with
  | SNum ax, SNum bx => if isOrdinal xScaleType then 0%float else (ax - bx)%float
  | _, _ => 0%float
  end.

(** [stackMap.get(x) || new Array(n).fill(0)], then [stack[index] = v]
    and [stackMap.set(x, stack)]. *)
Definition setStackValue (n index : nat) (stackMap : list (strnum * list value))
           (xv : strnum) (v : value) : list (strnum * list value) :=
  let stack :=
    match JsMap.get stackMap xv with
    | Some stack => stack
    | None => repeat (Num 0%float) n
    end in
  JsMap.set stackMap xv (array_set stack index v).

(** The body of [ds.data.forEach] in [getYValueStackMap]: the state is
    the stack map and the set of x values still missing. *)
Definition stackDatum (n index : nat) (xValues : list strnum)
           (st : list (strnum * list value) * list strnum)
           (datum : RawDataSeriesDatum T)
  : list (strnum * list value) * list strnum :=
  let '(stackMap, missingXValues) := st in
  (setStackValue n index stackMap (raw_x datum) (raw_y1 datum),
   if JsSet.has xValues (raw_x datum)
   then JsSet.delete missingXValues (raw_x datum)
   else missingXValues).

(** The loop over the missing x values: they are filled with 0. *)
Definition fillMissing (n index : nat) (stackMap : list (strnum * list value))
           (missingXValues : list strnum) : list (strnum * list value) :=
  fold_left (fun stackMap xv => setStackValue n index stackMap xv (Num 0%float))
            missingXValues stackMap.

(** The body of [dataseries.forEach]. *)
Definition stackSeries (n : nat) (xValues : list strnum)
           (st : list (strnum * list value) * list strnum)
           (ds : RawDataSeries T) (index : nat)
  : list (strnum * list value) * list strnum :=
  let '(stackMap, missingXValues) :=
    fold_left (stackDatum n index xValues) (data ds) st in
  (fillMissing n index stackMap missingXValues, missingXValues).

Definition getYValueStackMap (dataseries : list (RawDataSeries T))
           (xValues : list strnum) : list (strnum * list value) :=
  fst (array_reduce (stackSeries (List.length dataseries) xValues)
                    dataseries ([], xValues)).

(** The datum synthesised for an x value the series lacks, and its
    [filled] marker. *)
Definition filledDatum (xv : strnum) : RawDataSeriesDatum T :=
  {| raw_x := xv; raw_y1 := Num 0%float; raw_y0 := Undefined;
     raw_mark := PNull; raw_datum := None |}.

Definition filledMarker (xv : strnum) : FilledValues :=
  {| filled_x := Some xv; filled_y1 := Some 0%float; filled_y0 := None |}.

(** The body of [ds.data.forEach] in [formatStackedDataSeriesValues]: the
    state is [newData] and the set of x values still missing. *)
Definition formatDatum (stackedValues : list (strnum * StackedValues))
           (seriesIndex : nat) (scaleToExtent isPercentageMode : bool)
           (st : list (DataSeriesDatum T) * list strnum)
           (data : RawDataSeriesDatum T)
  : list (DataSeriesDatum T) * list strnum :=
  let '(newData, missingXValues) := st in
  match getStackedFormattedSeriesDatum data stackedValues seriesIndex
          scaleToExtent isPercentageMode None with
  | None => (newData, missingXValues)
  | Some formattedSeriesDatum =>
      (newData ++ [formattedSeriesDatum], JsSet.delete missingXValues (raw_x data))
  end.

(** The body of the loop over the missing x values. *)
Definition formatFilled (stackedValues : list (strnum * StackedValues))
           (seriesIndex : nat) (scaleToExtent isPercentageMode : bool)
           (newData : list (DataSeriesDatum T)) (xv : strnum)
  : list (DataSeriesDatum T) :=
  match getStackedFormattedSeriesDatum (filledDatum xv) stackedValues
          seriesIndex scaleToExtent isPercentageMode
          (Some (filledMarker xv)) with
  | Some filledSeriesDatum => newData ++ [filledSeriesDatum]
  | None => newData
  end.

(** The body of [dataseries.map]. *)
Definition formatSeries (stackedValues : list (strnum * StackedValues))
           (scaleToExtent isPercentageMode : bool)
           (xValues : list strnum) (xScaleType : ScaleType)
           (ds : RawDataSeries T) (seriesIndex : nat) : DataSeries T :=
  let '(newData, missingXValues) :=
    fold_left (formatDatum stackedValues seriesIndex scaleToExtent isPercentageMode)
              (data ds) ([], xValues) in
  let newData :=
    fold_left (formatFilled stackedValues seriesIndex scaleToExtent isPercentageMode)
              missingXValues newData in
  with_data ds (array_sort (datumXSortPredicate xScaleType) newData).

Definition formatStackedDataSeriesValues (dataseries : list (RawDataSeries T))
           (scaleToExtent isPercentageMode : bool)
           (xValues : list strnum) (xScaleType : ScaleType)
  : list (DataSeries T) :=
  let yValueStackMap := getYValueStackMap dataseries xValues in
  let stackedValues := computeYStackedMapValues yValueStackMap scaleToExtent in
  array_mapi
    (formatSeries stackedValues scaleToExtent isPercentageMode xValues xScaleType)
    dataseries.

End StackedSeries.

(* ================================================================== *)
(** ** Series keys, splitting and colours ([series.ts]) *)

(** An input record: an object with primitive fields, or a value that is
    not an object. *)
Inductive Datum : Type :=
| DPrimitive (p : jsprim)
| DObject (fields : list (string * jsprim)).

(** [Accessor | AccessorFn]. *)
Inductive AccessorOrFn : Type :=
| AField (accessor : strnum)
| AFn (fn : Datum -> jsprim).

(** Modelled from the spec: the fields of [BasicSeriesSpec] ([specs.ts] is
    not part of the sources at hand) that the splitter reads: "id, data,
    xAccessor, yAccessors (ordered, non-empty), y0Accessors (optional),
    markSizeAccessor (optional), splitSeriesAccessors (optional array),
    xScaleType, sortIndex (optional number)". *)
Record BasicSeriesSpec : Type := {
  spec_id : string;
  spec_data : list Datum;
  spec_xAccessor : AccessorOrFn;
  spec_yAccessors_first : strnum;
  spec_yAccessors_rest : list strnum;
  spec_y0Accessors : option (list strnum);
  spec_markSizeAccessor : option AccessorOrFn;
  spec_splitSeriesAccessors : option (list strnum);
  spec_xScaleType : ScaleType;
  spec_sortIndex : option float
}.

Definition spec_yAccessors (spec : BasicSeriesSpec) : list strnum :=
  spec_yAccessors_first spec :: spec_yAccessors_rest spec.

(** Modelled from the spec: [SeriesIdentifier] of [commons/series_id], not
    part of the sources at hand; the program reads its [key]. *)
Record SeriesIdentifier : Type := {
  sid_specId : string;
  sid_key : string
}.

Record SeriesCollectionValue : Type := {
  banded : option bool;
  specSortIndex : option float;
  scv_seriesIdentifier : XYChartSeriesIdentifier
}.

Definition Color : Type := string.

(** Modelled from the spec: [ColorOverrides] of [state/chart_state] and
    [ColorConfig] of the theme, not part of the sources at hand: the
    "temporary" and "persisted" override sets, keyed by series key, and
    the palette [vizColors]. *)
Record ColorOverrides : Type := {
  temporary : list (string * Color);
  persisted : list (string * Color)
}.

Record ColorConfig : Type := {
  vizColors : list Color
}.

Record SplitSeriesResult : Type := {
  rawDataSeries : list (RawDataSeries Datum);
  colorsValues : list string;
  split_xValues : list strnum
}.

Record SplittedSeries : Type := {
  splittedSeries : list (string * list (RawDataSeries Datum));
  seriesCollection : list (string * SeriesCollectionValue);
  xValues : list strnum
}.

Section SeriesTs.

(** ECMAScript's [Number::toString] and [StringToNumber] are primitives
    of the language: the development is parametric in them. *)
Variable NumberToString : float -> string.
Variable StringToNumber : string -> float.

Definition ToString (v : strnum) : string :=
  match v with
  | SNum f => NumberToString f
  | SStr s => s
  end.

(** [a > b] on [string | number] operands: two strings are compared by
    code units, otherwise both operands are converted to numbers. *)
Definition strnumToNumber (v : strnum) : float :=
  match v with
  | SNum f => f
  | SStr s => StringToNumber s
  end.

Definition gt (a b : strnum) : bool :=
  match a, b with
  | SStr s, SStr t => String.ltb t s
  | _, _ => (strnumToNumber b <? strnumToNumber a)%float
  end.

(** The comparator [([a], [b]) => (a > b ? 1 : -1)] of [getSeriesKey]. *)
Definition compareSplitAccessors (entryA entryB : strnum * strnum) : float :=
  let '(a, _) := entryA in
  let '(b, _) := entryB in
  if gt a b then 1%float else (-1)%float.

Definition getSeriesKey (specId : string) (yAccessor : strnum)
           (splitAccessors : list (strnum * strnum)) : string :=
  let joinedAccessors :=
    String.concat "|"
      (map (fun '(key, value) => (ToString key ++ "-" ++ ToString value)%string)
           (array_sort compareSplitAccessors splitAccessors)) in
  ("spec{" ++ specId ++ "}yAccessor{" ++ ToString yAccessor
     ++ "}splitAccessors{" ++ joinedAccessors ++ "}")%string.

(** [datum[accessor]] on an object. *)
Definition getProperty (datum : Datum) (accessor : strnum) : jsprim :=
  match datum with
  | DObject fields =>
      match JsMap.get fields (ToString accessor) with
      | Some v => v
      | None => PUndefined
      end
  | DPrimitive _ => PUndefined
  end.

(** Modelled from the spec: [getAccessorValue] of [utils/accessor], not
    part of the sources at hand ("a function or field reference
    extracting a value from an opaque input record"). *)
Definition getAccessorValue (datum : Datum) (accessor : AccessorOrFn) : jsprim :=
  match accessor with
  | AField a => getProperty datum a
  | AFn fn => fn datum
  end.

(** [Number(value)]. *)
Definition Number (v : jsprim) : float :=
  match v with
  | PUndefined => nan
  | PNull => 0%float
  | PBool b => if b then 1%float else 0%float
  | PNumber f => f
  | PString s => StringToNumber s
  end.

Definition castToNumber (v : jsprim) : value :=
  match v with
  | PUndefined | PNull => Null
  | _ => let num := Number v in if is_nan num then Null else Num num
  end.

(** [if (y0Accessor)]: the empty string, [0] and [NaN] are falsy. *)
Definition truthyAccessor (a : strnum) : bool :=
  match a with
  | SNum f => negb (f =? 0)%float && negb (is_nan f)
  | SStr s => negb (String.eqb s "")
  end.

Definition cleanDatum (datum : Datum) (xAccessor : AccessorOrFn)
           (yAccessor : strnum) (y0Accessor : option strnum)
           (markSizeAccessor : option AccessorOrFn)
  : option (RawDataSeriesDatum Datum) :=
  match datum with
  | DPrimitive _ => None
  | DObject _ =>
      let mk xv :=
        let mark :=
          match markSizeAccessor with
          | None => PNull
          | Some a => getAccessorValue datum a
          end in
        let y1 := castToNumber (getProperty datum yAccessor) in
        let y0 :=
          match y0Accessor with
          | Some a =>
              if truthyAccessor a then castToNumber (getProperty datum a) else Null
          | None => Null
          end in
        Some {| raw_x := xv; raw_y1 := y1; raw_y0 := y0;
                raw_mark := mark; raw_datum := Some datum |} in
      match getAccessorValue datum xAccessor with
      | PString s => mk (SStr s)
      | PNumber f => mk (SNum f)
      | _ => None
      end
  end.

Definition getSplitAccessors (datum : Datum) (accessors : list strnum)
  : list (strnum * strnum) :=
  match datum with
  | DObject _ =>
      fold_left
        (fun splitAccessors accessor =>
           match getProperty datum accessor with
           | PString s => JsMap.set splitAccessors accessor (SStr s)
           | PNumber f => JsMap.set splitAccessors accessor (SNum f)
           | _ => splitAccessors
           end)
        accessors []
  | DPrimitive _ => []
  end.

Definition updateSeriesMap (seriesMap : list (string * RawDataSeries Datum))
           (splitAccessors : list (strnum * strnum)) (accessor : strnum)
           (datum : RawDataSeriesDatum Datum) (specId : string)
  : list (string * RawDataSeries Datum) * string :=
  let seriesKeys := JsMap.values splitAccessors ++ [accessor] in
  let seriesKey := getSeriesKey specId accessor splitAccessors in
  match JsMap.get seriesMap seriesKey with
  | Some series =>
      (JsMap.set seriesMap seriesKey (with_data series (data series ++ [datum])),
       seriesKey)
  | None =>
      (JsMap.set seriesMap seriesKey
         {| seriesIdentifier :=
              {| specId := specId; yAccessor := accessor;
                 splitAccessors := splitAccessors;
                 seriesKeys := seriesKeys; key := seriesKey |};
            data := [datum] |},
       seriesKey)
  end.

(** The accumulated state of [splitSeries]. *)
Record SplitState : Type := {
  st_series : list (string * RawDataSeries Datum);
  st_colorsValues : list string;
  st_xValues : list strnum
}.

Definition addCleanedDatum (specId : string)
           (splitAccessors : list (strnum * strnum)) (accessor : strnum)
           (cleanedDatum : option (RawDataSeriesDatum Datum))
           (st : SplitState) : SplitState :=
  match cleanedDatum with
  | Some cleaned =>
      let '(series, seriesKey) :=
        updateSeriesMap (st_series st) splitAccessors accessor cleaned specId in
      {| st_series := series;
         st_colorsValues := JsSet.add (st_colorsValues st) seriesKey;
         st_xValues := JsSet.add (st_xValues st) (raw_x cleaned) |}
  | None => st
  end.

Definition splitSeries (spec : BasicSeriesSpec) : SplitSeriesResult :=
  let specId := spec_id spec in
  let xAccessor := spec_xAccessor spec in
  let yAccessors := spec_yAccessors spec in
  let y0Accessors := spec_y0Accessors spec in
  let markSizeAccessor := spec_markSizeAccessor spec in
  let splitSeriesAccessors :=
    match spec_splitSeriesAccessors spec with
    | Some l => l
    | None => []
    end in
  let y0At (index : nat) : option strnum :=
    match y0Accessors with
    | Some l => nth_error l index
    | None => None
    end in
  let isMultipleY := Nat.ltb 1 (List.length yAccessors) in
  let st :=
    fold_left
      (fun st datum =>
         let splitAccessors := getSplitAccessors datum splitSeriesAccessors in
         if Nat.ltb 0 (List.length splitSeriesAccessors)
            && Nat.ltb (List.length splitAccessors) 1
         then st
         else if isMultipleY then
           array_reduce
             (fun st accessor index =>
                addCleanedDatum specId splitAccessors accessor
                  (cleanDatum datum xAccessor accessor (y0At index) markSizeAccessor)
                  st)
             yAccessors st
         else
           addCleanedDatum specId splitAccessors (spec_yAccessors_first spec)
             (cleanDatum datum xAccessor (spec_yAccessors_first spec) (y0At 0)
                         markSizeAccessor)
             st)
      (spec_data spec)
      {| st_series := []; st_colorsValues := []; st_xValues := [] |} in
  {| rawDataSeries := JsMap.values (st_series st);
     colorsValues := st_colorsValues st;
     split_xValues := st_xValues st |}.

(** [[...xValues].sort()]: the default comparison is on the elements
    converted to strings. *)
Definition defaultCompare (a b : strnum) : float :=
  if String.ltb (ToString a) (ToString b) then (-1)%float
  else if String.ltb (ToString b) (ToString a) then 1%float
  else 0%float.

Definition isDeselected (deselectedDataSeries : list SeriesIdentifier)
           (series : RawDataSeries Datum) : bool :=
  existsb (fun d => String.eqb (key (seriesIdentifier series)) (sid_key d))
          deselectedDataSeries.

(** [rawDataSeries.filter(({ key }) => !deselectedDataSeries.some(...))]. *)
Definition removeDeselected (deselectedDataSeries : list SeriesIdentifier)
           (series : list (RawDataSeries Datum)) : list (RawDataSeries Datum) :=
  filter (fun s => negb (isDeselected deselectedDataSeries s)) series.

(** The state threaded through the loop of [getSplittedSeries]. *)
Record SplittedState : Type := {
  ss_splittedSeries : list (string * list (RawDataSeries Datum));
  ss_seriesCollection : list (string * SeriesCollectionValue);
  ss_xValues : list strnum;
  ss_isOrdinalScale : bool
}.

Definition splittedStep (deselectedDataSeries : list SeriesIdentifier)
           (st : SplittedState) (spec : BasicSeriesSpec) : SplittedState :=
  let dataSeries := splitSeries spec in
  let isOrdinalScale :=
    if isOrdinal (spec_xScaleType spec) then true else ss_isOrdinalScale st in
  let currentRawDataSeries :=
    if Nat.ltb 0 (List.length deselectedDataSeries) then
      removeDeselected deselectedDataSeries (rawDataSeries dataSeries)
    else rawDataSeries dataSeries in
  let banded :=
    match spec_y0Accessors spec with
    | Some l => Some (Nat.ltb 0 (List.length l))
    | None => None
    end in
  {| ss_splittedSeries :=
       JsMap.set (ss_splittedSeries st) (spec_id spec) currentRawDataSeries;
     ss_seriesCollection :=
       fold_left
         (fun seriesCollection series =>
            JsMap.set seriesCollection (key (seriesIdentifier series))
              {| banded := banded;
                 specSortIndex := spec_sortIndex spec;
                 scv_seriesIdentifier := seriesIdentifier series |})
         (rawDataSeries dataSeries) (ss_seriesCollection st);
     ss_xValues := fold_left JsSet.add (split_xValues dataSeries) (ss_xValues st);
     ss_isOrdinalScale := isOrdinalScale |}.

Definition getSplittedSeries (seriesSpecs : list BasicSeriesSpec)
           (deselectedDataSeries : list SeriesIdentifier) : SplittedSeries :=
  let st :=
    fold_left (splittedStep deselectedDataSeries) seriesSpecs
      {| ss_splittedSeries := []; ss_seriesCollection := [];
         ss_xValues := []; ss_isOrdinalScale := false |} in
  {| splittedSeries := ss_splittedSeries st;
     seriesCollection := ss_seriesCollection st;
     xValues :=
       if ss_isOrdinalScale st then ss_xValues st
       else JsSet.of_list (array_sort defaultCompare (ss_xValues st)) |}.

End SeriesTs.

(** *** Colours *)

(** A colour looked up in a map is used when it is truthy: present and
    not the empty string. *)
Definition truthyColor (c : option Color) : bool :=
  match c with
  | Some s => negb (String.eqb s "")
  | None => false
  end.

Definition getHighestOverride (key : string)
           (customColors : list (string * Color))
           (overrides : ColorOverrides) : option Color :=
  let color := JsMap.get (temporary overrides) key in
  if truthyColor color then color
  else
    let color := JsMap.get customColors key in
    if truthyColor color then color
    else JsMap.get (persisted overrides) key.

(** [vizColors[counter % vizColors.length]]: [undefined] for an empty
    palette, where the index is [NaN]. *)
Definition paletteColor (chartColors : ColorConfig) (counter : nat) : option Color :=
  let n := List.length (vizColors chartColors) in
  if Nat.eqb n 0 then None
  else nth_error (vizColors chartColors) (counter mod n).

(** The body of [seriesCollection.forEach] in [getSeriesColors]: the state
    is the colour map and the counter. *)
Definition assignColor (chartColors : ColorConfig)
           (customColors : list (string * Color)) (overrides : ColorOverrides)
           (st : list (string * option Color) * nat)
           (entry : string * SeriesCollectionValue)
  : list (string * option Color) * nat :=
  let '(seriesColorMap, counter) := st in
  let '(seriesKey, _) := entry in
  let colorOverride := getHighestOverride seriesKey customColors overrides in
  let color :=
    if truthyColor colorOverride then colorOverride
    else paletteColor chartColors counter in
  (JsMap.set seriesColorMap seriesKey color, S counter).

Definition getSeriesColors (seriesCollection : list (string * SeriesCollectionValue))
           (chartColors : ColorConfig)
           (customColors : list (string * Color))
           (overrides : ColorOverrides) : list (string * option Color) :=
  fst (fold_left (assignColor chartColors customColors overrides)
                 seriesCollection ([], 0)).

(* ================================================================== *)
(** ** Reference definitions used to state the properties *)

(** The cumulative sequence: each entry is the previous cumulative value
    plus the next contribution. *)
Fixpoint cumulative (previous : value) (rest : list value) : list value :=
  match rest with
  | [] => []
  | v :: rest =>
      let next := Num (add previous v) in
      next :: cumulative next rest
  end.

(** The sum [v0 + v1 + ... + vn] of the contributions at one x, added from
    left to right in binary64, [null] counting as [0]. *)
Definition sumContributions (stack : list value) : float :=
  match stack with
  | [] => 0%float
  | v0 :: rest => fold_left (fun s v => (s + ToNumber v)%float) rest (ToNumber v0)
  end.



(** How many formatted data of a series lie at the x value [xv]. *)
Definition countAtX {T : Type} (xv : strnum) (l : list (DataSeriesDatum T)) : nat :=
  List.length (filter (fun d => sameValueZero (x d) xv) l).

(** The colour the precedence rule gives a series: the first defined
    (truthy) colour among the temporary override, the custom colour and
    the persisted override, otherwise the palette colour at
    [counter mod paletteSize]. *)
Definition precedenceColor (chartColors : ColorConfig)
           (customColors : list (string * Color)) (overrides : ColorOverrides)
           (seriesKey : string) (counter : nat) : option Color :=
  match find truthyColor
             [JsMap.get (temporary overrides) seriesKey;
              JsMap.get customColors seriesKey;
              JsMap.get (persisted overrides) seriesKey] with
  | Some color => color
  | None =>
      nth_error (vizColors chartColors)
                (counter mod List.length (vizColors chartColors))
  end.

(** Equality of two floats as [==] sees it, on their decoded form. *)
Definition sf_eq (a b : spec_float) : Prop :=
  match a, b with
  | S754_zero _, S754_zero _ => True
  | S754_infinity s, S754_infinity s' => s = s'
  | S754_finite s m e, S754_finite s' m' e' => s = s' /\ m = m' /\ e = e'
  | _, _ => False
  end.

(** While [getYValueStackMap] runs, an x value of the universe is still
    missing or already has its stack array; at the end all of them have
    one. *)
Definition covered (xValues : list strnum)
           (st : list (strnum * list value) * list strnum) : Prop :=
  forall k, JsSet.has xValues k = true ->
            JsSet.has (snd st) k = true \/ JsMap.has (fst st) k = true.

Definition full (xValues : list strnum)
           (stackMap : list (strnum * list value)) : Prop :=
  forall k, JsSet.has xValues k = true -> JsMap.has stackMap k = true.

(** The string a split accessor of type string stands for. *)
Definition accessorString (entry : strnum * strnum) : string :=
  match fst entry with
  | SStr s => s
  | SNum _ => EmptyString
  end.

Definition isStringAccessor (entry : strnum * strnum) : bool :=
  match fst entry with
  | SStr _ => true
  | SNum _ => false
  end.

(** The increasing order of the accessor strings, on the entries of a
    split-accessor map. *)
Definition accessorLt (e1 e2 : strnum * strnum) : Prop :=
  String.ltb (accessorString e1) (accessorString e2) = true.

(* ================================================================== *)
(** ** Example inputs *)

Local Open Scope string_scope.

(** Instances of the two primitives, to run the program on concrete
    inputs.  [exampleNumberToString] is [Number::toString] on [NaN], the
    infinities, the zeros and the integers of magnitude at most 2^53 (it
    drops the fraction of any other number); [exampleStringToNumber] is
    [StringToNumber] on the empty string, on strings of decimal digits and
    on strings that are no numeric literal at all (it answers [NaN] for
    every other string, also for a literal with a sign, a fraction, an
    exponent or spaces). *)
Definition exampleNumberToString (f : float) : string :=
  match Prim2SF f with
  | S754_nan => "NaN"
  | S754_infinity false => "Infinity"
  | S754_infinity true => "-Infinity"
  | S754_zero _ => "0"
  | S754_finite s m e =>
      let magnitude :=
        if (0 <=? e)%Z then (Z.pos m * 2 ^ e)%Z else (Z.pos m / 2 ^ (- e))%Z in
      NilZero.string_of_int (Z.to_int (if s then (- magnitude)%Z else magnitude))
  end.

Definition exampleStringToNumber (s : string) : float :=
  if String.eqb s "" then 0%float
  else
    match NilZero.uint_of_string s with
    | Some digits => SF2Prim (binary_normalize prec emax (Z.of_uint digits) 0 false)
    | None => nan
    end.

(** The same two split accessors, a string and a number, inserted in the
    two possible orders. *)
Definition mixedAccessors1 : list (strnum * strnum) :=
  [(SStr "a", SStr "x"); (SNum 1%float, SStr "y")].

Definition mixedAccessors2 : list (strnum * strnum) :=
  [(SNum 1%float, SStr "y"); (SStr "a", SStr "x")].

Definition stringAccessors1 : list (strnum * strnum) :=
  [(SStr "g", SStr "x"); (SStr "b", SNum 2%float); (SStr "k", SStr "z")].

Definition stringAccessors2 : list (strnum * strnum) :=
  [(SStr "k", SStr "z"); (SStr "g", SStr "x"); (SStr "b", SNum 2%float)].

(** Two series over the x values 1 and 2: 10 and 5 at x = 1, 20 and
    nothing at x = 2. *)
Definition exampleStackMap : list (strnum * list value) :=
  [(SNum 1%float, [Num 10%float; Num 5%float]);
   (SNum 2%float, [Num 20%float; Num 0%float])].

(** Two series that cancel out at x = 1. *)
Definition zeroTotalStackMap : list (strnum * list value) :=
  [(SNum 1%float, [Num 4%float; Num (-4)%float])].


(** [isNaN(v)] on a value that is a number; [null] and [undefined] are
    not numbers at all. *)
Definition isNaNValue (v : value) : bool :=
  match v with
  | Num f => is_nan f
  | _ => false
  end.

(** A datum of the second series whose [y1] is [null], stacked on a first
    series worth 10 at x = 1. *)
Definition nullY1Datum : RawDataSeriesDatum unit :=
  {| raw_x := SNum 1%float; raw_y1 := Null; raw_y0 := Null;
     raw_mark := PNull; raw_datum := None |}.

Definition nullY1StackMap : list (strnum * list value) :=
  [(SNum 1%float, [Num 10%float; Null])].

(** A banded datum whose [y1] is [null] and whose [y0] is 5. *)
Definition nullY1BandedDatum : RawDataSeriesDatum unit :=
  {| raw_x := SNum 1%float; raw_y1 := Null; raw_y0 := Num 5%float;
     raw_mark := PNull; raw_datum := None |}.



Definition zeroTotalDatum : RawDataSeriesDatum unit :=
  {| raw_x := SNum 1%float; raw_y1 := Num (-4)%float; raw_y0 := Num 2%float;
     raw_mark := PNull; raw_datum := None |}.

(** Two series over the x values 1, 2, 3: the first lacks x = 3, the
    second lacks x = 2. *)
Definition exampleDatum (xv y : float) : RawDataSeriesDatum unit :=
  {| raw_x := SNum xv; raw_y1 := Num y; raw_y0 := Null;
     raw_mark := PNull; raw_datum := Some tt |}.

Definition exampleIdentifier (k : string) : XYChartSeriesIdentifier :=
  {| specId := "spec1"; yAccessor := SStr "y"; splitAccessors := [];
     seriesKeys := [SStr "y"]; key := k |}.

Definition exampleSeriesA : RawDataSeries unit :=
  {| seriesIdentifier := exampleIdentifier "A";
     data := [exampleDatum 1 10; exampleDatum 2 20] |}.

Definition exampleSeriesB : RawDataSeries unit :=
  {| seriesIdentifier := exampleIdentifier "B";
     data := [exampleDatum 3 15; exampleDatum 1 5] |}.

Definition exampleXValues : list strnum :=
  [SNum 1%float; SNum 2%float; SNum 3%float].

(** Three series; the second has a custom colour, the third a temporary
    and a persisted override. *)
Definition exampleCollectionValue (k : string) : SeriesCollectionValue :=
  {| banded := None; specSortIndex := None;
     scv_seriesIdentifier := exampleIdentifier k |}.

Definition exampleCollection : list (string * SeriesCollectionValue) :=
  [("A", exampleCollectionValue "A");
   ("B", exampleCollectionValue "B");
   ("C", exampleCollectionValue "C")].

Definition examplePalette : ColorConfig := {| vizColors := ["red"; "green"] |}.

Definition exampleCustomColors : list (string * Color) := [("B", "blue")].

Definition exampleOverrides : ColorOverrides :=
  {| temporary := [("C", "black")]; persisted := [("C", "white"); ("A", "")] |}.

(** A spec split by the field [g] into the series "a" and "b"; the series
    "b" is deselected. *)
Definition exampleSpec : BasicSeriesSpec :=
  {| spec_id := "spec1";
     spec_data :=
       [DObject [("x", PNumber 1%float); ("y", PNumber 10%float); ("g", PString "a")];
        DObject [("x", PNumber 1%float); ("y", PNumber 5%float); ("g", PString "b")];
        DObject [("x", PNumber 2%float); ("y", PNumber 7%float); ("g", PString "a")]];
     spec_xAccessor := AField (SStr "x");
     spec_yAccessors_first := SStr "y";
     spec_yAccessors_rest := [];
     spec_y0Accessors := None;
     spec_markSizeAccessor := None;
     spec_splitSeriesAccessors := Some [SStr "g"];
     spec_xScaleType := Continuous;
     spec_sortIndex := None |}.

Definition exampleKeyA : string := "spec{spec1}yAccessor{y}splitAccessors{g-a}".
Definition exampleKeyB : string := "spec{spec1}yAccessor{y}splitAccessors{g-b}".

Definition exampleDeselected : list SeriesIdentifier :=
  [{| sid_specId := "spec1"; sid_key := exampleKeyB |}].


Local Close Scope string_scope.
Unset Implicit Arguments.

(* ================================================================== *)
(** ** Further reference definitions *)

(** The contribution of a series to the stack at the x value [xv]: the
    [y1] of its last datum at [xv], and 0 when it has none. *)
Definition contributionAt {T : Type} (xv : strnum)
           (l : list (RawDataSeriesDatum T)) : value :=
  fold_left (fun acc d => if sameValueZero (raw_x d) xv then raw_y1 d else acc)
            l (Num 0%float).

(** The stack array of [xv] once the series [done] are processed, the
    [pending] ones being still at 0. *)
Definition stackOfData {T : Type} (xv : strnum)
           (done : list (list (RawDataSeriesDatum T))) (pending : nat)
  : list value :=
  map (contributionAt xv) done ++ repeat (Num 0%float) pending.

(** The stack map holds, at every key, the stack array of that key; a key
    it does not hold has a stack array of zeros. *)
Definition records {T : Type} (n : nat) (stackMap : list (strnum * list value))
           (done : list (list (RawDataSeriesDatum T))) (pending : nat) : Prop :=
  forall xv,
    match JsMap.get stackMap xv with
    | Some stack => stack = stackOfData xv done pending
    | None => stackOfData xv done pending = repeat (Num 0%float) n
    end.

(** The invariant of the loop over the data of one series: the data [p]
    of the current series are recorded, the missing x values belong to the
    universe and the current series has no datum at any of them. *)
Definition dataLoopInv {T : Type} (n : nat) (xValues : list strnum)
           (done : list (list (RawDataSeriesDatum T)))
           (p : list (RawDataSeriesDatum T)) (pending : nat)
           (st : list (strnum * list value) * list strnum) : Prop :=
  records n (fst st) (done ++ [p]) pending
  /\ (forall k, JsSet.has (snd st) k = true -> JsSet.has xValues k = true)
  /\ (forall k, JsSet.has (snd st) k = true -> contributionAt k p = Num 0%float).

(** The invariant of the loop over the series. *)
Definition seriesLoopInv {T : Type} (n : nat) (xValues : list strnum)
           (done : list (list (RawDataSeriesDatum T))) (pending : nat)
           (st : list (strnum * list value) * list strnum) : Prop :=
  records n (fst st) done pending
  /\ (forall k, JsSet.has (snd st) k = true -> JsSet.has xValues k = true).

(** Three series worth 3, 5 and 4 at x = 1. *)
Definition threeStackMap : list (strnum * list value) :=
  [(SNum 1%float, [Num 3%float; Num 5%float; Num 4%float])].

Definition plainDatum (xv y : float) : RawDataSeriesDatum unit :=
  {| raw_x := SNum xv; raw_y1 := Num y; raw_y0 := Undefined;
     raw_mark := PNull; raw_datum := Some tt |}.

(** ** Reference definitions for the splitter *)


(** The primitive value that a [string | number] is. *)
Definition strnumPrim (v : strnum) : jsprim :=
  match v with
  | SNum f => PNumber f
  | SStr s => PString s
  end.

Section SplitterFacts.
Variable NumberToString : float -> string.
Variable StringToNumber : string -> float.
Variable spec : BasicSeriesSpec.

(** [splitSeriesAccessors = []] by default. *)
Definition splitAccessorsOf : list strnum :=
  match spec_splitSeriesAccessors spec with
  | Some l => l
  | None => []
  end.

(** [y0Accessors && y0Accessors[index]]. *)
Definition y0AccessorAt (index : nat) : option strnum :=
  match spec_y0Accessors spec with
  | Some l => nth_error l index
  | None => None
  end.

(** The datum passes the guard of the loop of [splitSeries]: no split
    accessor is configured, or the datum has a value for one of them. *)
Definition takesDatum (datum : Datum) : bool :=
  negb (Nat.ltb 0 (List.length splitAccessorsOf)
        && Nat.ltb (List.length (getSplitAccessors NumberToString datum
                                                   splitAccessorsOf)) 1).

(** The body of the loop of [splitSeries] with its two branches written as
    one loop over [yAccessors]. *)
Definition splitStep (st : SplitState) (datum : Datum) : SplitState :=
  if takesDatum datum then
    reduce_from
      (fun st accessor index =>
         addCleanedDatum NumberToString StringToNumber (spec_id spec)
           (getSplitAccessors NumberToString datum splitAccessorsOf) accessor
           (cleanDatum NumberToString StringToNumber datum (spec_xAccessor spec)
                       accessor (y0AccessorAt index) (spec_markSizeAccessor spec))
           st)
      0 (spec_yAccessors spec) st
  else st.

(** [d] is the cleaned form of a datum of the spec under one of its y
    accessors, and that datum and accessor give the series key
    [seriesKey]. *)
Definition cleanedFrom (seriesKey : string) (d : RawDataSeriesDatum Datum) : Prop :=
  exists datum accessor index,
    In datum (spec_data spec)
    /\ takesDatum datum = true
    /\ nth_error (spec_yAccessors spec) index = Some accessor
    /\ cleanDatum NumberToString StringToNumber datum (spec_xAccessor spec)
                  accessor (y0AccessorAt index) (spec_markSizeAccessor spec)
       = Some d
    /\ getSeriesKey NumberToString StringToNumber (spec_id spec) accessor
                    (getSplitAccessors NumberToString datum splitAccessorsOf)
       = seriesKey.

(** What holds of every series that [splitSeries] builds for the spec. *)
Definition seriesOf (s : RawDataSeries Datum) : Prop :=
  specId (seriesIdentifier s) = spec_id spec
  /\ In (yAccessor (seriesIdentifier s)) (spec_yAccessors spec)
  /\ (exists datum,
         In datum (spec_data spec)
         /\ splitAccessors (seriesIdentifier s)
            = getSplitAccessors NumberToString datum splitAccessorsOf)
  /\ key (seriesIdentifier s)
     = getSeriesKey NumberToString StringToNumber (spec_id spec)
                    (yAccessor (seriesIdentifier s))
                    (splitAccessors (seriesIdentifier s))
  /\ seriesKeys (seriesIdentifier s)
     = JsMap.values (splitAccessors (seriesIdentifier s))
       ++ [yAccessor (seriesIdentifier s)]
  /\ data s <> []
  /\ forall d, In d (data s) -> cleanedFrom (key (seriesIdentifier s)) d.

(** The invariant of the loop of [splitSeries]. *)
Definition splitInv (st : SplitState) : Prop :=
  JsMap.wfb (st_series st) = true
  /\ (forall k s,
         In (k, s) (st_series st) ->
         k = key (seriesIdentifier s) /\ seriesOf s
         /\ forall d, In d (data s) -> JsSet.has (st_xValues st) (raw_x d) = true)
  /\ st_colorsValues st = JsMap.keys (st_series st)
  /\ JsSet.wfb (st_xValues st) = true
  /\ (forall xv,
         JsSet.has (st_xValues st) xv = true ->
         exists k s d,
           In (k, s) (st_series st) /\ In d (data s)
           /\ sameValueZero (raw_x d) xv = true).

(** The series map holds the cleaned datum [d] in the series of key
    [seriesKey]. *)
Definition holdsDatum (seriesKey : string) (d : RawDataSeriesDatum Datum)
           (st : SplitState) : Prop :=
  exists s, In (seriesKey, s) (st_series st) /\ In d (data s).

End SplitterFacts.

(* ================================================================== *)
(** ** Series index, raw series of a group, sorted collection ([series.ts]) *)

(** [arr.findIndex(p)]: the index of the first element that satisfies
    [p], and [-1] when there is none. *)
Fixpoint findIndex_from {A : Type} (p : A -> bool) (i : Z) (arr : list A) : Z :=
  match arr with
  | [] => (-1)%Z
  | a :: rest => if p a then i else findIndex_from p (i + 1)%Z rest
  end.

Definition array_findIndex {A : Type} (p : A -> bool) (arr : list A) : Z :=
  findIndex_from p 0%Z arr.

(** [series] is [None] when the caller passes no array ([!series]). *)
Definition getSeriesIndex (series : option (list SeriesIdentifier))
           (target : SeriesIdentifier) : Z :=
  match series with
  | None => (-1)%Z
  | Some series =>
      array_findIndex (fun s => String.eqb (sid_key target) (sid_key s)) series
  end.

(** Modelled from the spec: the series types ("seriesType (bar/line/area,
    for diagnostic counts only)") and the two fields of [YBasicSeriesSpec]
    that [getRawDataSeries] reads; [specs.ts] and [y_domain.ts] are not
    part of the sources at hand. *)
Inductive SeriesTypes : Type :=
| Area
| Bar
| Line.

Record YBasicSeriesSpec : Type := {
  yspec_id : string;
  yspec_seriesType : SeriesTypes
}.

(** The counters count series: they are natural numbers. *)
Record DataSeriesCounts : Type := {
  barSeries : nat;
  lineSeries : nat;
  areaSeries : nat
}.

Record RawDataSeriesOfGroup : Type := {
  group_rawDataSeries : list (RawDataSeries Datum);
  group_counts : DataSeriesCounts
}.

(** The body of the [for] loop of [getRawDataSeries]. *)
Definition addSpecSeries (dataSeries : list (string * list (RawDataSeries Datum)))
           (acc : RawDataSeriesOfGroup) (spec : YBasicSeriesSpec)
  : RawDataSeriesOfGroup :=
  let ds := JsMap.get dataSeries (yspec_id spec) in
  let added :=
    match ds with
    | Some ds => List.length ds
    | None => 0
    end in
  let counts := group_counts acc in
  let counts :=
    match yspec_seriesType spec with
    | Bar => {| barSeries := barSeries counts + added;
                lineSeries := lineSeries counts;
                areaSeries := areaSeries counts |}
    | Line => {| barSeries := barSeries counts;
                 lineSeries := lineSeries counts + added;
                 areaSeries := areaSeries counts |}
    | Area => {| barSeries := barSeries counts;
                 lineSeries := lineSeries counts;
                 areaSeries := areaSeries counts + added |}
    end in
  {| group_rawDataSeries :=
       match ds with
       | Some ds => group_rawDataSeries acc ++ ds
       | None => group_rawDataSeries acc
       end;
     group_counts := counts |}.

Definition getRawDataSeries (seriesSpecs : list YBasicSeriesSpec)
           (dataSeries : list (string * list (RawDataSeries Datum)))
  : RawDataSeriesOfGroup :=
  fold_left (addSpecSeries dataSeries) seriesSpecs
            {| group_rawDataSeries := [];
               group_counts :=
                 {| barSeries := 0; lineSeries := 0; areaSeries := 0 |} |}.

(** The number that an array length or a map size is. *)
Definition lengthNumber (n : nat) : float :=
  SF2Prim (binary_normalize prec emax (Z.of_nat n) 0 false).

Definition getSortIndex (v : SeriesCollectionValue) (total : float) : float :=
  match specSortIndex v with
  | Some sortIndex => sortIndex
  | None => total
  end.

(** The comparator of [getSortedDataSeriesColorsValuesMap]. *)
Definition compareSortIndex (total : float)
           (entryA entryB : string * SeriesCollectionValue) : float :=
  let '(_, specA) := entryA in
  let '(_, specB) := entryB in
  (getSortIndex specA total - getSortIndex specB total)%float.

(** [new Map(entries)]. *)
Definition map_of_entries {K V : Type} `{MapKey K} (entries : list (K * V))
  : list (K * V) :=
  fold_left (fun m '(k, v) => JsMap.set m k v) entries [].

Definition getSortedDataSeriesColorsValuesMap
           (seriesCollection : list (string * SeriesCollectionValue))
  : list (string * SeriesCollectionValue) :=
  let seriesColorsArray :=
    array_sort (compareSortIndex (lengthNumber (List.length seriesCollection)))
               seriesCollection in
  map_of_entries seriesColorsArray.

(** The series that the map of split series holds for a spec. *)
Definition seriesOfSpec (dataSeries : list (string * list (RawDataSeries Datum)))
           (spec : YBasicSeriesSpec) : list (RawDataSeries Datum) :=
  match JsMap.get dataSeries (yspec_id spec) with
  | Some ds => ds
  | None => []
  end.

Definition hasSeriesType (t : SeriesTypes) (spec : YBasicSeriesSpec) : bool :=
  match t, yspec_seriesType spec with
  | Area, Area | Bar, Bar | Line, Line => true
  | _, _ => false
  end.

(** A collection in which the series "B" and "C" have a sort index. *)
Definition sortedCollectionExample : list (string * SeriesCollectionValue) :=
  [("A"%string, exampleCollectionValue "A");
   ("B"%string, {| banded := None; specSortIndex := Some 1%float;
                   scv_seriesIdentifier := exampleIdentifier "B" |});
   ("C"%string, {| banded := None; specSortIndex := Some 0%float;
                   scv_seriesIdentifier := exampleIdentifier "C" |})].

Definition groupSpecsExample : list YBasicSeriesSpec :=
  [{| yspec_id := "bars"%string; yspec_seriesType := Bar |};
   {| yspec_id := "absent"%string; yspec_seriesType := Line |};
   {| yspec_id := "areas"%string; yspec_seriesType := Area |}].

Definition datumSeries (k : string) : RawDataSeries Datum :=
  {| seriesIdentifier := exampleIdentifier k; data := [] |}.

Definition groupSeriesExample : list (string * list (RawDataSeries Datum)) :=
  [("areas"%string, [datumSeries "a1"]);
   ("bars"%string, [datumSeries "b1"; datumSeries "b2"])].

(* ================================================================== *)
(** ** Series names ([series.ts]) *)

Definition SERIES_DELIMITER : string := " - "%string.

(** Modelled from the spec: the name of a spec ("name (string | function |
    structured-options)"), the structured options being an "ordered list
    of {accessor, value, name?, sortIndex?}" with a "configured
    delimiter"; [specs.ts] is not part of the sources at hand.  A field
    that is left out is [None]; the function answers a string, a number
    or [null]. *)
Record SeriesNameConfig : Type := {
  name_accessor : strnum;
  name_value : option strnum;
  name_name : option strnum;
  name_sortIndex : option float
}.

Record SeriesNameConfigOptions : Type := {
  names : option (list SeriesNameConfig);
  delimiter : option string
}.

Inductive SeriesName : Type :=
| NameString (name : string)
| NameFn (fn : XYChartSeriesIdentifier -> bool -> option strnum)
| NameOptions (options : SeriesNameConfigOptions).

(** [a === b] on [string | number] operands. *)
Definition strictEquals (a b : strnum) : bool :=
  match a, b with
  | SNum f, SNum g => (f =? g)%float
  | SStr s, SStr t => String.eqb s t
  | _, _ => false
  end.

(** [Boolean(d) || d === 0] on a label that is a string, a number, [null]
    or [undefined]. *)
Definition keepsLabel (d : option strnum) : bool :=
  match d with
  | None => false
  | Some (SStr s) => negb (String.eqb s "")
  | Some (SNum f) => negb (is_nan f)
  end.

(** The comparator [({ sortIndex: a = Infinity }, { sortIndex: b = Infinity })
    => a - b]. *)
Definition compareNameSortIndex (configA configB : SeriesNameConfig) : float :=
  let a := match name_sortIndex configA with Some i => i | None => infinity end in
  let b := match name_sortIndex configB with Some i => i | None => infinity end in
  (a - b)%float.

(** The callback of [map] in [getSeriesNameFromOptions]. *)
Definition nameOfConfig (yAccessor : strnum)
           (splitAccessors : list (strnum * strnum))
           (config : SeriesNameConfig) : option strnum :=
  let accessorValue := JsMap.get splitAccessors (name_accessor config) in
  let matchesValue :=
    match accessorValue, name_value config with
    | Some a, Some v => strictEquals a v
    | _, _ => false
    end in
  if matchesValue then
    match name_name config with
    | Some name => Some name
    | None => name_value config
    end
  else if strictEquals yAccessor (name_accessor config) then
    match name_name config with
    | Some name => Some name
    | None => Some (name_accessor config)
    end
  else None.

Section SeriesNames.
Variable NumberToString : float -> string.

(** [arr.join(delimiter)] on strings and numbers. *)
Definition join (delimiter : string) (arr : list strnum) : string :=
  String.concat delimiter (map (ToString NumberToString) arr).

(** The same on labels: [null] and [undefined] give the empty string. *)
Definition joinLabels (delimiter : string) (arr : list (option strnum)) : string :=
  String.concat delimiter
    (map (fun d => match d with
                   | Some v => ToString NumberToString v
                   | None => ""%string
                   end) arr).

Definition getSeriesNameFromOptions (options : SeriesNameConfigOptions)
           (seriesIdentifier : XYChartSeriesIdentifier) (delimiter : string)
  : option string :=
  match names options with
  | None => None
  | Some names =>
      let joined :=
        joinLabels delimiter
          (filter keepsLabel
             (map (nameOfConfig (yAccessor seriesIdentifier)
                                (splitAccessors seriesIdentifier))
                  (array_sort compareNameSortIndex names))) in
      if String.eqb joined "" then None else Some joined
  end.

(** [spec] is [None] when the caller passes no spec; otherwise it is the
    spec with its [name] field.  The keys of [seriesKeys] are strings and
    numbers, so that [nameKeys[0] == null] holds exactly when [nameKeys]
    is empty. *)
Definition getSeriesName (seriesIdentifier : XYChartSeriesIdentifier)
           (hasSingleSeries isTooltip : bool)
           (spec : option (BasicSeriesSpec * option SeriesName)) : string :=
  let '(customLabel, delimiter) :=
    match spec with
    | Some (_, Some (NameFn fn)) =>
        (option_map (ToString NumberToString) (fn seriesIdentifier isTooltip),
         SERIES_DELIMITER)
    | Some (_, Some (NameOptions options)) =>
        let delimiter :=
          match delimiter options with
          | Some d => d
          | None => SERIES_DELIMITER
          end in
        (getSeriesNameFromOptions options seriesIdentifier delimiter, delimiter)
    | _ => (None, SERIES_DELIMITER)
    end in
  match customLabel with
  | Some label => label
  | None =>
      let nameKeys :=
        match spec with
        | Some (spec, _) =>
            if Nat.ltb 1 (List.length (spec_yAccessors spec))
            then seriesKeys seriesIdentifier
            else removelast (seriesKeys seriesIdentifier)
        | None => removelast (seriesKeys seriesIdentifier)
        end in
      if hasSingleSeries || Nat.eqb (List.length nameKeys) 0 then
        match spec with
        | None => ""%string
        | Some (spec, name) =>
            if match spec_splitSeriesAccessors spec with
               | Some _ => true
               | None => false
               end
               && Nat.ltb 0 (List.length nameKeys)
            then join delimiter nameKeys
            else
              match name with
              | Some (NameString name) => name
              | _ => spec_id spec
              end
        end
      else join delimiter nameKeys
  end.

End SeriesNames.

(** Name options that label the split value "a" of the accessor "g". *)
Definition exampleNameOptions : SeriesNameConfigOptions :=
  {| names :=
       Some [{| name_accessor := SStr "y"%string; name_value := None;
                name_name := Some (SStr "count"%string);
                name_sortIndex := None |};
             {| name_accessor := SStr "g"%string;
                name_value := Some (SStr "a"%string);
                name_name := Some (SStr "group A"%string);
                name_sortIndex := Some 0%float |}];
     delimiter := Some "/"%string |}.

(** [typeof v === 'string']. *)
Definition isString (v : strnum) : bool :=
  match v with
  | SStr _ => true
  | SNum _ => false
  end.

(** Two series with category x values, on the universe "a", "b", "c". *)
Definition categoryDatum (xv : string) (y : float) : RawDataSeriesDatum unit :=
  {| raw_x := SStr xv; raw_y1 := Num y; raw_y0 := Null;
     raw_mark := PNull; raw_datum := Some tt |}.

Definition categorySeries : list (RawDataSeries unit) :=
  [{| seriesIdentifier := exampleIdentifier "A";
      data := [categoryDatum "b" 1; categoryDatum "a" 2] |};
   {| seriesIdentifier := exampleIdentifier "B";
      data := [categoryDatum "c" 3] |}].

Definition categoryXValues : list strnum :=
  [SStr "b"%string; SStr "a"%string; SStr "c"%string].

(** A group of one banded series whose only datum, at x = 1, has a [null]
    [y1] and the [y0] given. *)
Definition nullTotalDatum (y0 : float) : RawDataSeriesDatum unit :=
  {| raw_x := SNum 1%float; raw_y1 := Null; raw_y0 := Num y0;
     raw_mark := PNull; raw_datum := Some tt |}.

Definition nullTotalSeries (y0 : float) : RawDataSeries unit :=
  {| seriesIdentifier := exampleIdentifier "A"; data := [nullTotalDatum y0] |}.

(* ================================================================== *)
(** * Properties *)

Unset Implicit Arguments.
Local Close Scope string_scope.

(** ** Facts about binary64 comparison *)

Module FloatFacts.

Lemma SFeqb_finite (s s' : bool) (m m' : positive) (e e' : Z) :
  SFeqb (S754_finite s m e) (S754_finite s' m' e') = true
  <-> s = s' /\ m = m' /\ e = e'.
Proof.
  unfold SFeqb; simpl. fold (Pos.compare m m').
  destruct (Z.compare_spec e e') as [He|He|He],
           (Pos.compare_spec m m') as [Hm|Hm|Hm], s, s'; simpl;
    split; try discriminate; try (intros (? & ? & ?); subst; try lia; try discriminate);
    auto.
Qed.

Lemma SFeqb_true_iff (a b : spec_float) : SFeqb a b = true <-> sf_eq a b.
Proof.
  destruct a as [sa|sa| |sa ma ea], b as [sb|sb| |sb mb eb];
    try apply SFeqb_finite;
    unfold SFeqb; simpl;
    try (destruct sa); try (destruct sb); simpl;
    split; try discriminate; try contradiction; auto.
Qed.

Lemma sf_eq_sym a b : sf_eq a b -> sf_eq b a.
Proof. destruct a, b; simpl; intuition congruence. Qed.

Lemma sf_eq_trans a b c : sf_eq a b -> sf_eq b c -> sf_eq a c.
Proof. destruct a, b, c; simpl; intuition congruence. Qed.

Lemma eqb_true_iff (f g : float) :
  (f =? g)%float = true <-> sf_eq (Prim2SF f) (Prim2SF g).
Proof. rewrite FloatAxioms.eqb_spec. apply SFeqb_true_iff. Qed.

Lemma eqb_sym (f g : float) : (f =? g)%float = (g =? f)%float.
Proof.
  destruct (g =? f)%float eqn:E.
  - apply eqb_true_iff, sf_eq_sym, eqb_true_iff, E.
  - destruct (f =? g)%float eqn:E'; [|reflexivity].
    apply eqb_true_iff, sf_eq_sym, eqb_true_iff in E'. congruence.
Qed.

Lemma eqb_trans (f g h : float) :
  (f =? g)%float = true -> (g =? h)%float = true -> (f =? h)%float = true.
Proof.
  rewrite !eqb_true_iff. apply sf_eq_trans.
Qed.

Lemma is_nan_iff (f : float) : is_nan f = true <-> Prim2SF f = S754_nan.
Proof.
  unfold is_nan. rewrite negb_true_iff.
  split.
  - intros E. destruct (Prim2SF f) eqn:P; try reflexivity; exfalso;
      assert (X : (f =? f)%float = true)
        by (apply eqb_true_iff; rewrite P; simpl; auto);
      congruence.
  - intros P. destruct (f =? f)%float eqn:E; [|reflexivity].
    apply eqb_true_iff in E. rewrite P in E. destruct E.
Qed.

(** A float equal to another one is not [NaN]. *)
Lemma eqb_not_nan_l (f g : float) : (f =? g)%float = true -> is_nan f = false.
Proof.
  intros E. destruct (is_nan f) eqn:N; [|reflexivity].
  apply is_nan_iff in N. apply eqb_true_iff in E. rewrite N in E. destruct E.
Qed.

Lemma eqb_not_nan_r (f g : float) : (f =? g)%float = true -> is_nan g = false.
Proof. rewrite eqb_sym. apply eqb_not_nan_l. Qed.





End FloatFacts.

(** ** The laws of the key comparisons *)

Lemma sameValueZero_refl (k : strnum) : sameValueZero k k = true.
Proof.
  destruct k as [f|s]; simpl.
  - unfold is_nan. destruct (f =? f)%float; reflexivity.
  - apply String.eqb_refl.
Qed.

Lemma sameValueZero_sym (j k : strnum) : sameValueZero j k = sameValueZero k j.
Proof.
  destruct j as [f|s], k as [g|t]; simpl; try reflexivity.
  - rewrite (FloatFacts.eqb_sym f g), (andb_comm (is_nan f)). reflexivity.
  - apply String.eqb_sym.
Qed.

Lemma sameValueZero_trans (i j k : strnum) :
  sameValueZero i j = true -> sameValueZero j k = true -> sameValueZero i k = true.
Proof.
  destruct i as [f|s], j as [g|t], k as [h|u]; simpl; try discriminate.
  - rewrite !orb_true_iff, !andb_true_iff.
    intros [E1|[N1 N2]] [E2|[N3 N4]].
    + left. eapply FloatFacts.eqb_trans; eassumption.
    + apply FloatFacts.eqb_not_nan_r in E1. congruence.
    + apply FloatFacts.eqb_not_nan_l in E2. congruence.
    + right. auto.
  - rewrite !String.eqb_eq. congruence.
Qed.

Lemma canonKey_same (k : strnum) : sameValueZero (canonKey k) k = true.
Proof.
  destruct k as [f|s]; simpl.
  - destruct (f =? 0)%float eqn:E; simpl.
    + rewrite FloatFacts.eqb_sym, E. reflexivity.
    + unfold is_nan. destruct (f =? f)%float; reflexivity.
  - apply String.eqb_refl.
Qed.

#[export] Instance strnum_MapKeyLaws : MapKeyLaws strnum.
Proof.
  constructor.
  - exact sameValueZero_refl.
  - exact sameValueZero_sym.
  - exact sameValueZero_trans.
  - exact canonKey_same.
Qed.

#[export] Instance string_MapKeyLaws : MapKeyLaws string.
Proof.
  constructor; simpl.
  - exact String.eqb_refl.
  - exact String.eqb_sym.
  - intros i j k. rewrite !String.eqb_eq. congruence.
  - exact String.eqb_refl.
Qed.

(** ** Maps and sets in insertion order *)

Section MapFacts.
Context {K : Type} `{MapKeyLaws K}.

Lemma key_eqb_compat_r (i j k : K) :
  key_eqb j k = true -> key_eqb i j = key_eqb i k.
Proof.
  intros E. destruct (key_eqb i k) eqn:E1.
  - apply key_eqb_trans with (j := k); [assumption|]. rewrite key_eqb_sym. assumption.
  - destruct (key_eqb i j) eqn:E2; [|reflexivity].
    rewrite (key_eqb_trans _ _ _ E2 E) in E1. discriminate.
Qed.

Lemma key_eqb_compat_l (i j k : K) :
  key_eqb i j = true -> key_eqb i k = key_eqb j k.
Proof.
  intros E. rewrite (key_eqb_sym i k), (key_eqb_sym j k).
  apply key_eqb_compat_r. assumption.
Qed.

Section Maps.
Context {V : Type}.
Implicit Types (m : list (K * V)) (k : K) (v : V).

Lemma get_compat m j k : key_eqb j k = true -> JsMap.get m j = JsMap.get m k.
Proof.
  intros E. induction m as [|[i w] m IH]; simpl; [reflexivity|].
  rewrite (key_eqb_compat_r i _ _ E), IH. reflexivity.
Qed.

Lemma get_set_same m j k v :
  key_eqb j k = true -> JsMap.get (JsMap.set m j v) k = Some v.
Proof.
  intros E. induction m as [|[i w] m IH]; simpl.
  - rewrite (key_eqb_compat_l _ _ k (key_canon_eqb j)), E. reflexivity.
  - destruct (key_eqb i j) eqn:Eij; simpl.
    + rewrite (key_eqb_compat_l _ _ k Eij), E. reflexivity.
    + rewrite <- (key_eqb_compat_r i _ _ E), Eij. exact IH.
Qed.

Lemma get_set_other m j k v :
  key_eqb j k = false -> JsMap.get (JsMap.set m j v) k = JsMap.get m k.
Proof.
  intros E. induction m as [|[i w] m IH]; simpl.
  - rewrite (key_eqb_compat_l _ _ k (key_canon_eqb j)), E. reflexivity.
  - destruct (key_eqb i j) eqn:Eij; simpl.
    + rewrite (key_eqb_compat_l _ _ k Eij), E. reflexivity.
    + rewrite IH. reflexivity.
Qed.

Lemma has_set m j k v :
  JsMap.has (JsMap.set m j v) k = key_eqb j k || JsMap.has m k.
Proof.
  unfold JsMap.has. destruct (key_eqb j k) eqn:E.
  - rewrite get_set_same by assumption. reflexivity.
  - rewrite get_set_other by assumption. reflexivity.
Qed.

Lemma has_compat m j k : key_eqb j k = true -> JsMap.has m j = JsMap.has m k.
Proof. intros E. unfold JsMap.has. rewrite (get_compat m _ _ E). reflexivity. Qed.

Lemma wfb_set m j v : JsMap.wfb m = true -> JsMap.wfb (JsMap.set m j v) = true.
Proof.
  induction m as [|[i w] m IH]; simpl; [reflexivity|].
  rewrite andb_true_iff, negb_true_iff. intros [Hi Hm].
  destruct (key_eqb i j) eqn:Eij; simpl.
  - rewrite Hi, Hm. reflexivity.
  - rewrite has_set, (key_eqb_sym j i), Eij, Hi, (IH Hm). reflexivity.
Qed.

End Maps.

(** Rebuilding a map entry by entry, transforming the values. *)
Lemma get_fold_set {V W : Type} (f : V -> W) (m : list (K * V))
      (acc : list (K * W)) (k : K) :
  JsMap.wfb m = true ->
  JsMap.get (fold_left (fun acc '(j, v) => JsMap.set acc j (f v)) m acc) k
  = match JsMap.get m k with
    | Some v => Some (f v)
    | None => JsMap.get acc k
    end.
Proof.
  revert acc. induction m as [|[i w] m IH]; intros acc; simpl; [reflexivity|].
  rewrite andb_true_iff, negb_true_iff. intros [Hi Hm].
  rewrite (IH _ Hm).
  destruct (key_eqb i k) eqn:E.
  - unfold JsMap.has in Hi. rewrite <- (get_compat m _ _ E).
    destruct (JsMap.get m i) eqn:G; [discriminate|].
    apply get_set_same. assumption.
  - destruct (JsMap.get m k); [reflexivity|].
    apply get_set_other. assumption.
Qed.

Section Sets.
Implicit Types (s : list K) (k : K).

Lemma countKey_app k l l' :
  JsSet.countKey k (l ++ l') = JsSet.countKey k l + JsSet.countKey k l'.
Proof. unfold JsSet.countKey. rewrite filter_app, length_app. reflexivity. Qed.

Lemma countKey_compat j k l :
  key_eqb j k = true -> JsSet.countKey j l = JsSet.countKey k l.
Proof.
  intros E. unfold JsSet.countKey. f_equal. apply filter_ext.
  intros i. apply key_eqb_compat_r. assumption.
Qed.

Lemma has_false_countKey s k : JsSet.has s k = false -> JsSet.countKey k s = 0.
Proof.
  unfold JsSet.has, JsSet.countKey. induction s as [|j s IH]; simpl; [reflexivity|].
  rewrite orb_false_iff. intros [E Hs]. rewrite E. auto.
Qed.

Lemma set_has_compat s j k : key_eqb j k = true -> JsSet.has s j = JsSet.has s k.
Proof.
  intros E. unfold JsSet.has. induction s as [|i s IH]; simpl; [reflexivity|].
  rewrite IH, (key_eqb_compat_r i _ _ E). reflexivity.
Qed.

Lemma wfb_countKey s k :
  JsSet.wfb s = true -> JsSet.countKey k s = if JsSet.has s k then 1 else 0.
Proof.
  induction s as [|j s IH]; simpl; [reflexivity|].
  rewrite andb_true_iff, negb_true_iff. intros [Hj Hs].
  unfold JsSet.countKey. simpl. destruct (key_eqb j k) eqn:E; simpl.
  - rewrite (set_has_compat s _ _ E) in Hj.
    fold (JsSet.countKey k s). rewrite (has_false_countKey _ _ Hj). reflexivity.
  - fold (JsSet.countKey k s). fold (JsSet.has s k). apply IH. assumption.
Qed.

Lemma has_delete s j k :
  JsSet.has (JsSet.delete s j) k = negb (key_eqb j k) && JsSet.has s k.
Proof.
  unfold JsSet.has, JsSet.delete. induction s as [|i s IH]; simpl.
  - rewrite andb_false_r. reflexivity.
  - destruct (key_eqb i j) eqn:Eij; simpl.
    + rewrite IH. rewrite (key_eqb_compat_l _ _ k Eij).
      destruct (key_eqb j k); reflexivity.
    + rewrite IH. destruct (key_eqb i k) eqn:Eik; simpl.
      * rewrite <- (key_eqb_compat_r j _ _ Eik), key_eqb_sym, Eij. reflexivity.
      * reflexivity.
Qed.

Lemma countKey_delete s j k :
  JsSet.countKey k (JsSet.delete s j)
  = if key_eqb j k then 0 else JsSet.countKey k s.
Proof.
  unfold JsSet.countKey, JsSet.delete. induction s as [|i s IH]; simpl.
  - destruct (key_eqb j k); reflexivity.
  - destruct (key_eqb i j) eqn:Eij; simpl.
    + rewrite IH. rewrite (key_eqb_compat_l _ _ k Eij).
      destruct (key_eqb j k); reflexivity.
    + destruct (key_eqb i k) eqn:Eik; simpl; rewrite IH.
      * rewrite <- (key_eqb_compat_r j _ _ Eik), key_eqb_sym, Eij. reflexivity.
      * reflexivity.
Qed.

Lemma wfb_delete s j : JsSet.wfb s = true -> JsSet.wfb (JsSet.delete s j) = true.
Proof.
  induction s as [|i s IH]; simpl; [reflexivity|].
  rewrite andb_true_iff, negb_true_iff. intros [Hi Hs].
  fold (JsSet.delete s j).
  destruct (key_eqb i j); simpl; [auto|].
  rewrite has_delete, Hi, andb_false_r. simpl. auto.
Qed.
End Sets.
End MapFacts.

(* ================================================================== *)
(** ** The stacking engine *)

(** Once seeded, the reduction appends the cumulative sequence and adds
    every contribution to the total. *)
Lemma reduce_from_seeded (scaleToExtent : bool) (rest : list value) :
  forall (i : nat) (vs : list value) (previous tot : value),
    List.length vs = i ->
    reduce_from (stackReducer scaleToExtent) i rest
      {| acc_values := vs ++ [previous]; acc_total := tot |}
    = {| acc_values := vs ++ [previous] ++ cumulative previous rest;
         acc_total := fold_left (fun t v => Num (add t v)) rest tot |}.
Proof.
  induction rest as [|v rest IH]; intros i vs previous tot Hlen; simpl.
  - reflexivity.
  - unfold stackReducer at 2. simpl acc_values. simpl acc_total.
    rewrite length_app. simpl List.length.
    replace (Nat.eqb (List.length vs + 1) 0) with false
      by (symmetry; apply Nat.eqb_neq; lia).
    unfold array_get. rewrite app_nth2 by lia.
    rewrite Hlen, Nat.sub_diag. simpl nth.
    rewrite (IH (S i) (vs ++ [previous])) by (rewrite length_app; simpl; lia).
    rewrite <- !app_assoc. reflexivity.
Qed.

Lemma computeStackedValues_seeded (scaleToExtent : bool) (v0 : value)
      (rest : list value) :
  array_reduce (stackReducer scaleToExtent) (v0 :: rest)
               {| acc_values := []; acc_total := Num 0%float |}
  = {| acc_values :=
         (if scaleToExtent then v0 else Num 0%float) :: v0 :: cumulative v0 rest;
       acc_total := fold_left (fun t v => Num (add t v)) rest v0 |}.
Proof.
  unfold array_reduce. simpl reduce_from.
  destruct scaleToExtent; unfold stackReducer at 2; simpl.
  - apply (reduce_from_seeded true rest 1 [v0] v0 v0 eq_refl).
  - apply (reduce_from_seeded false rest 1 [Num 0%float] v0 v0 eq_refl).
Qed.

Lemma computeStackedValues_values (scaleToExtent : bool) (v0 : value)
      (rest : list value) :
  values (computeStackedValues scaleToExtent (v0 :: rest))
  = (if scaleToExtent then v0 else Num 0%float) :: v0 :: cumulative v0 rest.
Proof.
  unfold computeStackedValues. rewrite computeStackedValues_seeded. reflexivity.
Qed.

Lemma computeStackedValues_total (scaleToExtent : bool) (v0 : value)
      (rest : list value) :
  total (computeStackedValues scaleToExtent (v0 :: rest))
  = fold_left (fun t v => Num (add t v)) rest v0.
Proof.
  unfold computeStackedValues. rewrite computeStackedValues_seeded. reflexivity.
Qed.

Lemma computeStackedValues_percent (scaleToExtent : bool) (stack : list value) :
  percent (computeStackedValues scaleToExtent stack)
  = map (fun value =>
           if strictEqZero (total (computeStackedValues scaleToExtent stack))
           then Num 0%float
           else Num (div value (total (computeStackedValues scaleToExtent stack))))
        (values (computeStackedValues scaleToExtent stack)).
Proof. reflexivity. Qed.

Lemma ToNumber_fold_add (rest : list value) (tot : value) :
  ToNumber (fold_left (fun t v => Num (add t v)) rest tot)
  = fold_left (fun s v => (s + ToNumber v)%float) rest (ToNumber tot).
Proof.
  revert tot. induction rest as [|v rest IH]; intros tot; simpl; [reflexivity|].
  rewrite IH. reflexivity.
Qed.

(** The last cumulative value is the recorded total. *)
Lemma last_cumulative (rest : list value) (previous : value) :
  last (previous :: cumulative previous rest) Undefined
  = fold_left (fun t v => Num (add t v)) rest previous.
Proof.
  revert previous. induction rest as [|v rest IH]; intros previous; [reflexivity|].
  simpl cumulative. simpl fold_left. rewrite <- IH. reflexivity.
Qed.

(** [computeYStackedMapValues] transforms the stack array of every x value
    and keeps the keys. *)
Lemma computeYStackedMapValues_get (m : list (strnum * list value))
      (scaleToExtent : bool) (xv : strnum) :
  JsMap.wfb m = true ->
  JsMap.get (computeYStackedMapValues m scaleToExtent) xv
  = option_map (computeStackedValues scaleToExtent) (JsMap.get m xv).
Proof.
  intros Hwf. unfold computeYStackedMapValues.
  rewrite (get_fold_set (computeStackedValues scaleToExtent) m [] xv Hwf).
  destruct (JsMap.get m xv); reflexivity.
Qed.

Lemma computeYStackedMapValues_get_inv (m : list (strnum * list value))
      (scaleToExtent : bool) (xv : strnum) (stacked : StackedValues) :
  JsMap.wfb m = true ->
  JsMap.get (computeYStackedMapValues m scaleToExtent) xv = Some stacked ->
  exists stack,
    JsMap.get m xv = Some stack
    /\ stacked = computeStackedValues scaleToExtent stack.
Proof.
  intros Hwf. rewrite computeYStackedMapValues_get by assumption.
  destruct (JsMap.get m xv) as [stack|]; [|discriminate].
  simpl. intros [= <-]. exists stack. auto.
Qed.

Lemma computeStackedValues_percent_zero (scaleToExtent : bool) (stack : list value) :
  strictEqZero (total (computeStackedValues scaleToExtent stack)) = true ->
  forall p, In p (percent (computeStackedValues scaleToExtent stack)) ->
            p = Num 0%float.
Proof.
  intros Hz p. rewrite computeStackedValues_percent, Hz.
  rewrite in_map_iff. intros (v & <- & _). reflexivity.
Qed.

(** C6: for a non-empty stack array [v0, v1, ..., vn] recorded at an x
    value, [computeYStackedMapValues] produces the values
    [0, v0, v0+v1, ...] when [scaleToExtent] is false and
    [v0, v0, v0+v1, ...] when it is true: the first series seeds the
    sequence and every later one appends the previous cumulative value
    plus its own contribution. *)
Theorem computeYStackedMapValues_cumulative
        (yValueStackMap : list (strnum * list value)) (scaleToExtent : bool)
        (xValue : strnum) (v0 : value) (rest : list value) :
  JsMap.wfb yValueStackMap = true ->
  JsMap.get yValueStackMap xValue = Some (v0 :: rest) ->
  exists stacked,
    JsMap.get (computeYStackedMapValues yValueStackMap scaleToExtent) xValue
    = Some stacked
    /\ values stacked
       = (if scaleToExtent then v0 else Num 0%float) :: v0 :: cumulative v0 rest.
Proof.
  intros Hwf Hget.
  exists (computeStackedValues scaleToExtent (v0 :: rest)). split.
  - rewrite computeYStackedMapValues_get by assumption. rewrite Hget. reflexivity.
  - apply computeStackedValues_values.
Qed.

Lemma computeYStackedMapValues_cumulative_witness :
  exists stacked,
    JsMap.get (computeYStackedMapValues exampleStackMap false) (SNum 1%float)
    = Some stacked
    /\ values stacked = [Num 0%float; Num 10%float; Num 15%float].
Proof.
  apply (computeYStackedMapValues_cumulative
           exampleStackMap false (SNum 1%float) (Num 10%float) [Num 5%float]);
    reflexivity.
Defined.

(** C5: for every x value of the map produced by
    [computeYStackedMapValues], the recorded total is, as a number, the
    sum of the contributions of all the series at that x, added from left
    to right, a [null] contribution counting as 0 (an absent one is a 0
    of the stack array). *)
Theorem computeYStackedMapValues_total_is_sum
        (yValueStackMap : list (strnum * list value)) (scaleToExtent : bool)
        (xValue : strnum) (stacked : StackedValues) :
  JsMap.wfb yValueStackMap = true ->
  JsMap.get (computeYStackedMapValues yValueStackMap scaleToExtent) xValue
  = Some stacked ->
  exists stack,
    JsMap.get yValueStackMap xValue = Some stack
    /\ ToNumber (total stacked) = sumContributions stack.
Proof.
  intros Hwf Hget.
  destruct (computeYStackedMapValues_get_inv _ _ _ _ Hwf Hget) as (stack & Hs & ->).
  exists stack. split; [assumption|].
  destruct stack as [|v0 rest]; [reflexivity|].
  rewrite computeStackedValues_total. apply ToNumber_fold_add.
Qed.

Lemma computeYStackedMapValues_total_is_sum_witness :
  exists stack,
    JsMap.get exampleStackMap (SNum 1%float) = Some stack
    /\ ToNumber (total (computeStackedValues true [Num 10%float; Num 5%float]))
       = sumContributions stack.
Proof.
  apply (computeYStackedMapValues_total_is_sum exampleStackMap true (SNum 1%float));
    reflexivity.
Defined.






(** A group of one series whose contribution at some x is [null]: the
    recorded total is [null], which is 0 as a number but not [=== 0], so
    the guard of the division does not apply and both entries of
    [percent] are [NaN]. *)
Example computeStackedValues_null_total :
  let stacked := computeStackedValues false [Null] in
  values stacked = [Num 0%float; Null]
  /\ total stacked = Null
  /\ ToNumber (total stacked) = 0%float
  /\ strictEqZero (total stacked) = false
  /\ map isNaNValue (percent stacked) = [true; true].
Proof. vm_compute. repeat split; reflexivity. Qed.

(** ** Formatting one datum *)

Lemma array_get_all_zero (l : list value) (i : nat) :
  (forall p, In p l -> p = Num 0%float) ->
  array_get l i = Num 0%float \/ array_get l i = Undefined.
Proof.
  intros Hall. unfold array_get.
  destruct (nth_in_or_default i l Undefined) as [Hin|Hd]; auto.
Qed.

(** Where the guards apply: in percentage mode, at an x value whose
    recorded total is [=== 0], every entry of [percent] computed by
    [computeYStackedMapValues] is 0, and [getStackedFormattedSeriesDatum]
    turns a [y1] (and a [y0], when present) into 0 instead of dividing by
    the total; none of the [y1], [y0], [initialY1], [initialY0] it returns
    is [NaN]. *)
Theorem percentage_zero_total_gives_zero
        {T : Type} (yValueStackMap : list (strnum * list value))
        (stackScaleToExtent scaleToExtent : bool)
        (data : RawDataSeriesDatum T) (seriesIndex : nat)
        (filled : option FilledValues)
        (stacked : StackedValues) (out : DataSeriesDatum T) :
  JsMap.wfb yValueStackMap = true ->
  JsMap.get (computeYStackedMapValues yValueStackMap stackScaleToExtent) (raw_x data)
  = Some stacked ->
  strictEqZero (total stacked) = true ->
  getStackedFormattedSeriesDatum
    data (computeYStackedMapValues yValueStackMap stackScaleToExtent)
    seriesIndex scaleToExtent true filled = Some out ->
  (forall p, In p (percent stacked) -> p = Num 0%float)
  /\ (notNullish (raw_y1 data) = true -> initialY1 out = Num 0%float)
  /\ (notNullish (raw_y0 data) = true -> initialY0 out = Num 0%float)
  /\ isNaNValue (y1 out) = false /\ isNaNValue (y0 out) = false
  /\ isNaNValue (initialY1 out) = false /\ isNaNValue (initialY0 out) = false.
Proof.
  intros Hwf Hget Hz Hout.
  assert (Hall : forall p, In p (percent stacked) -> p = Num 0%float).
  { destruct (computeYStackedMapValues_get_inv _ _ _ _ Hwf Hget)
      as (stack & _ & ->).
    apply computeStackedValues_percent_zero. assumption. }
  split; [exact Hall|].
  unfold getStackedFormattedSeriesDatum in Hout. rewrite Hget, Hz in Hout.
  simpl negb in Hout. cbv iota in Hout.
  destruct (array_get_all_zero (percent stacked) seriesIndex Hall) as [Hs|Hs];
    rewrite Hs in Hout;
    destruct (raw_y1 data) as [| |a], (raw_y0 data) as [| |b],
             (Nat.eqb seriesIndex 0), scaleToExtent;
    injection Hout as <-; simpl; repeat split; intros; try discriminate;
    reflexivity.
Qed.

Lemma percentage_zero_total_gives_zero_witness :
  let out : DataSeriesDatum unit :=
    {| x := SNum 1%float; y1 := Num 0%float; y0 := Num 0%float;
       initialY1 := Num 0%float; initialY0 := Num 0%float;
       mark := PNull; datum := None; filled := None |} in
  (forall p,
      In p (percent (computeStackedValues false [Num 4%float; Num (-4)%float])) ->
      p = Num 0%float)
  /\ (notNullish (raw_y1 zeroTotalDatum) = true -> initialY1 out = Num 0%float)
  /\ (notNullish (raw_y0 zeroTotalDatum) = true -> initialY0 out = Num 0%float)
  /\ isNaNValue (y1 out) = false /\ isNaNValue (y0 out) = false
  /\ isNaNValue (initialY1 out) = false /\ isNaNValue (initialY0 out) = false.
Proof.
  apply (percentage_zero_total_gives_zero
           zeroTotalStackMap false false zeroTotalDatum 1 None);
    reflexivity.
Defined.

(** C7, where the code departs from it: a group of one series whose
    contribution at x = 1 is [null] has the total [null] there, which is
    0 as a number and is not [=== 0].  The guards [total === 0] and
    [total !== 0] do not apply: both entries of [percent] are [NaN], and
    in percentage mode the [y0] of the datum is divided by the total, so
    that the [y0] 0 comes back as the [initialY0] [NaN] and the [y0] 5 as
    [Infinity]; the formatted series holds the [NaN]. *)
Theorem percentage_null_total_divides_by_zero :
  let stackMap := getYValueStackMap [nullTotalSeries 0] [SNum 1%float] in
  let stackedValues := computeYStackedMapValues stackMap false in
  stackMap = [(SNum 1%float, [Null])]
  /\ getYValueStackMap [nullTotalSeries 5] [SNum 1%float] = stackMap
  /\ option_map total (JsMap.get stackedValues (SNum 1%float)) = Some Null
  /\ ToNumber Null = 0%float
  /\ strictEqZero Null = false
  /\ option_map (fun stacked => map isNaNValue (percent stacked))
                (JsMap.get stackedValues (SNum 1%float))
     = Some [true; true]
  /\ option_map (fun out => (y1 out, y0 out, isNaNValue (initialY0 out)))
                (getStackedFormattedSeriesDatum (nullTotalDatum 0) stackedValues
                                                0 false true None)
     = Some (Null, Null, true)
  /\ option_map (fun out => (y1 out, y0 out, initialY0 out))
                (getStackedFormattedSeriesDatum (nullTotalDatum 5) stackedValues
                                                0 false true None)
     = Some (Null, Num infinity, Num infinity)
  /\ map (fun out => map (fun d => isNaNValue (initialY0 d)) (data out))
         (formatStackedDataSeriesValues [nullTotalSeries 0] false true
                                        [SNum 1%float] Continuous)
     = [[true]].
Proof. vm_compute. repeat split; reflexivity. Qed.

(** C1, where the code departs from it: in percentage mode the datum of
    the second series with a [null] [y1] is returned with [y1 = null] and
    [y0 = 1], the cumulated fraction of the series below it. *)
Theorem null_y1_percentage_mode_keeps_y0 :
  let stackedValues := computeYStackedMapValues nullY1StackMap false in
  raw_y1 nullY1Datum = Null
  /\ option_map (@y1 unit)
       (getStackedFormattedSeriesDatum nullY1Datum stackedValues 1 false true None)
     = Some Null
  /\ option_map (@y0 unit)
       (getStackedFormattedSeriesDatum nullY1Datum stackedValues 1 false true None)
     = Some (Num 1%float).
Proof. vm_compute. repeat split; reflexivity. Qed.

(** The first series is returned with the [y0] it came with, also when
    its [y1] is [null]. *)
Lemma null_y1_first_series_keeps_y0 :
  let stackedValues := computeYStackedMapValues nullY1StackMap false in
  raw_y1 nullY1BandedDatum = Null
  /\ option_map (@y0 unit)
       (getStackedFormattedSeriesDatum nullY1BandedDatum stackedValues 0 false false None)
     = Some (Num 5%float).
Proof. vm_compute. repeat split; reflexivity. Qed.

(** Outside percentage mode every series but the first gets a [null]
    [y0] whenever its [y1] is [null]. *)
Lemma null_y1_gives_null_y0_when_stacked
      {T : Type} (data : RawDataSeriesDatum T)
      (stackedValues : list (strnum * StackedValues)) (seriesIndex : nat)
      (scaleToExtent : bool) (filled : option FilledValues)
      (out : DataSeriesDatum T) :
  raw_y1 data = Null ->
  seriesIndex <> 0 ->
  getStackedFormattedSeriesDatum data stackedValues seriesIndex scaleToExtent
                                 false filled = Some out ->
  y1 out = Null /\ y0 out = Null.
Proof.
  intros Hnull Hidx. unfold getStackedFormattedSeriesDatum.
  destruct (JsMap.get stackedValues (raw_x data)) as [stack|]; [|discriminate].
  apply Nat.eqb_neq in Hidx. rewrite Hidx, Hnull. simpl.
  destruct (notNullish (array_get (values stack) seriesIndex));
    simpl; intros [= <-]; simpl; auto.
Qed.

Lemma null_y1_gives_null_y0_when_stacked_witness :
  let out : DataSeriesDatum unit :=
    {| x := SNum 1%float; y1 := Null; y0 := Null;
       initialY1 := Null; initialY0 := Null;
       mark := PNull; datum := None; filled := None |} in
  y1 out = Null /\ y0 out = Null.
Proof.
  apply (null_y1_gives_null_y0_when_stacked
           nullY1Datum (computeYStackedMapValues nullY1StackMap false)
           1 false None);
    [reflexivity | discriminate | reflexivity].
Defined.




(* ================================================================== *)
(** ** Sorting keeps the elements *)

Section SortFacts.
Context {A : Type} (cmp : A -> A -> float).

Lemma sort_insert_perm (a : A) (sorted : list A) :
  Permutation (sort_insert cmp a sorted) (a :: sorted).
Proof.
  induction sorted as [|b rest IH]; simpl.
  - apply Permutation_refl.
  - destruct (cmp a b <? 0)%float.
    + apply Permutation_refl.
    + eapply Permutation_trans; [apply perm_skip, IH | apply perm_swap].
Qed.

Lemma sort_fold_perm (l sorted : list A) :
  Permutation (fold_left (fun sorted a => sort_insert cmp a sorted) l sorted)
              (sorted ++ l).
Proof.
  revert sorted. induction l as [|a l IH]; intros sorted; simpl.
  - rewrite app_nil_r. apply Permutation_refl.
  - eapply Permutation_trans; [apply IH|].
    eapply Permutation_trans;
      [apply Permutation_app_tail, sort_insert_perm|].
    simpl. apply Permutation_middle.
Qed.

Lemma array_sort_perm (l : list A) : Permutation (array_sort cmp l) l.
Proof. apply (sort_fold_perm l []). Qed.
End SortFacts.

Lemma filter_length_perm {A : Type} (f : A -> bool) (l l' : list A) :
  Permutation l l' -> List.length (filter f l) = List.length (filter f l').
Proof.
  induction 1 as [|a l l' Hp IH|a b l|l l' l'' H1 IH1 H2 IH2]; simpl.
  - reflexivity.
  - destruct (f a); simpl; congruence.
  - destruct (f a), (f b); reflexivity.
  - congruence.
Qed.

Lemma mapi_from_in {A B : Type} (f : A -> nat -> B) (l : list A) (i : nat) (b : B) :
  In b (mapi_from f i l) -> exists a j, In a l /\ b = f a j.
Proof.
  revert i. induction l as [|a l IH]; intros i; simpl; [contradiction|].
  intros [<-|Hin].
  - exists a, i. auto.
  - destruct (IH _ Hin) as (a' & j & Ha & ->). exists a', j. auto.
Qed.

(* ================================================================== *)
(** ** Gap filling *)

Section GapFill.
Context {T : Type}.
Implicit Types (stackMap : list (strnum * list value))
         (missing xValues : list strnum).

(** *** Every x value of the universe gets a stack array *)

Lemma has_setStackValue n index stackMap xv v k :
  JsMap.has (setStackValue n index stackMap xv v) k
  = key_eqb xv k || JsMap.has stackMap k.
Proof. unfold setStackValue. apply (has_set (K := strnum)). Qed.

Lemma wfb_setStackValue n index stackMap xv v :
  JsMap.wfb stackMap = true ->
  JsMap.wfb (setStackValue n index stackMap xv v) = true.
Proof. unfold setStackValue. apply (wfb_set (K := strnum)). Qed.

Lemma stackDatum_covered n index xValues st (d : RawDataSeriesDatum T) :
  covered xValues st -> covered xValues (stackDatum n index xValues st d).
Proof.
  destruct st as [stackMap missing]. unfold covered, stackDatum. simpl.
  intros Hc k Hk. rewrite has_setStackValue.
  destruct (key_eqb (raw_x d) k) eqn:E; [right; reflexivity|].
  simpl. destruct (Hc k Hk) as [Hm|Hs]; [|right; assumption].
  left. destruct (JsSet.has xValues (raw_x d)); [|assumption].
  rewrite (has_delete (K := strnum)), E. assumption.
Qed.

Lemma stackDatum_mono n index xValues st (d : RawDataSeriesDatum T) k :
  JsMap.has (fst st) k = true ->
  JsMap.has (fst (stackDatum n index xValues st d)) k = true.
Proof.
  destruct st as [stackMap missing]. simpl. intros Hk.
  rewrite has_setStackValue, Hk. apply orb_true_r.
Qed.

Lemma stackDatum_wfb n index xValues st (d : RawDataSeriesDatum T) :
  JsMap.wfb (fst st) = true ->
  JsMap.wfb (fst (stackDatum n index xValues st d)) = true.
Proof. destruct st as [stackMap missing]. simpl. apply wfb_setStackValue. Qed.

Lemma fold_stackDatum n index xValues (l : list (RawDataSeriesDatum T)) st :
  let st' := fold_left (stackDatum n index xValues) l st in
  (covered xValues st -> covered xValues st')
  /\ (forall k, JsMap.has (fst st) k = true -> JsMap.has (fst st') k = true)
  /\ (JsMap.wfb (fst st) = true -> JsMap.wfb (fst st') = true).
Proof.
  revert st. induction l as [|d l IH]; intros st; simpl; [auto|].
  destruct (IH (stackDatum n index xValues st d)) as (Hc & Hm & Hw).
  repeat split.
  - intros H. apply Hc, stackDatum_covered, H.
  - intros k H. apply Hm, stackDatum_mono, H.
  - intros H. apply Hw, stackDatum_wfb, H.
Qed.

Lemma fillMissing_spec n index missing stackMap :
  (forall k, JsMap.has (fillMissing n index stackMap missing) k
             = JsSet.has missing k || JsMap.has stackMap k)
  /\ (JsMap.wfb stackMap = true ->
      JsMap.wfb (fillMissing n index stackMap missing) = true).
Proof.
  unfold fillMissing. revert stackMap.
  induction missing as [|xv missing IH]; intros stackMap; cbn [fold_left].
  - auto.
  - destruct (IH (setStackValue n index stackMap xv (Num 0%float))) as (Hh & Hw).
    split.
    + intros k. rewrite Hh, has_setStackValue.
      change (JsSet.has (xv :: missing) k)
        with (key_eqb xv k || JsSet.has missing k).
      rewrite orb_assoc, (orb_comm (JsSet.has missing k)). reflexivity.
    + intros H. apply Hw, wfb_setStackValue, H.
Qed.

Lemma stackSeries_spec n xValues st (ds : RawDataSeries T) index :
  let st' := stackSeries n xValues st ds index in
  (covered xValues st -> full xValues (fst st'))
  /\ (forall k, JsMap.has (fst st) k = true -> JsMap.has (fst st') k = true)
  /\ (JsMap.wfb (fst st) = true -> JsMap.wfb (fst st') = true).
Proof.
  unfold stackSeries.
  destruct (fold_stackDatum n index xValues (data ds) st) as (Hc & Hm & Hw).
  destruct (fold_left (stackDatum n index xValues) (data ds) st)
    as [stackMap missing].
  destruct (fillMissing_spec n index missing stackMap) as (Hh & Hw').
  simpl in *. repeat split.
  - intros H k Hk. rewrite Hh.
    destruct (Hc H k Hk) as [E | E]; simpl in E; rewrite E;
      [reflexivity | apply orb_true_r].
  - intros k Hk. rewrite Hh, (Hm k Hk). apply orb_true_r.
  - intros H. apply Hw', Hw, H.
Qed.

Lemma full_covered xValues st : full xValues (fst st) -> covered xValues st.
Proof. intros H k Hk. right. apply H, Hk. Qed.

Lemma reduce_stackSeries n xValues (l : list (RawDataSeries T)) i st :
  let st' := reduce_from (stackSeries n xValues) i l st in
  (l <> [] -> covered xValues st -> full xValues (fst st'))
  /\ (full xValues (fst st) -> full xValues (fst st'))
  /\ (JsMap.wfb (fst st) = true -> JsMap.wfb (fst st') = true).
Proof.
  revert i st. induction l as [|ds l IH]; intros i st; simpl.
  - repeat split; auto. intros H. contradiction H. reflexivity.
  - destruct (IH (S i) (stackSeries n xValues st ds i)) as (_ & Hf & Hw).
    destruct (stackSeries_spec n xValues st ds i) as (Hc1 & Hm1 & Hw1).
    repeat split.
    + intros _ Hc. apply Hf, Hc1, Hc.
    + intros H. apply Hf, Hc1, full_covered, H.
    + intros H. apply Hw, Hw1, H.
Qed.

Lemma getYValueStackMap_full (dataseries : list (RawDataSeries T)) xValues :
  dataseries <> [] -> full xValues (getYValueStackMap dataseries xValues).
Proof.
  intros Hne. unfold getYValueStackMap, array_reduce.
  destruct (reduce_stackSeries (List.length dataseries) xValues dataseries 0
                               ([], xValues)) as (Hc & _ & _).
  apply Hc; [assumption|]. intros k Hk. left. assumption.
Qed.

Lemma getYValueStackMap_wfb (dataseries : list (RawDataSeries T)) xValues :
  JsMap.wfb (getYValueStackMap dataseries xValues) = true.
Proof.
  unfold getYValueStackMap, array_reduce.
  destruct (reduce_stackSeries (List.length dataseries) xValues dataseries 0
                               ([], xValues)) as (_ & _ & Hw).
  apply Hw. reflexivity.
Qed.
End GapFill.

Section Completeness.
Context {T : Type}.
Implicit Types (stackedValues : list (strnum * StackedValues))
         (missing xValues : list strnum).

Lemma countAtX_countKey (xv : strnum) (l : list (DataSeriesDatum T)) :
  countAtX xv l = JsSet.countKey xv (map (@x T) l).
Proof.
  unfold countAtX, JsSet.countKey. induction l as [|d l IH]; simpl; [reflexivity|].
  destruct (sameValueZero (x d) xv); simpl; rewrite IH; reflexivity.
Qed.

(** A datum whose x value has stacked values is formatted, at its x. *)
Lemma getStackedFormattedSeriesDatum_some
      (d : RawDataSeriesDatum T) stackedValues seriesIndex
      (scaleToExtent isPercentageMode : bool) (fld : option FilledValues) :
  JsMap.has stackedValues (raw_x d) = true ->
  exists out,
    getStackedFormattedSeriesDatum d stackedValues seriesIndex scaleToExtent
                                   isPercentageMode fld = Some out
    /\ x out = raw_x d.
Proof.
  unfold JsMap.has, getStackedFormattedSeriesDatum.
  destruct (JsMap.get stackedValues (raw_x d)) as [stack|]; [|discriminate].
  intros _. destruct (Nat.eqb seriesIndex 0); eexists; split; reflexivity.
Qed.

Lemma fold_formatDatum stackedValues seriesIndex
      (scaleToExtent isPercentageMode : bool)
      (l : list (RawDataSeriesDatum T)) :
  (forall d, In d l -> JsMap.has stackedValues (raw_x d) = true) ->
  forall newData missing,
  exists outs,
    fold_left (formatDatum stackedValues seriesIndex scaleToExtent isPercentageMode)
              l (newData, missing)
    = (newData ++ outs,
       fold_left (fun s d => JsSet.delete s (raw_x d)) l missing)
    /\ map (@x T) outs = map (@raw_x T) l.
Proof.
  induction l as [|d l IH]; intros Hall newData missing; simpl.
  - exists []. rewrite app_nil_r. auto.
  - destruct (getStackedFormattedSeriesDatum_some
                d stackedValues seriesIndex scaleToExtent isPercentageMode None
                (Hall d (or_introl eq_refl))) as (out & Hout & Hx).
    rewrite Hout.
    destruct (IH (fun d' H => Hall d' (or_intror H))
                 (newData ++ [out]) (JsSet.delete missing (raw_x d)))
      as (outs & Hf & Hm).
    exists (out :: outs). rewrite Hf, <- app_assoc. simpl.
    rewrite Hx, Hm. auto.
Qed.

Lemma fold_formatFilled stackedValues seriesIndex
      (scaleToExtent isPercentageMode : bool) missing :
  (forall k, In k missing -> JsMap.has stackedValues k = true) ->
  forall newData,
  exists outs,
    fold_left (formatFilled stackedValues seriesIndex scaleToExtent isPercentageMode)
              missing newData
    = newData ++ outs
    /\ map (@x T) outs = missing.
Proof.
  induction missing as [|k missing IH]; intros Hall newData; simpl.
  - exists []. rewrite app_nil_r. auto.
  - unfold formatFilled at 2.
    destruct (getStackedFormattedSeriesDatum_some
                (filledDatum k) stackedValues seriesIndex scaleToExtent
                isPercentageMode (Some (filledMarker k))
                (Hall k (or_introl eq_refl))) as (out & Hout & Hx).
    rewrite Hout.
    destruct (IH (fun k' H => Hall k' (or_intror H)) (newData ++ [out]))
      as (outs & Hf & Hm).
    exists (out :: outs). rewrite Hf, <- app_assoc. simpl.
    rewrite Hx, Hm. auto.
Qed.

Lemma countKey_fold_delete (k : strnum) (l : list (RawDataSeriesDatum T)) missing :
  JsSet.countKey k (fold_left (fun s d => JsSet.delete s (raw_x d)) l missing)
  = if JsSet.has (map (@raw_x T) l) k then 0 else JsSet.countKey k missing.
Proof.
  revert missing. induction l as [|d l IH]; intros missing;
    cbn [fold_left map]; [reflexivity|].
  rewrite IH, (countKey_delete (K := strnum)).
  change (JsSet.has (raw_x d :: map (@raw_x T) l) k)
    with (key_eqb (raw_x d) k || JsSet.has (map (@raw_x T) l) k).
  destruct (JsSet.has (map (@raw_x T) l) k).
  - rewrite orb_true_r. reflexivity.
  - rewrite orb_false_r. reflexivity.
Qed.

Lemma in_fold_delete (k : strnum) (l : list (RawDataSeriesDatum T)) missing :
  In k (fold_left (fun s d => JsSet.delete s (raw_x d)) l missing) -> In k missing.
Proof.
  revert missing. induction l as [|d l IH]; intros missing; simpl; [auto|].
  intros H. apply IH in H. unfold JsSet.delete in H.
  apply filter_In in H. tauto.
Qed.

Lemma in_set_has (k : strnum) (s : list strnum) : In k s -> JsSet.has s k = true.
Proof.
  intros H. unfold JsSet.has. apply existsb_exists. exists k.
  split; [assumption | apply (key_eqb_refl (K := strnum))].
Qed.

Lemma set_has_forall (s xValues : list strnum) (k : strnum) :
  forallb (fun j => JsSet.has xValues j) s = true ->
  JsSet.has s k = true -> JsSet.has xValues k = true.
Proof.
  rewrite forallb_forall. unfold JsSet.has at 2. rewrite existsb_exists.
  intros Hall (j & Hj & E).
  rewrite <- (set_has_compat (K := strnum) xValues j k E). apply Hall, Hj.
Qed.

(** One series: its formatted data hold one datum per x value of the
    universe and nothing else. *)
Lemma formatSeries_one_per_x stackedValues (scaleToExtent isPercentageMode : bool)
      xValues (xScaleType : ScaleType) (ds : RawDataSeries T) (seriesIndex : nat) :
  JsSet.wfb xValues = true ->
  JsSet.wfb (map (@raw_x T) (data ds)) = true ->
  forallb (fun j => JsSet.has xValues j) (map (@raw_x T) (data ds)) = true ->
  (forall k, JsSet.has xValues k = true -> JsMap.has stackedValues k = true) ->
  forall xv,
    countAtX xv (data (formatSeries stackedValues scaleToExtent isPercentageMode
                                    xValues xScaleType ds seriesIndex))
    = if JsSet.has xValues xv then 1 else 0.
Proof.
  intros Hwf Hone Hin Hfull xv. unfold formatSeries.
  destruct (fold_formatDatum stackedValues seriesIndex scaleToExtent
              isPercentageMode (data ds)) with (newData := @nil (DataSeriesDatum T))
                                               (missing := xValues)
    as (outs & Hf & Hxs).
  { intros d Hd. apply Hfull.
    apply (set_has_forall (map (@raw_x T) (data ds)) xValues); [assumption|].
    apply in_set_has, in_map, Hd. }
  rewrite Hf. simpl app.
  destruct (fold_formatFilled stackedValues seriesIndex scaleToExtent
              isPercentageMode
              (fold_left (fun s d => JsSet.delete s (raw_x d)) (data ds) xValues))
    with (newData := outs) as (fills & Hg & Hys).
  { intros k Hk. apply Hfull, in_set_has, (in_fold_delete k (data ds)), Hk. }
  rewrite Hg. simpl data.
  unfold countAtX.
  rewrite (filter_length_perm _ _ _ (array_sort_perm _ (outs ++ fills))).
  fold (countAtX xv (outs ++ fills)).
  rewrite countAtX_countKey, map_app, (countKey_app (K := strnum)), Hxs, Hys.
  rewrite countKey_fold_delete.
  rewrite (wfb_countKey (K := strnum) _ xv Hone).
  destruct (JsSet.has (map (@raw_x T) (data ds)) xv) eqn:E.
  - rewrite (set_has_forall _ xValues xv Hin E). reflexivity.
  - rewrite (wfb_countKey (K := strnum) _ xv Hwf). reflexivity.
Qed.
End Completeness.

(** C4: when every series of a stacked group holds at most one datum per
    x value and only x values of the universe, every [DataSeries] returned
    by [formatStackedDataSeriesValues] holds exactly one datum at each x
    value of the universe and none at any other x value. *)
Theorem formatStackedDataSeriesValues_one_datum_per_x
        {T : Type} (dataseries : list (RawDataSeries T))
        (scaleToExtent isPercentageMode : bool)
        (xValues : list strnum) (xScaleType : ScaleType) :
  JsSet.wfb xValues = true ->
  (forall ds, In ds dataseries ->
              JsSet.wfb (map (@raw_x T) (data ds)) = true
              /\ forallb (fun j => JsSet.has xValues j) (map (@raw_x T) (data ds))
                 = true) ->
  forall out,
    In out (formatStackedDataSeriesValues dataseries scaleToExtent isPercentageMode
                                          xValues xScaleType) ->
    forall xv, countAtX xv (data out) = if JsSet.has xValues xv then 1 else 0.
Proof.
  intros Hwf Hds out Hout xv.
  unfold formatStackedDataSeriesValues, array_mapi in Hout.
  apply mapi_from_in in Hout. destruct Hout as (ds & i & Hin & ->).
  destruct (Hds ds Hin) as (Hone & Huni).
  apply formatSeries_one_per_x; try assumption.
  intros k Hk. unfold JsMap.has.
  rewrite computeYStackedMapValues_get by apply getYValueStackMap_wfb.
  assert (Hne : dataseries <> []) by (intros ->; contradiction Hin).
  pose proof (getYValueStackMap_full dataseries xValues Hne k Hk) as Hfull.
  unfold JsMap.has in Hfull.
  destruct (JsMap.get (getYValueStackMap dataseries xValues) k);
    [reflexivity | discriminate].
Qed.

Lemma formatStackedDataSeriesValues_one_datum_per_x_witness :
  let out :=
    formatSeries
      (computeYStackedMapValues
         (getYValueStackMap [exampleSeriesA; exampleSeriesB] exampleXValues) false)
      false false exampleXValues Continuous exampleSeriesB 1 in
  JsSet.wfb exampleXValues = true
  /\ In out (formatStackedDataSeriesValues [exampleSeriesA; exampleSeriesB]
                                           false false exampleXValues Continuous)
  /\ countAtX (SNum 2%float) (data out) = 1
  /\ countAtX (SNum 4%float) (data out) = 0.
Proof.
  assert (Hds : forall ds, In ds [exampleSeriesA; exampleSeriesB] ->
                           JsSet.wfb (map (@raw_x unit) (data ds)) = true
                           /\ forallb (fun j => JsSet.has exampleXValues j)
                                      (map (@raw_x unit) (data ds)) = true).
  { intros ds [<-|[<-|[]]]; split; reflexivity. }
  assert (Hin : In (formatSeries
                      (computeYStackedMapValues
                         (getYValueStackMap [exampleSeriesA; exampleSeriesB]
                                            exampleXValues) false)
                      false false exampleXValues Continuous exampleSeriesB 1)
                   (formatStackedDataSeriesValues [exampleSeriesA; exampleSeriesB]
                      false false exampleXValues Continuous)).
  { right. left. reflexivity. }
  split; [reflexivity|]. split; [exact Hin|]. split.
  - exact (formatStackedDataSeriesValues_one_datum_per_x
             [exampleSeriesA; exampleSeriesB] false false exampleXValues Continuous
             eq_refl Hds _ Hin (SNum 2%float)).
  - exact (formatStackedDataSeriesValues_one_datum_per_x
             [exampleSeriesA; exampleSeriesB] false false exampleXValues Continuous
             eq_refl Hds _ Hin (SNum 4%float)).
Defined.

(* ================================================================== *)
(** ** Colours *)

Lemma getHighestOverride_precedence (chartColors : ColorConfig)
      (customColors : list (string * Color)) (overrides : ColorOverrides)
      (seriesKey : string) (counter : nat) :
  (let colorOverride := getHighestOverride seriesKey customColors overrides in
   if truthyColor colorOverride then colorOverride
   else paletteColor chartColors counter)
  = precedenceColor chartColors customColors overrides seriesKey counter.
Proof.
  unfold getHighestOverride, precedenceColor, paletteColor. simpl find.
  destruct (truthyColor (JsMap.get (temporary overrides) seriesKey)) eqn:Et;
    [rewrite Et; reflexivity|].
  destruct (truthyColor (JsMap.get customColors seriesKey)) eqn:Ec;
    [rewrite Ec; reflexivity|].
  destruct (truthyColor (JsMap.get (persisted overrides) seriesKey)) eqn:Ep;
    [reflexivity|].
  destruct (vizColors chartColors) as [|c cs]; [|reflexivity].
  simpl. destruct counter; reflexivity.
Qed.

Lemma fold_assignColor_other (chartColors : ColorConfig)
      (customColors : list (string * Color)) (overrides : ColorOverrides)
      (l : list (string * SeriesCollectionValue)) (k : string) :
  JsMap.has l k = false ->
  forall st,
    JsMap.get (fst (fold_left (assignColor chartColors customColors overrides) l st)) k
    = JsMap.get (fst st) k.
Proof.
  induction l as [|[j v] l IH]; intros Hk [m c]; simpl; [reflexivity|].
  unfold JsMap.has in Hk. simpl in Hk.
  destruct (String.eqb j k) eqn:E; [discriminate|].
  rewrite IH by exact Hk. simpl.
  apply (get_set_other (K := string)). exact E.
Qed.

Lemma fold_assignColor_nth (chartColors : ColorConfig)
      (customColors : list (string * Color)) (overrides : ColorOverrides)
      (l : list (string * SeriesCollectionValue)) :
  JsMap.wfb l = true ->
  forall (i : nat) (k : string) (v : SeriesCollectionValue) st,
    nth_error l i = Some (k, v) ->
    JsMap.get (fst (fold_left (assignColor chartColors customColors overrides) l st)) k
    = Some (precedenceColor chartColors customColors overrides k (snd st + i)).
Proof.
  induction l as [|[j w] l IH]; intros Hwf i k v [m c] Hnth;
    [destruct i; discriminate|].
  simpl in Hwf. apply andb_true_iff in Hwf. destruct Hwf as [Hj Hl].
  apply negb_true_iff in Hj.
  destruct i as [|i]; simpl in Hnth; cbn [fold_left].
  - injection Hnth as -> ->.
    rewrite fold_assignColor_other by exact Hj.
    unfold assignColor. cbn [fst snd].
    rewrite (get_set_same (K := string)) by apply String.eqb_refl.
    rewrite Nat.add_0_r.
    f_equal. apply getHighestOverride_precedence.
  - rewrite (IH Hl i k v _ Hnth). unfold assignColor. cbn [snd].
    rewrite Nat.add_succ_r. reflexivity.
Qed.

(** C8: [getSeriesColors] gives the series at position [i] of the
    collection the first defined colour among its temporary override, its
    custom colour and its persisted override, and otherwise the palette
    colour at index [i mod paletteSize]: the counter advances by one for
    every series, whether or not an override applied to it. *)
Theorem getSeriesColors_precedence
        (seriesCollection : list (string * SeriesCollectionValue))
        (chartColors : ColorConfig) (customColors : list (string * Color))
        (overrides : ColorOverrides)
        (i : nat) (seriesKey : string) (v : SeriesCollectionValue) :
  JsMap.wfb seriesCollection = true ->
  nth_error seriesCollection i = Some (seriesKey, v) ->
  JsMap.get (getSeriesColors seriesCollection chartColors customColors overrides)
            seriesKey
  = Some (precedenceColor chartColors customColors overrides seriesKey i).
Proof.
  intros Hwf Hnth. unfold getSeriesColors.
  apply (fold_assignColor_nth chartColors customColors overrides
                              seriesCollection Hwf i seriesKey v ([], 0) Hnth).
Qed.

Lemma getSeriesColors_precedence_witness :
  JsMap.get (getSeriesColors exampleCollection examplePalette exampleCustomColors
                             exampleOverrides) "C"%string
  = Some (precedenceColor examplePalette exampleCustomColors exampleOverrides
                          "C"%string 2).
Proof.
  apply (getSeriesColors_precedence
           exampleCollection examplePalette exampleCustomColors exampleOverrides
           2 "C"%string (exampleCollectionValue "C"));
    reflexivity.
Defined.

(** On the example the palette index follows the position of the series:
    the first series takes the first palette colour (its persisted
    override is the empty string), the second its custom colour, the third
    its temporary override. *)
Example getSeriesColors_example :
  getSeriesColors exampleCollection examplePalette exampleCustomColors
                  exampleOverrides
  = [("A"%string, Some "red"%string);
     ("B"%string, Some "blue"%string);
     ("C"%string, Some "black"%string)].
Proof. reflexivity. Qed.

(* ================================================================== *)
(** ** Series keys *)

(** C3, where the code departs from it: with one string accessor and one
    number accessor the comparison [a > b] is false both ways, the
    comparator answers -1 both ways, and the sorted order follows the
    insertion order: the two maps hold the same entries and get different
    keys. *)
Theorem getSeriesKey_mixed_accessors_differ :
  Permutation mixedAccessors1 mixedAccessors2
  /\ JsMap.wfb mixedAccessors1 = true
  /\ JsMap.wfb mixedAccessors2 = true
  /\ getSeriesKey exampleNumberToString exampleStringToNumber
                  "spec1" (SStr "y") mixedAccessors1
     = "spec{spec1}yAccessor{y}splitAccessors{1-y|a-x}"%string
  /\ getSeriesKey exampleNumberToString exampleStringToNumber
                  "spec1" (SStr "y") mixedAccessors2
     = "spec{spec1}yAccessor{y}splitAccessors{a-x|1-y}"%string.
Proof.
  split; [apply perm_swap|]. vm_compute. repeat split; reflexivity.
Qed.

(** *** String accessors: the key does not depend on the insertion order *)

Lemma string_ltb_irrefl (s : string) : String.ltb s s = false.
Proof.
  unfold String.ltb. pose proof (String.compare_antisym s s) as H.
  destruct (String.compare s s); simpl in H; try discriminate; reflexivity.
Qed.

Lemma string_ltb_trans (s t u : string) :
  String.ltb s t = true -> String.ltb t u = true -> String.ltb s u = true.
Proof.
  unfold String.ltb. intros H1 H2.
  assert (L1 : String_as_OT.lt s t).
  { apply String_as_OT.cmp_lt. unfold String_as_OT.cmp.
    destruct (String.compare s t); try discriminate; reflexivity. }
  assert (L2 : String_as_OT.lt t u).
  { apply String_as_OT.cmp_lt. unfold String_as_OT.cmp.
    destruct (String.compare t u); try discriminate; reflexivity. }
  pose proof (String_as_OT.lt_trans _ _ _ L1 L2) as L.
  apply String_as_OT.cmp_lt in L. unfold String_as_OT.cmp in L.
  rewrite L. reflexivity.
Qed.

Lemma string_ltb_total (s t : string) :
  s <> t -> String.ltb t s = false -> String.ltb s t = true.
Proof.
  unfold String.ltb. intros Hne H.
  rewrite (String.compare_antisym s t).
  destruct (String.compare t s) eqn:E; simpl.
  - apply String.compare_eq_iff in E. congruence.
  - discriminate.
  - reflexivity.
Qed.

Section StringAccessors.
Variable NumberToString : float -> string.
Variable StringToNumber : string -> float.

Implicit Types (e : strnum * strnum) (l m : list (strnum * strnum)).

Lemma compareEntries_strings (e1 e2 : strnum * strnum) :
  isStringAccessor e1 = true -> isStringAccessor e2 = true ->
  ((compareSplitAccessors StringToNumber) e1 e2 <? 0)%float
  = negb (String.ltb (accessorString e2) (accessorString e1)).
Proof.
  destruct e1 as [[f|s] v], e2 as [[g|t] w]; try discriminate.
  intros _ _. unfold compareSplitAccessors, accessorString, gt. simpl.
  destruct (String.ltb t s); reflexivity.
Qed.

Lemma sort_insert_in e l (e' : strnum * strnum) :
  In e' (sort_insert (compareSplitAccessors StringToNumber) e l) -> e' = e \/ In e' l.
Proof.
  intros H.
  apply (Permutation_in
           _ (sort_insert_perm (compareSplitAccessors StringToNumber) e l)) in H.
  destruct H; auto.
Qed.

Lemma sort_insert_sorted (e : strnum * strnum) (l : list (strnum * strnum)) :
  isStringAccessor e = true ->
  Forall (fun e' => isStringAccessor e' = true) l ->
  Forall (fun e' => accessorString e' <> accessorString e) l ->
  StronglySorted accessorLt l ->
  StronglySorted accessorLt (sort_insert (compareSplitAccessors StringToNumber) e l).
Proof.
  intros He. induction l as [|b l IH]; intros Hstr Hne Hs; simpl.
  - constructor; constructor.
  - inversion Hstr as [|? ? Hb Hstr']; subst.
    inversion Hne as [|? ? Hbe Hne']; subst.
    inversion Hs as [|? ? Hs' Hlt]; subst.
    rewrite (compareEntries_strings e b He Hb).
    destruct (String.ltb (accessorString b) (accessorString e)) eqn:E; simpl.
    + constructor; [apply IH; assumption|].
      rewrite Forall_forall. intros e' He'.
      apply sort_insert_in in He'. destruct He' as [->|He'].
      * exact E.
      * rewrite Forall_forall in Hlt. apply Hlt, He'.
    + assert (Heb : accessorLt e b).
      { apply string_ltb_total; [congruence | exact E]. }
      constructor; [assumption|].
      constructor; [exact Heb|].
      rewrite Forall_forall in Hlt |- *. intros e' He'.
      apply (string_ltb_trans _ (accessorString b)); [exact Heb | apply Hlt, He'].
Qed.

Lemma sort_fold_sorted (l : list (strnum * strnum)) :
  forall sorted,
    Forall (fun e => isStringAccessor e = true) (sorted ++ l) ->
    NoDup (map accessorString (sorted ++ l)) ->
    StronglySorted accessorLt sorted ->
    StronglySorted accessorLt
      (fold_left
         (fun sorted e => sort_insert (compareSplitAccessors StringToNumber) e sorted)
         l sorted).
Proof.
  induction l as [|e l IH]; intros sorted Hstr Hnd Hs; simpl; [assumption|].
  assert (Hperm : Permutation
                    (sort_insert (compareSplitAccessors StringToNumber) e sorted ++ l)
                    (sorted ++ e :: l)).
  { eapply Permutation_trans;
      [apply Permutation_app_tail, sort_insert_perm|].
    simpl. apply Permutation_middle. }
  apply IH.
  - eapply Permutation_Forall; [apply Permutation_sym, Hperm | exact Hstr].
  - eapply Permutation_NoDup;
      [apply Permutation_map, Permutation_sym, Hperm | exact Hnd].
  - apply Forall_app in Hstr. destruct Hstr as [Hs1 Hs2].
    inversion Hs2 as [|? ? He Hl]; subst.
    apply sort_insert_sorted; try assumption.
    rewrite map_app in Hnd. simpl in Hnd.
    apply NoDup_remove_2 in Hnd.
    rewrite Forall_forall. intros e' He' Heq.
    apply Hnd, in_or_app. left. rewrite <- Heq. apply in_map, He'.
Qed.

(** Two sorted lists with the same elements are the same list. *)
Lemma sorted_perm_unique (l1 : list (strnum * strnum)) :
  forall l2,
    StronglySorted accessorLt l1 -> StronglySorted accessorLt l2 ->
    Permutation l1 l2 -> l1 = l2.
Proof.
  induction l1 as [|a l1 IH]; intros l2 H1 H2 Hp.
  - apply Permutation_nil in Hp. congruence.
  - destruct l2 as [|b l2].
    + apply Permutation_sym, Permutation_nil in Hp. discriminate.
    + inversion H1 as [|? ? H1' Ha]; subst.
      inversion H2 as [|? ? H2' Hb]; subst.
      rewrite Forall_forall in Ha, Hb.
      assert (Hab : a = b).
      { assert (Hin : In a (b :: l2))
          by (apply (Permutation_in _ Hp); left; reflexivity).
        assert (Hin' : In b (a :: l1))
          by (apply (Permutation_in _ (Permutation_sym Hp)); left; reflexivity).
        destruct Hin as [Hin|Hin]; [congruence|].
        destruct Hin' as [Hin'|Hin']; [congruence|].
        pose proof (string_ltb_trans _ _ _ (Ha _ Hin') (Hb _ Hin)) as Hc.
        rewrite string_ltb_irrefl in Hc. discriminate. }
      subst b. f_equal. apply IH; try assumption.
      apply Permutation_cons_inv with a. exact Hp.
Qed.

(** A map has no two equal keys: its string accessors are all distinct. *)
Lemma wfb_string_accessors_NoDup (m : list (strnum * strnum)) :
  Forall (fun e => isStringAccessor e = true) m ->
  JsMap.wfb m = true -> NoDup (map accessorString m).
Proof.
  induction m as [|[k v] m IH]; intros Hstr Hwf; simpl; [constructor|].
  inversion Hstr as [|? ? Hk Hm]; subst.
  simpl in Hwf. apply andb_true_iff in Hwf. destruct Hwf as [Hk' Hwf].
  apply negb_true_iff in Hk'.
  constructor; [|apply IH; assumption].
  destruct k as [f|s]; [discriminate|].
  unfold accessorString at 1. simpl fst.
  intros Hin. apply in_map_iff in Hin. destruct Hin as ([k' v'] & Heq & Hin).
  rewrite Forall_forall in Hm. pose proof (Hm _ Hin) as Hk''.
  destruct k' as [g|t]; [discriminate|].
  unfold accessorString in Heq. simpl in Heq. subst t.
  clear - Hk' Hin. unfold JsMap.has in Hk'.
  induction m as [|[j w] m IHm]; [contradiction|].
  cbn [JsMap.get] in Hk'. destruct Hin as [Heq|Hin].
  - injection Heq as -> ->.
    rewrite (key_eqb_refl (K := strnum)) in Hk'. discriminate.
  - destruct (key_eqb j (SStr s)); [discriminate|]. apply IHm; assumption.
Qed.

Lemma array_sort_string_accessors (m1 m2 : list (strnum * strnum)) :
  Forall (fun e => isStringAccessor e = true) m1 ->
  JsMap.wfb m1 = true ->
  Permutation m1 m2 ->
  array_sort (compareSplitAccessors StringToNumber) m1
  = array_sort (compareSplitAccessors StringToNumber) m2.
Proof.
  intros Hstr Hwf Hp.
  pose proof (wfb_string_accessors_NoDup m1 Hstr Hwf) as Hnd.
  apply sorted_perm_unique.
  - apply sort_fold_sorted; simpl; try assumption. constructor.
  - apply sort_fold_sorted; simpl.
    + eapply Permutation_Forall; eassumption.
    + eapply Permutation_NoDup; [apply Permutation_map, Hp | exact Hnd].
    + constructor.
  - eapply Permutation_trans; [apply array_sort_perm|].
    eapply Permutation_trans; [exact Hp|].
    apply Permutation_sym, array_sort_perm.
Qed.

(** When every split accessor is a string, two maps that hold the same
    entries get the same series key, whatever the insertion order. *)
Theorem getSeriesKey_string_accessors_stable
        (specId : string) (yAccessor : strnum) (m1 m2 : list (strnum * strnum)) :
  Forall (fun e => isStringAccessor e = true) m1 ->
  JsMap.wfb m1 = true ->
  Permutation m1 m2 ->
  getSeriesKey NumberToString StringToNumber specId yAccessor m1
  = getSeriesKey NumberToString StringToNumber specId yAccessor m2.
Proof.
  intros Hstr Hwf Hp. unfold getSeriesKey.
  rewrite (array_sort_string_accessors m1 m2 Hstr Hwf Hp). reflexivity.
Qed.
End StringAccessors.

Lemma getSeriesKey_string_accessors_stable_witness :
  getSeriesKey exampleNumberToString exampleStringToNumber
               "spec1" (SStr "y") stringAccessors1
  = getSeriesKey exampleNumberToString exampleStringToNumber
                 "spec1" (SStr "y") stringAccessors2.
Proof.
  apply (getSeriesKey_string_accessors_stable
           exampleNumberToString exampleStringToNumber
           "spec1" (SStr "y") stringAccessors1 stringAccessors2).
  - repeat constructor.
  - reflexivity.
  - apply Permutation_sym.
    apply (Permutation_cons_append
             [(SStr "g", SStr "x"); (SStr "b", SNum 2%float)]
             (SStr "k", SStr "z")).
Defined.

(* ================================================================== *)
(** ** Splitting and deselected series *)

Lemma string_set_in {V : Type} (m : list (string * V)) (j : string) (w : V)
      (k : string) (v : V) :
  In (k, v) (JsMap.set m j w) -> In (k, v) m \/ (k = j /\ v = w).
Proof.
  induction m as [|[i u] m IH]; simpl.
  - intros [[= <- <-]|[]]. auto.
  - destruct (String.eqb i j) eqn:E; simpl.
    + apply String.eqb_eq in E. subst i.
      intros [[= <- <-]|H]; auto.
    + intros [H|H]; auto. destruct (IH H); auto.
Qed.

Lemma nonempty_length_ltb {A : Type} (l : list A) :
  l <> [] -> Nat.ltb 0 (List.length l) = true.
Proof. destruct l; [intros H; contradiction H; reflexivity | reflexivity]. Qed.

Section Deselected.
Variable NumberToString : float -> string.
Variable StringToNumber : string -> float.
Variable deselectedDataSeries : list SeriesIdentifier.
Implicit Types (st : SplittedState) (spec : BasicSeriesSpec)
         (s : RawDataSeries Datum) (k specId : string).

Lemma fold_collection_has (banded : option bool) (sortIndex : option float)
      (l : list (RawDataSeries Datum)) :
  forall (collection : list (string * SeriesCollectionValue)) k,
    JsMap.has
      (fold_left
         (fun seriesCollection series =>
            JsMap.set seriesCollection (key (seriesIdentifier series))
                      {| banded := banded; specSortIndex := sortIndex;
                         scv_seriesIdentifier := seriesIdentifier series |})
         l collection) k
    = existsb (fun series => String.eqb (key (seriesIdentifier series)) k) l
      || JsMap.has collection k.
Proof.
  induction l as [|s l IH]; intros collection k; cbn [fold_left existsb];
    [reflexivity|].
  rewrite IH, (has_set (K := string)).
  change (key_eqb (key (seriesIdentifier s)) k)
    with (String.eqb (key (seriesIdentifier s)) k).
  destruct (String.eqb (key (seriesIdentifier s)) k),
    (existsb (fun series => String.eqb (key (seriesIdentifier series)) k) l);
    reflexivity.
Qed.

Lemma step_collection_mono st spec k :
  JsMap.has (ss_seriesCollection st) k = true ->
  JsMap.has
    (ss_seriesCollection
       (splittedStep NumberToString StringToNumber deselectedDataSeries st spec))
    k = true.
Proof.
  intros H. unfold splittedStep. cbn [ss_seriesCollection].
  rewrite fold_collection_has, H. apply orb_true_r.
Qed.

Lemma step_collection_new st spec s :
  In s (rawDataSeries (splitSeries NumberToString StringToNumber spec)) ->
  JsMap.has
    (ss_seriesCollection
       (splittedStep NumberToString StringToNumber deselectedDataSeries st spec))
    (key (seriesIdentifier s)) = true.
Proof.
  intros H. unfold splittedStep. cbn [ss_seriesCollection].
  rewrite fold_collection_has. apply orb_true_iff. left.
  apply existsb_exists. exists s. split; [exact H | apply String.eqb_refl].
Qed.

Lemma step_splitted_in st spec specId (series : list (RawDataSeries Datum)) :
  deselectedDataSeries <> [] ->
  In (specId, series)
     (ss_splittedSeries
        (splittedStep NumberToString StringToNumber deselectedDataSeries st spec)) ->
  In (specId, series) (ss_splittedSeries st)
  \/ (specId = spec_id spec
      /\ series
         = removeDeselected
             deselectedDataSeries
             (rawDataSeries (splitSeries NumberToString StringToNumber spec))).
Proof.
  intros Hne. unfold splittedStep. cbn [ss_splittedSeries].
  rewrite (nonempty_length_ltb _ Hne).
  intros H. apply string_set_in in H. exact H.
Qed.

Lemma fold_step_spec (seriesSpecs : list BasicSeriesSpec) :
  deselectedDataSeries <> [] ->
  forall st,
    let st' :=
      fold_left (splittedStep NumberToString StringToNumber deselectedDataSeries)
                seriesSpecs st in
    (forall specId series,
        In (specId, series) (ss_splittedSeries st') ->
        In (specId, series) (ss_splittedSeries st)
        \/ exists spec,
            In spec seriesSpecs /\ specId = spec_id spec
            /\ series
               = removeDeselected
                   deselectedDataSeries
                   (rawDataSeries (splitSeries NumberToString StringToNumber spec)))
    /\ (forall k, JsMap.has (ss_seriesCollection st) k = true ->
                  JsMap.has (ss_seriesCollection st') k = true)
    /\ (forall spec s,
           In spec seriesSpecs ->
           In s (rawDataSeries (splitSeries NumberToString StringToNumber spec)) ->
           JsMap.has (ss_seriesCollection st') (key (seriesIdentifier s)) = true).
Proof.
  intros Hne. induction seriesSpecs as [|spec specs IH]; intros st; cbn [fold_left].
  - split; [auto|]. split; [auto|]. intros spec s [].
  - destruct (IH (splittedStep NumberToString StringToNumber deselectedDataSeries
                               st spec)) as (Hs & Hm & Hc).
    split; [|split].
    + intros specId series H. destruct (Hs _ _ H) as [H'|(spec' & Hin & Hid & Hf)].
      * destruct (step_splitted_in st spec specId series Hne H') as [H''|[Hid Hf]].
        -- left. exact H''.
        -- right. exists spec. split; [left; reflexivity | auto].
      * right. exists spec'. split; [right; exact Hin | auto].
    + intros k H. apply Hm, step_collection_mono, H.
    + intros spec' s [<-|Hin] Hs'.
      * apply Hm, step_collection_new, Hs'.
      * apply (Hc spec' s Hin Hs').
Qed.
End Deselected.

(** C10: with a non-empty list of deselected series, every entry of the
    [splittedSeries] map of [getSplittedSeries] is the series list of one
    of the specs without its deselected series, while [seriesCollection]
    is filled from the unfiltered list: every series of every spec,
    deselected or not, has an entry in it. *)
Theorem getSplittedSeries_keeps_deselected_in_collection
        (NumberToString : float -> string) (StringToNumber : string -> float)
        (seriesSpecs : list BasicSeriesSpec)
        (deselectedDataSeries : list SeriesIdentifier) :
  deselectedDataSeries <> [] ->
  let result :=
    getSplittedSeries NumberToString StringToNumber seriesSpecs deselectedDataSeries in
  (forall specId series,
      In (specId, series) (splittedSeries result) ->
      (exists spec,
          In spec seriesSpecs /\ specId = spec_id spec
          /\ series
             = removeDeselected
                 deselectedDataSeries
                 (rawDataSeries (splitSeries NumberToString StringToNumber spec)))
      /\ forall s, In s series -> isDeselected deselectedDataSeries s = false)
  /\ (forall spec s,
         In spec seriesSpecs ->
         In s (rawDataSeries (splitSeries NumberToString StringToNumber spec)) ->
         JsMap.has (seriesCollection result) (key (seriesIdentifier s)) = true).
Proof.
  intros Hne result.
  destruct (fold_step_spec NumberToString StringToNumber deselectedDataSeries
              seriesSpecs Hne
              {| ss_splittedSeries := []; ss_seriesCollection := [];
                 ss_xValues := []; ss_isOrdinalScale := false |})
    as (Hs & _ & Hc).
  split.
  - intros specId series H. unfold result, getSplittedSeries in H.
    cbn [splittedSeries] in H.
    destruct (Hs _ _ H) as [[]|(spec & Hin & Hid & Hf)].
    split; [exists spec; auto|].
    intros s Hs'. rewrite Hf in Hs'. apply filter_In in Hs'.
    destruct Hs' as [_ Hv]. apply negb_true_iff in Hv. exact Hv.
  - intros spec s Hin Hs'. unfold result, getSplittedSeries.
    cbn [seriesCollection]. apply (Hc spec s Hin Hs').
Qed.

(** On the example the deselected series "b" is left out of
    [splittedSeries] and still has its entry in [seriesCollection]. *)
Example getSplittedSeries_example :
  let result :=
    getSplittedSeries exampleNumberToString exampleStringToNumber
                      [exampleSpec] exampleDeselected in
  map (fun '(specId, series) =>
         (specId, map (fun s => key (seriesIdentifier s)) series))
      (splittedSeries result)
  = [("spec1"%string, [exampleKeyA])]
  /\ JsMap.keys (seriesCollection result) = [exampleKeyA; exampleKeyB]
  /\ xValues result = [SNum 1%float; SNum 2%float].
Proof. vm_compute. repeat split; reflexivity. Qed.

Lemma getSplittedSeries_keeps_deselected_in_collection_witness :
  exampleDeselected <> []
  /\ JsMap.has
       (seriesCollection
          (getSplittedSeries exampleNumberToString exampleStringToNumber
                             [exampleSpec] exampleDeselected))
       exampleKeyB = true.
Proof.
  split; [discriminate|].
  pose proof (getSplittedSeries_keeps_deselected_in_collection
                exampleNumberToString exampleStringToNumber
                [exampleSpec] exampleDeselected) as H.
  destruct H as (_ & Hc); [discriminate|].
  apply (Hc exampleSpec
            (nth 1 (rawDataSeries
                      (splitSeries exampleNumberToString exampleStringToNumber
                                   exampleSpec))
                 {| seriesIdentifier := exampleIdentifier ""; data := [] |})).
  - left. reflexivity.
  - vm_compute. right. left. reflexivity.
Defined.

(** ** The stack map covers the universe *)

(** For a non-empty group, [getYValueStackMap] is a map without repeated
    keys that holds a stack array at every x value of the universe. *)
Theorem getYValueStackMap_covers_universe
        {T : Type} (dataseries : list (RawDataSeries T)) (xValues : list strnum)
        (xv : strnum) :
  dataseries <> [] ->
  JsSet.has xValues xv = true ->
  JsMap.wfb (getYValueStackMap dataseries xValues) = true
  /\ JsMap.has (getYValueStackMap dataseries xValues) xv = true.
Proof.
  intros Hne Hx. split.
  - apply getYValueStackMap_wfb.
  - apply (getYValueStackMap_full dataseries xValues Hne xv Hx).
Qed.

Lemma getYValueStackMap_covers_universe_witness :
  JsMap.wfb (getYValueStackMap [exampleSeriesA; exampleSeriesB] exampleXValues) = true
  /\ JsMap.has (getYValueStackMap [exampleSeriesA; exampleSeriesB] exampleXValues)
               (SNum 3%float) = true.
Proof.
  apply (getYValueStackMap_covers_universe
           [exampleSeriesA; exampleSeriesB] exampleXValues (SNum 3%float));
    [discriminate | reflexivity].
Defined.


(* ================================================================== *)
(** * Further properties *)

(** ** What [getYValueStackMap] records *)

Lemma array_set_middle {A : Type} (l : list A) (a b : A) (r : list A) :
  array_set (l ++ a :: r) (List.length l) b = l ++ b :: r.
Proof.
  induction l as [|c l IH]; simpl; [reflexivity|]. rewrite IH. reflexivity.
Qed.

Section StackContent.
Context {T : Type}.
Implicit Types (stackMap : list (strnum * list value))
         (missing xValues : list strnum)
         (done : list (list (RawDataSeriesDatum T)))
         (p : list (RawDataSeriesDatum T)) (d : RawDataSeriesDatum T).

Lemma contributionAt_snoc xv p d :
  contributionAt xv (p ++ [d])
  = if key_eqb (raw_x d) xv then raw_y1 d else contributionAt xv p.
Proof. unfold contributionAt. rewrite fold_left_app. reflexivity. Qed.

Lemma contributionAt_compat j k p :
  key_eqb j k = true -> contributionAt j p = contributionAt k p.
Proof.
  intros E. unfold contributionAt. generalize (Num 0%float).
  induction p as [|d p IH]; intros acc; simpl; [reflexivity|].
  change (sameValueZero (raw_x d) j) with (key_eqb (raw_x d) j).
  change (sameValueZero (raw_x d) k) with (key_eqb (raw_x d) k).
  rewrite (key_eqb_compat_r (raw_x d) j k E). apply IH.
Qed.

Lemma stackOfData_compat j k done pending :
  key_eqb j k = true -> stackOfData j done pending = stackOfData k done pending.
Proof.
  intros E. unfold stackOfData. f_equal. apply map_ext.
  intros p. apply contributionAt_compat, E.
Qed.

Lemma stackOfData_length xv done pending :
  List.length (stackOfData xv done pending) = List.length done + pending.
Proof.
  unfold stackOfData. rewrite length_app, length_map, repeat_length. reflexivity.
Qed.

(** Opening the next series adds nothing, closing it neither. *)
Lemma stackOfData_open xv done pending :
  stackOfData xv done (S pending) = stackOfData xv (done ++ [[]]) pending.
Proof.
  unfold stackOfData. rewrite map_app, <- app_assoc. reflexivity.
Qed.

Lemma stackOfData_set xv done p pending v :
  array_set (stackOfData xv (done ++ [p]) pending) (List.length done) v
  = map (contributionAt xv) done ++ v :: repeat (Num 0%float) pending.
Proof.
  unfold stackOfData. rewrite map_app, <- app_assoc. simpl.
  rewrite <- (length_map (contributionAt xv) done). apply array_set_middle.
Qed.

Lemma records_set n stackMap done p p' pending k v :
  List.length done + S pending = n ->
  records n stackMap (done ++ [p]) pending ->
  (forall xv, key_eqb k xv = true -> contributionAt xv p' = v) ->
  (forall xv, key_eqb k xv = false -> contributionAt xv p' = contributionAt xv p) ->
  records n (setStackValue n (List.length done) stackMap k v) (done ++ [p']) pending.
Proof.
  intros Hn Hrec Hsame Hother xv. unfold setStackValue.
  destruct (key_eqb k xv) eqn:E.
  - rewrite (get_set_same (K := strnum)) by exact E.
    assert (Hbase : match JsMap.get stackMap k with
                    | Some stack => stack
                    | None => repeat (Num 0%float) n
                    end = stackOfData xv (done ++ [p]) pending).
    { pose proof (Hrec k) as Hk.
      rewrite (stackOfData_compat k xv _ _ E) in Hk.
      destruct (JsMap.get stackMap k); congruence. }
    rewrite Hbase, stackOfData_set.
    unfold stackOfData. rewrite map_app, <- app_assoc. simpl.
    rewrite (Hsame xv E). reflexivity.
  - rewrite (get_set_other (K := strnum)) by exact E.
    assert (Heq : stackOfData xv (done ++ [p']) pending
                  = stackOfData xv (done ++ [p]) pending).
    { unfold stackOfData. rewrite !map_app. simpl. rewrite (Hother xv E).
      reflexivity. }
    rewrite Heq. apply Hrec.
Qed.

Lemma has_missing_step xValues missing (j k : strnum) :
  JsSet.has (if JsSet.has xValues j then JsSet.delete missing j else missing) k
  = true ->
  JsSet.has missing k = true
  /\ (JsSet.has xValues j = true -> key_eqb j k = false).
Proof.
  destruct (JsSet.has xValues j).
  - rewrite (has_delete (K := strnum)). intros H.
    apply andb_true_iff in H. destruct H as [H1 H2].
    apply negb_true_iff in H1. auto.
  - intros H. split; [exact H | discriminate].
Qed.

Lemma stackDatum_inv n xValues done p pending st d :
  List.length done + S pending = n ->
  dataLoopInv n xValues done p pending st ->
  dataLoopInv n xValues done (p ++ [d]) pending
              (stackDatum n (List.length done) xValues st d).
Proof.
  intros Hn (Hrec & Hsub & Hzero). destruct st as [stackMap missing].
  unfold stackDatum. cbn [fst snd] in *. split; [|split].
  - apply (records_set n stackMap done p (p ++ [d]) pending); try assumption.
    + intros xv E. rewrite contributionAt_snoc, E. reflexivity.
    + intros xv E. rewrite contributionAt_snoc, E. reflexivity.
  - intros k Hk. apply Hsub. apply (has_missing_step _ _ _ _ Hk).
  - intros k Hk. apply has_missing_step in Hk. destruct Hk as [Hm Hne].
    rewrite contributionAt_snoc.
    destruct (key_eqb (raw_x d) k) eqn:E; [|apply Hzero, Hm].
    exfalso.
    assert (Hx : JsSet.has xValues (raw_x d) = true).
    { rewrite (set_has_compat (K := strnum) xValues _ _ E). apply Hsub, Hm. }
    discriminate (Hne Hx).
Qed.

Lemma fold_stackDatum_inv n xValues done pending (l : list (RawDataSeriesDatum T)) :
  List.length done + S pending = n ->
  forall p st,
    dataLoopInv n xValues done p pending st ->
    dataLoopInv n xValues done (p ++ l) pending
                (fold_left (stackDatum n (List.length done) xValues) l st).
Proof.
  intros Hn. induction l as [|d l IH]; intros p st Hinv; cbn [fold_left].
  - rewrite app_nil_r. exact Hinv.
  - replace (p ++ d :: l) with ((p ++ [d]) ++ l) by (rewrite <- app_assoc; reflexivity).
    apply IH, stackDatum_inv; assumption.
Qed.

Lemma fillMissing_records n done p pending stackMap (filled : list strnum) :
  List.length done + S pending = n ->
  (forall k, JsSet.has filled k = true -> contributionAt k p = Num 0%float) ->
  records n stackMap (done ++ [p]) pending ->
  records n (fillMissing n (List.length done) stackMap filled) (done ++ [p]) pending.
Proof.
  intros Hn. unfold fillMissing. revert stackMap.
  induction filled as [|k filled IH]; intros stackMap Hzero Hrec;
    cbn [fold_left]; [exact Hrec|].
  apply IH.
  - intros j Hj. apply Hzero.
    change (JsSet.has (k :: filled) j) with (key_eqb k j || JsSet.has filled j).
    rewrite Hj. apply orb_true_r.
  - apply (records_set n stackMap done p p pending); try assumption.
    + intros xv E. apply Hzero.
      change (JsSet.has (k :: filled) xv) with (key_eqb k xv || JsSet.has filled xv).
      rewrite E. reflexivity.
    + reflexivity.
Qed.

Lemma records_open n stackMap done pending :
  records n stackMap done (S pending) -> records n stackMap (done ++ [[]]) pending.
Proof.
  intros H xv. specialize (H xv). rewrite stackOfData_open in H. exact H.
Qed.

Lemma stackSeries_inv n xValues done pending st (ds : RawDataSeries T) :
  List.length done + S pending = n ->
  seriesLoopInv n xValues done (S pending) st ->
  seriesLoopInv n xValues (done ++ [data ds]) pending
                (stackSeries n xValues st ds (List.length done)).
Proof.
  intros Hn (Hrec & Hsub). unfold stackSeries.
  pose proof (fold_stackDatum_inv n xValues done pending (data ds) Hn [] st) as H.
  cbn [app] in H.
  destruct (fold_left (stackDatum n (List.length done) xValues) (data ds) st)
    as [stackMap missing].
  destruct H as (Hrec' & Hsub' & Hzero').
  { split; [apply records_open, Hrec|]. split; [exact Hsub|].
    intros k _. reflexivity. }
  cbn [fst snd] in *. split; [|exact Hsub'].
  apply fillMissing_records; assumption.
Qed.

Lemma reduce_stackSeries_inv n xValues (l : list (RawDataSeries T)) :
  forall done st,
    List.length done + List.length l = n ->
    seriesLoopInv n xValues done (List.length l) st ->
    seriesLoopInv n xValues (done ++ map (@data _) l) 0
                  (reduce_from (stackSeries n xValues) (List.length done) l st).
Proof.
  induction l as [|ds l IH]; intros done st Hn Hinv; cbn [reduce_from map].
  - rewrite app_nil_r. exact Hinv.
  - cbn [List.length] in Hn, Hinv.
    replace (done ++ data ds :: map (@data _) l)
      with ((done ++ [data ds]) ++ map (@data _) l)
      by (rewrite <- app_assoc; reflexivity).
    replace (S (List.length done)) with (List.length (done ++ [data ds]))
      by (rewrite length_app; simpl; lia).
    apply IH.
    + rewrite length_app. simpl. lia.
    + apply stackSeries_inv; [lia | exact Hinv].
Qed.
End StackContent.

(** For every x value [xv] of the map returned by [getYValueStackMap], the
    stack array holds, at the index of each series, the [y1] of the last
    datum of that series at [xv], and 0 when the series has no datum
    there; it has one entry per series. *)
Theorem getYValueStackMap_contributions
        {T : Type} (dataseries : list (RawDataSeries T)) (xValues : list strnum)
        (xv : strnum) (stack : list value) :
  JsMap.get (getYValueStackMap dataseries xValues) xv = Some stack ->
  stack = map (fun ds => contributionAt xv (data ds)) dataseries
  /\ List.length stack = List.length dataseries.
Proof.
  intros Hget.
  assert (Hs : stack = map (fun ds => contributionAt xv (data ds)) dataseries).
  { unfold getYValueStackMap, array_reduce in Hget.
    destruct (reduce_stackSeries_inv (List.length dataseries) xValues dataseries
                                     [] ([], xValues)) as (Hrec & _).
    - reflexivity.
    - split; [|auto]. intros k. cbn. unfold stackOfData. reflexivity.
    - specialize (Hrec xv). cbn [List.length app] in Hrec. rewrite Hget in Hrec.
      rewrite Hrec. unfold stackOfData. rewrite app_nil_r, map_map. reflexivity. }
  split; [exact Hs|]. rewrite Hs, length_map. reflexivity.
Qed.

Lemma getYValueStackMap_contributions_witness :
  JsMap.get (getYValueStackMap [exampleSeriesA; exampleSeriesB] exampleXValues)
            (SNum 2%float) = Some [Num 20%float; Num 0%float]
  /\ [Num 20%float; Num 0%float]
     = map (fun ds => contributionAt (SNum 2%float) (data ds))
           [exampleSeriesA; exampleSeriesB]
  /\ List.length [Num 20%float; Num 0%float]
     = List.length [exampleSeriesA; exampleSeriesB].
Proof.
  split; [reflexivity|].
  apply (getYValueStackMap_contributions
           [exampleSeriesA; exampleSeriesB] exampleXValues (SNum 2%float)).
  reflexivity.
Defined.

(** ** The shape of the stacked values *)

Lemma cumulative_length (previous : value) (rest : list value) :
  List.length (cumulative previous rest) = List.length rest.
Proof.
  revert previous. induction rest as [|v rest IH]; intros previous; simpl;
    [reflexivity|]. rewrite IH. reflexivity.
Qed.

Lemma computeStackedValues_lengths (scaleToExtent : bool) (stack : list value) :
  stack <> [] ->
  List.length (values (computeStackedValues scaleToExtent stack))
  = S (List.length stack)
  /\ List.length (percent (computeStackedValues scaleToExtent stack))
     = S (List.length stack).
Proof.
  intros Hne. destruct stack as [|v0 rest]; [contradiction Hne; reflexivity|].
  rewrite computeStackedValues_percent, length_map, computeStackedValues_values.
  simpl. rewrite cumulative_length. auto.
Qed.

(** Every entry of the stacked values computed for a group has one
    cumulative value and one fraction per series, plus the leading one. *)
Theorem stackedValues_one_entry_per_series
        {T : Type} (dataseries : list (RawDataSeries T)) (xValues : list strnum)
        (scaleToExtent : bool) (xv : strnum) (stacked : StackedValues) :
  JsMap.get (computeYStackedMapValues (getYValueStackMap dataseries xValues)
                                      scaleToExtent) xv = Some stacked ->
  List.length (values stacked) = S (List.length dataseries)
  /\ List.length (percent stacked) = S (List.length dataseries).
Proof.
  intros Hget.
  destruct (computeYStackedMapValues_get_inv
              _ _ _ _ (getYValueStackMap_wfb dataseries xValues) Hget)
    as (stack & Hs & ->).
  destruct (getYValueStackMap_contributions dataseries xValues xv stack Hs)
    as (Hmap & Hlen).
  assert (Hne : stack <> []).
  { intros ->. destruct dataseries; [|discriminate].
    unfold getYValueStackMap in Hs. discriminate. }
  rewrite <- Hlen. apply computeStackedValues_lengths, Hne.
Qed.

Lemma stackedValues_one_entry_per_series_witness :
  JsMap.get (computeYStackedMapValues
               (getYValueStackMap [exampleSeriesA; exampleSeriesB] exampleXValues)
               false) (SNum 3%float)
  = Some (computeStackedValues false [Num 0%float; Num 15%float])
  /\ List.length (values (computeStackedValues false [Num 0%float; Num 15%float]))
     = 3
  /\ List.length (percent (computeStackedValues false [Num 0%float; Num 15%float]))
     = 3.
Proof.
  split; [reflexivity|].
  apply (stackedValues_one_entry_per_series
           [exampleSeriesA; exampleSeriesB] exampleXValues false (SNum 3%float)).
  reflexivity.
Defined.

(** ** Stacked series sit on top of one another *)

Lemma cumulative_nth (rest : list value) :
  forall (previous : value) (i : nat),
    i < List.length rest ->
    nth (S i) (previous :: cumulative previous rest) Undefined
    = Num (add (nth i (previous :: cumulative previous rest) Undefined)
               (nth i rest Undefined)).
Proof.
  induction rest as [|v rest IH]; intros previous i Hi; simpl in Hi; [lia|].
  destruct i as [|i]; [reflexivity|].
  change (nth (S (S i)) (previous :: cumulative previous (v :: rest)) Undefined)
    with (nth (S i) (Num (add previous v) :: cumulative (Num (add previous v)) rest)
              Undefined).
  change (nth (S i) (previous :: cumulative previous (v :: rest)) Undefined)
    with (nth i (Num (add previous v) :: cumulative (Num (add previous v)) rest)
              Undefined).
  change (nth (S i) (v :: rest) Undefined) with (nth i rest Undefined).
  apply IH. lia.
Qed.

(** Whatever [scaleToExtent] is, the cumulative value above series [k] is
    the one below it plus its contribution; the one above the first series
    is its contribution itself. *)
Lemma absolute_values_step (stackScaleToExtent : bool) (stack : list value)
      (k : nat) :
  k < List.length stack ->
  array_get (values (computeStackedValues stackScaleToExtent stack)) (S k)
  = match k with
    | O => nth 0 stack Undefined
    | S _ =>
        Num (add (array_get (values (computeStackedValues stackScaleToExtent stack)) k)
                 (nth k stack Undefined))
    end.
Proof.
  destruct stack as [|v0 rest]; cbn [List.length]; [lia|]. intros Hk.
  rewrite computeStackedValues_values. unfold array_get.
  destruct k as [|k]; [reflexivity|].
  change (nth (S (S k))
              ((if stackScaleToExtent then v0 else Num 0%float)
                 :: v0 :: cumulative v0 rest) Undefined)
    with (nth (S k) (v0 :: cumulative v0 rest) Undefined).
  change (nth (S k)
              ((if stackScaleToExtent then v0 else Num 0%float)
                 :: v0 :: cumulative v0 rest) Undefined)
    with (nth k (v0 :: cumulative v0 rest) Undefined).
  change (nth (S k) (v0 :: rest) Undefined) with (nth k rest Undefined).
  apply cumulative_nth. lia.
Qed.

Lemma absolute_values_number (stackScaleToExtent : bool) (stack : list value)
      (k : nat) :
  forallb notNullish stack = true ->
  0 < List.length stack ->
  k <= List.length stack ->
  notNullish (array_get (values (computeStackedValues stackScaleToExtent stack)) k)
  = true.
Proof.
  intros Hall Hpos Hk. destruct k as [|k].
  - destruct stack as [|v0 rest]; [simpl in Hpos; lia|].
    rewrite computeStackedValues_values. unfold array_get. cbn [nth].
    cbn [forallb] in Hall. apply andb_true_iff in Hall.
    destruct stackScaleToExtent; [apply Hall | reflexivity].
  - rewrite absolute_values_step by lia.
    destruct k as [|k]; [|reflexivity].
    destruct stack as [|v0 rest]; [simpl in Hk; lia|].
    simpl in Hall. apply andb_true_iff in Hall. apply Hall.
Qed.

(** The formatted [y1] of series [k] at an x value whose contributions are
    all numbers, outside percentage mode: the cumulative value above it,
    whatever [scaleToExtent] is for the stack and for the datum. *)
Lemma absolute_stacked_y1 {T : Type} (stackedValues : list (strnum * StackedValues))
      (stackScaleToExtent scaleToExtent : bool)
      (stack : list value) (data : RawDataSeriesDatum T) (k : nat)
      (fld : option FilledValues) (out : DataSeriesDatum T) :
  JsMap.get stackedValues (raw_x data)
  = Some (computeStackedValues stackScaleToExtent stack) ->
  forallb notNullish stack = true ->
  k < List.length stack ->
  raw_y1 data = nth k stack Undefined ->
  getStackedFormattedSeriesDatum data stackedValues k scaleToExtent false fld
  = Some out ->
  y1 out = array_get (values (computeStackedValues stackScaleToExtent stack)) (S k).
Proof.
  intros Hget Hall Hk Hy1. unfold getStackedFormattedSeriesDatum. rewrite Hget.
  rewrite (absolute_values_step stackScaleToExtent stack k Hk).
  assert (Hnum : notNullish (raw_y1 data) = true).
  { rewrite Hy1. rewrite forallb_forall in Hall. apply Hall, nth_In, Hk. }
  destruct k as [|k]; cbn [Nat.eqb].
  - intros [= <-]. cbn [y1]. exact Hy1.
  - rewrite (absolute_values_number stackScaleToExtent stack (S k) Hall) by lia.
    cbn [negb].
    destruct (raw_y1 data) as [| |a] eqn:Ea; try discriminate. cbn [strictNotNull].
    intros [= <-]. cbn [y1]. rewrite Hy1. reflexivity.
Qed.

(** Outside percentage mode, whatever [scaleToExtent] is for the stack and
    for the data, at an x value where every series contributes a number, a
    series without a [y0] of its own starts where the series below it
    ends: its formatted [y0] is the formatted [y1] of the series below. *)
Theorem stacked_series_are_contiguous
        {T : Type} (yValueStackMap : list (strnum * list value))
        (stackScaleToExtent scaleToExtent : bool)
        (stack : list value) (lower upper : RawDataSeriesDatum T) (k : nat)
        (fldL fldU : option FilledValues) (outL outU : DataSeriesDatum T) :
  let stackedValues := computeYStackedMapValues yValueStackMap stackScaleToExtent in
  JsMap.wfb yValueStackMap = true ->
  JsMap.get yValueStackMap (raw_x lower) = Some stack ->
  JsMap.get yValueStackMap (raw_x upper) = Some stack ->
  forallb notNullish stack = true ->
  S k < List.length stack ->
  raw_y1 lower = nth k stack Undefined ->
  raw_y1 upper = nth (S k) stack Undefined ->
  notNullish (raw_y0 upper) = false ->
  getStackedFormattedSeriesDatum lower stackedValues k scaleToExtent false fldL
  = Some outL ->
  getStackedFormattedSeriesDatum upper stackedValues (S k) scaleToExtent false fldU
  = Some outU ->
  y0 outU = y1 outL.
Proof.
  intros stackedValues Hwf HgL HgU Hall Hk HyL HyU Hy0 HoutL HoutU.
  assert (HsL : JsMap.get stackedValues (raw_x lower)
                = Some (computeStackedValues stackScaleToExtent stack)).
  { unfold stackedValues. rewrite computeYStackedMapValues_get, HgL by assumption.
    reflexivity. }
  assert (HsU : JsMap.get stackedValues (raw_x upper)
                = Some (computeStackedValues stackScaleToExtent stack)).
  { unfold stackedValues. rewrite computeYStackedMapValues_get, HgU by assumption.
    reflexivity. }
  rewrite (absolute_stacked_y1 stackedValues stackScaleToExtent scaleToExtent
                               stack lower k fldL outL HsL Hall
                               ltac:(lia) HyL HoutL).
  unfold getStackedFormattedSeriesDatum in HoutU. rewrite HsU in HoutU.
  cbn [Nat.eqb] in HoutU.
  rewrite (absolute_values_number stackScaleToExtent stack (S k) Hall) in HoutU
    by lia.
  cbn [negb] in HoutU. rewrite Hy0 in HoutU.
  assert (Hnum : notNullish (raw_y1 upper) = true).
  { rewrite HyU. rewrite forallb_forall in Hall. apply Hall, nth_In, Hk. }
  destruct (raw_y1 upper) as [| |a]; try discriminate.
  cbn [strictNotNull negb] in HoutU. injection HoutU as <-. reflexivity.
Qed.

Lemma stacked_series_are_contiguous_witness :
  let stackedValues := computeYStackedMapValues threeStackMap true in
  let outL : DataSeriesDatum unit :=
    {| x := SNum 1%float; y1 := Num 8%float; y0 := Num 3%float;
       initialY1 := Num 5%float; initialY0 := Null;
       mark := PNull; datum := Some tt; filled := None |} in
  let outU : DataSeriesDatum unit :=
    {| x := SNum 1%float; y1 := Num 12%float; y0 := Num 8%float;
       initialY1 := Num 4%float; initialY0 := Null;
       mark := PNull; datum := Some tt; filled := None |} in
  getStackedFormattedSeriesDatum (plainDatum 1 5) stackedValues 1 true false None
  = Some outL
  /\ getStackedFormattedSeriesDatum (plainDatum 1 4) stackedValues 2 true false None
     = Some outU
  /\ y0 outU = y1 outL.
Proof.
  split; [reflexivity|]. split; [reflexivity|].
  exact (stacked_series_are_contiguous
           threeStackMap true true [Num 3%float; Num 5%float; Num 4%float]
           (plainDatum 1 5) (plainDatum 1 4) 1 None None
           {| x := SNum 1%float; y1 := Num 8%float; y0 := Num 3%float;
              initialY1 := Num 5%float; initialY0 := Null;
              mark := PNull; datum := Some tt; filled := None |}
           {| x := SNum 1%float; y1 := Num 12%float; y0 := Num 8%float;
              initialY1 := Num 4%float; initialY0 := Null;
              mark := PNull; datum := Some tt; filled := None |}
           eq_refl eq_refl eq_refl eq_refl ltac:(simpl; lia) eq_refl eq_refl
           eq_refl eq_refl eq_refl).
Defined.

Lemma nth_length_last {A : Type} (l : list A) (a d : A) :
  nth (List.length l) (a :: l) d = last (a :: l) d.
Proof.
  revert a. induction l as [|b l IH]; intros a; [reflexivity|].
  change (nth (List.length l) (b :: l) d = last (b :: l) d). apply IH.
Qed.

(** Outside percentage mode, whatever [scaleToExtent] is for the stack and
    for the datum, at an x value where every series contributes a number,
    the formatted [y1] of the last series is the recorded total. *)
Theorem top_of_stack_is_total
        {T : Type} (yValueStackMap : list (strnum * list value))
        (stackScaleToExtent scaleToExtent : bool)
        (stack : list value) (data : RawDataSeriesDatum T) (k : nat)
        (fld : option FilledValues) (out : DataSeriesDatum T) :
  let stackedValues := computeYStackedMapValues yValueStackMap stackScaleToExtent in
  JsMap.wfb yValueStackMap = true ->
  JsMap.get yValueStackMap (raw_x data) = Some stack ->
  forallb notNullish stack = true ->
  List.length stack = S k ->
  raw_y1 data = nth k stack Undefined ->
  getStackedFormattedSeriesDatum data stackedValues k scaleToExtent false fld
  = Some out ->
  exists stacked,
    JsMap.get stackedValues (raw_x data) = Some stacked
    /\ y1 out = total stacked.
Proof.
  intros stackedValues Hwf Hg Hall Hlen Hy Hout.
  exists (computeStackedValues stackScaleToExtent stack).
  assert (Hs : JsMap.get stackedValues (raw_x data)
               = Some (computeStackedValues stackScaleToExtent stack)).
  { unfold stackedValues. rewrite computeYStackedMapValues_get, Hg by assumption.
    reflexivity. }
  split; [exact Hs|].
  rewrite (absolute_stacked_y1 stackedValues stackScaleToExtent scaleToExtent
                               stack data k fld out Hs Hall
                               ltac:(lia) Hy Hout).
  destruct stack as [|v0 rest]; [discriminate|].
  rewrite computeStackedValues_values, computeStackedValues_total.
  rewrite <- last_cumulative.
  assert (Hk : k = List.length rest) by (simpl in Hlen; lia).
  unfold array_get.
  change (nth (S k)
              ((if stackScaleToExtent then v0 else Num 0%float)
                 :: v0 :: cumulative v0 rest) Undefined)
    with (nth k (v0 :: cumulative v0 rest) Undefined).
  rewrite Hk, <- (cumulative_length v0 rest). apply nth_length_last.
Qed.

Lemma top_of_stack_is_total_witness :
  exists stacked,
    JsMap.get (computeYStackedMapValues threeStackMap true)
              (raw_x (plainDatum 1 4)) = Some stacked
    /\ y1 {| x := SNum 1%float; y1 := Num 12%float; y0 := Num 8%float;
             initialY1 := Num 4%float; initialY0 := Null;
             mark := PNull; datum := Some tt; filled := None |}
       = total stacked.
Proof.
  exact (top_of_stack_is_total
           threeStackMap true true [Num 3%float; Num 5%float; Num 4%float]
           (plainDatum 1 4) 2 None
           {| x := SNum 1%float; y1 := Num 12%float; y0 := Num 8%float;
              initialY1 := Num 4%float; initialY0 := Null;
              mark := PNull; datum := Some tt; filled := None |}
           eq_refl eq_refl eq_refl eq_refl eq_refl eq_refl).
Defined.


(** ** The order and the origin of the formatted data *)

Lemma sort_insert_never_before {A : Type} (cmp : A -> A -> float) (a : A)
      (sorted : list A) :
  (forall b, (cmp a b <? 0)%float = false) ->
  sort_insert cmp a sorted = sorted ++ [a].
Proof.
  intros Hc. induction sorted as [|b rest IH]; simpl; [reflexivity|].
  rewrite Hc, IH. reflexivity.
Qed.

(** A comparator that never answers a negative number leaves the array as
    it is. *)
Lemma array_sort_never_before {A : Type} (cmp : A -> A -> float) (l : list A) :
  (forall a b, (cmp a b <? 0)%float = false) -> array_sort cmp l = l.
Proof.
  intros Hc. unfold array_sort.
  assert (H : forall sorted,
             fold_left (fun sorted a => sort_insert cmp a sorted) l sorted
             = sorted ++ l).
  { induction l as [|a l IH]; intros sorted; simpl.
    - rewrite app_nil_r. reflexivity.
    - rewrite IH, sort_insert_never_before by (intros b; apply Hc).
      rewrite <- app_assoc. reflexivity. }
  apply (H []).
Qed.

Lemma mapi_from_nth_error {A B : Type} (f : A -> nat -> B) (l : list A) :
  forall (j i : nat) (a : A),
    nth_error l i = Some a -> nth_error (mapi_from f j l) i = Some (f a (j + i)).
Proof.
  induction l as [|b l IH]; intros j i a Hi; [destruct i; discriminate|].
  destruct i as [|i]; simpl in *.
  - injection Hi as ->. rewrite Nat.add_0_r. reflexivity.
  - rewrite (IH (S j) i a Hi). f_equal. f_equal. lia.
Qed.

Section Origin.
Context {T : Type}.
Implicit Types (stackedValues : list (strnum * StackedValues))
         (missing xValues : list strnum).

Lemma fold_stackDatum_has_data n index xValues (l : list (RawDataSeriesDatum T)) :
  forall st d,
    In d l ->
    JsMap.has (fst (fold_left (stackDatum n index xValues) l st)) (raw_x d) = true.
Proof.
  induction l as [|e l IH]; intros st d Hin; [contradiction|].
  cbn [fold_left]. destruct Hin as [->|Hin]; [|apply IH, Hin].
  destruct (fold_stackDatum n index xValues l (stackDatum n index xValues st d))
    as (_ & Hm & _).
  apply Hm. destruct st as [stackMap missing]. cbn [stackDatum fst].
  rewrite has_setStackValue, (key_eqb_refl (K := strnum)). reflexivity.
Qed.

Lemma stackSeries_has_data n xValues st (ds : RawDataSeries T) index d :
  In d (data ds) ->
  JsMap.has (fst (stackSeries n xValues st ds index)) (raw_x d) = true.
Proof.
  intros Hin. unfold stackSeries.
  pose proof (fold_stackDatum_has_data n index xValues (data ds) st d Hin) as H.
  destruct (fold_left (stackDatum n index xValues) (data ds) st)
    as [stackMap missing].
  destruct (fillMissing_spec n index missing stackMap) as (Hh & _).
  cbn [fst] in *. rewrite Hh, H. apply orb_true_r.
Qed.

Lemma reduce_stackSeries_has n xValues (l : list (RawDataSeries T)) :
  forall i st,
    let st' := reduce_from (stackSeries n xValues) i l st in
    (forall k, JsMap.has (fst st) k = true -> JsMap.has (fst st') k = true)
    /\ (forall ds d, In ds l -> In d (data ds) ->
                     JsMap.has (fst st') (raw_x d) = true).
Proof.
  induction l as [|ds l IH]; intros i st; cbn [reduce_from].
  - split; [auto|]. intros ds d [].
  - destruct (IH (S i) (stackSeries n xValues st ds i)) as (Hm & Hd).
    destruct (stackSeries_spec n xValues st ds i) as (_ & Hm1 & _).
    split.
    + intros k Hk. apply Hm, Hm1, Hk.
    + intros ds' d [<-|Hin] Hd'.
      * apply Hm, stackSeries_has_data, Hd'.
      * apply (Hd ds' d Hin Hd').
Qed.

(** Every datum of every series has its x value in the stack map. *)
Lemma getYValueStackMap_has_data (dataseries : list (RawDataSeries T)) xValues
      (ds : RawDataSeries T) (d : RawDataSeriesDatum T) :
  In ds dataseries -> In d (data ds) ->
  JsMap.has (getYValueStackMap dataseries xValues) (raw_x d) = true.
Proof.
  intros Hds Hd. unfold getYValueStackMap, array_reduce.
  destruct (reduce_stackSeries_has (List.length dataseries) xValues dataseries
                                   0 ([], xValues)) as (_ & H).
  apply (H ds d Hds Hd).
Qed.

Lemma getStackedFormattedSeriesDatum_passes
      (d : RawDataSeriesDatum T) stackedValues seriesIndex
      (scaleToExtent isPercentageMode : bool) (fld : option FilledValues) :
  JsMap.has stackedValues (raw_x d) = true ->
  exists out,
    getStackedFormattedSeriesDatum d stackedValues seriesIndex scaleToExtent
                                   isPercentageMode fld = Some out
    /\ x out = raw_x d /\ datum out = raw_datum d /\ filled out = fld.
Proof.
  unfold JsMap.has, getStackedFormattedSeriesDatum.
  destruct (JsMap.get stackedValues (raw_x d)) as [stack|]; [|discriminate].
  intros _. destruct (Nat.eqb seriesIndex 0); eexists; repeat split.
Qed.

Lemma fold_formatDatum_origin stackedValues seriesIndex
      (scaleToExtent isPercentageMode : bool)
      (l : list (RawDataSeriesDatum T)) :
  (forall d, In d l -> JsMap.has stackedValues (raw_x d) = true) ->
  forall newData missing,
  exists outs,
    fold_left (formatDatum stackedValues seriesIndex scaleToExtent isPercentageMode)
              l (newData, missing)
    = (newData ++ outs,
       fold_left (fun s d => JsSet.delete s (raw_x d)) l missing)
    /\ map (@x T) outs = map (@raw_x T) l
    /\ map (@datum T) outs = map (@raw_datum T) l
    /\ map (@filled T) outs = map (fun _ => None) l.
Proof.
  induction l as [|d l IH]; intros Hall newData missing; cbn [fold_left].
  - exists []. rewrite app_nil_r. auto.
  - destruct (getStackedFormattedSeriesDatum_passes
                d stackedValues seriesIndex scaleToExtent isPercentageMode None
                (Hall d (or_introl eq_refl))) as (out & Hout & Hx & Hd & Hf).
    unfold formatDatum at 2. rewrite Hout.
    destruct (IH (fun d' H => Hall d' (or_intror H))
                 (newData ++ [out]) (JsSet.delete missing (raw_x d)))
      as (outs & Hfold & Hxs & Hds & Hfs).
    exists (out :: outs). rewrite Hfold, <- app_assoc. cbn [map app].
    rewrite Hx, Hd, Hf, Hxs, Hds, Hfs. auto.
Qed.

Lemma fold_formatFilled_origin stackedValues seriesIndex
      (scaleToExtent isPercentageMode : bool) missing :
  (forall k, In k missing -> JsMap.has stackedValues k = true) ->
  forall newData,
  exists outs,
    fold_left (formatFilled stackedValues seriesIndex scaleToExtent isPercentageMode)
              missing newData
    = newData ++ outs
    /\ map (@x T) outs = missing
    /\ map (@datum T) outs = map (fun _ => None) missing
    /\ map (@filled T) outs = map (fun xv => Some (filledMarker xv)) missing.
Proof.
  induction missing as [|k missing IH]; intros Hall newData; cbn [fold_left].
  - exists []. rewrite app_nil_r. auto.
  - unfold formatFilled at 2.
    destruct (getStackedFormattedSeriesDatum_passes
                (filledDatum k) stackedValues seriesIndex scaleToExtent
                isPercentageMode (Some (filledMarker k))
                (Hall k (or_introl eq_refl))) as (out & Hout & Hx & Hd & Hf).
    rewrite Hout.
    destruct (IH (fun k' H => Hall k' (or_intror H)) (newData ++ [out]))
      as (outs & Hfold & Hxs & Hds & Hfs).
    exists (out :: outs). rewrite Hfold, <- app_assoc. cbn [map app].
    rewrite Hx, Hd, Hf, Hxs, Hds, Hfs. auto.
Qed.
End Origin.

(** The formatted series on an ordinal scale: the formatted data in their
    order, then the synthesised data in the order of the universe. *)
Lemma formatSeries_ordinal_data
      {T : Type} (dataseries : list (RawDataSeries T))
      (scaleToExtent isPercentageMode : bool) (xValues : list strnum)
      (ds : RawDataSeries T) (i : nat) :
  In ds dataseries ->
  let missing := fold_left (fun s d => JsSet.delete s (raw_x d)) (data ds) xValues in
  let out :=
    formatSeries
      (computeYStackedMapValues (getYValueStackMap dataseries xValues) scaleToExtent)
      scaleToExtent isPercentageMode xValues Ordinal ds i in
  seriesIdentifier out = seriesIdentifier ds
  /\ map (@x T) (data out) = map (@raw_x T) (data ds) ++ missing
  /\ map (@datum T) (data out)
     = map (@raw_datum T) (data ds) ++ map (fun _ => None) missing
  /\ map (@filled T) (data out)
     = map (fun _ => None) (data ds)
       ++ map (fun xv => Some (filledMarker xv)) missing.
Proof.
  intros Hin missing.
  assert (Hne : dataseries <> []) by (intros ->; contradiction Hin).
  set (stackedValues :=
         computeYStackedMapValues (getYValueStackMap dataseries xValues)
                                  scaleToExtent).
  assert (Hhas : forall k,
             JsMap.has (getYValueStackMap dataseries xValues) k = true ->
             JsMap.has stackedValues k = true).
  { intros k Hk. unfold JsMap.has, stackedValues in *.
    rewrite computeYStackedMapValues_get by apply getYValueStackMap_wfb.
    destruct (JsMap.get (getYValueStackMap dataseries xValues) k);
      [reflexivity | discriminate]. }
  cbv zeta. unfold formatSeries.
  destruct (fold_formatDatum_origin stackedValues i scaleToExtent isPercentageMode
              (data ds)) with (newData := @nil (DataSeriesDatum T))
                              (missing := xValues)
    as (outs & Hf & Hxs & Hds & Hfs).
  { intros d Hd. apply Hhas, (getYValueStackMap_has_data dataseries xValues ds d);
      assumption. }
  rewrite Hf. cbn [app].
  assert (Hmiss : forall k, In k missing -> JsMap.has stackedValues k = true).
  { intros k Hk. apply Hhas, getYValueStackMap_full; [exact Hne|].
    apply in_set_has, (in_fold_delete k (data ds)), Hk. }
  destruct (@fold_formatFilled_origin T stackedValues i scaleToExtent
              isPercentageMode missing Hmiss outs)
    as (fills & Hg & Hys & Hes & Hgs).
  fold missing. rewrite Hg.
  rewrite array_sort_never_before.
  - cbn [data seriesIdentifier with_data]. rewrite !map_app.
    rewrite Hxs, Hds, Hfs, Hys, Hes, Hgs. auto.
  - intros a b. unfold datumXSortPredicate.
    destruct (x a), (x b); reflexivity.
Qed.

(** Whatever the scale, the formatted series is the one of the ordinal
    scale, sorted. *)
Lemma formatSeries_via_ordinal
      {T : Type} (stackedValues : list (strnum * StackedValues))
      (scaleToExtent isPercentageMode : bool) (xValues : list strnum)
      (xScaleType : ScaleType) (ds : RawDataSeries T) (i : nat) :
  formatSeries stackedValues scaleToExtent isPercentageMode xValues xScaleType ds i
  = with_data ds
      (array_sort (datumXSortPredicate xScaleType)
         (data (formatSeries stackedValues scaleToExtent isPercentageMode xValues
                             Ordinal ds i))).
Proof.
  unfold formatSeries.
  destruct (fold_left (formatDatum stackedValues i scaleToExtent isPercentageMode)
                      (data ds) ([], xValues)) as [newData missing].
  rewrite (array_sort_never_before (datumXSortPredicate Ordinal)).
  - reflexivity.
  - intros a b. unfold datumXSortPredicate.
    destruct (x a), (x b); reflexivity.
Qed.

(** On an ordinal scale [formatStackedDataSeriesValues] returns, for the
    series at position [i], a series with the same identifier whose data
    are the formatted data of the series in their order, followed by one
    synthesised datum for every x value of the universe that the series
    lacks, in the order of the universe; the former keep their [datum] and
    carry no [filled] marker, the latter have no [datum] and carry the
    marker [{x, y1: 0}]. *)
Theorem formatStackedDataSeriesValues_ordinal_order
        {T : Type} (dataseries : list (RawDataSeries T))
        (scaleToExtent isPercentageMode : bool) (xValues : list strnum)
        (i : nat) (ds : RawDataSeries T) :
  nth_error dataseries i = Some ds ->
  let missing := fold_left (fun s d => JsSet.delete s (raw_x d)) (data ds) xValues in
  exists out,
    nth_error (formatStackedDataSeriesValues dataseries scaleToExtent
                 isPercentageMode xValues Ordinal) i = Some out
    /\ seriesIdentifier out = seriesIdentifier ds
    /\ map (@x T) (data out) = map (@raw_x T) (data ds) ++ missing
    /\ map (@datum T) (data out)
       = map (@raw_datum T) (data ds) ++ map (fun _ => None) missing
    /\ map (@filled T) (data out)
       = map (fun _ => None) (data ds)
         ++ map (fun xv => Some (filledMarker xv)) missing.
Proof.
  intros Hnth missing.
  assert (Hin : In ds dataseries) by (eapply nth_error_In; exact Hnth).
  eexists. split.
  - unfold formatStackedDataSeriesValues, array_mapi.
    apply (mapi_from_nth_error _ dataseries 0 i ds Hnth).
  - apply (formatSeries_ordinal_data dataseries scaleToExtent isPercentageMode
                                     xValues ds (0 + i) Hin).
Qed.

Lemma formatStackedDataSeriesValues_ordinal_order_witness :
  let missing :=
    fold_left (fun s d => JsSet.delete s (raw_x d)) (data exampleSeriesB)
              exampleXValues in
  nth_error [exampleSeriesA; exampleSeriesB] 1 = Some exampleSeriesB
  /\ exists out,
      nth_error (formatStackedDataSeriesValues [exampleSeriesA; exampleSeriesB]
                   false false exampleXValues Ordinal) 1 = Some out
      /\ seriesIdentifier out = seriesIdentifier exampleSeriesB
      /\ map (@x unit) (data out) = map (@raw_x unit) (data exampleSeriesB) ++ missing
      /\ map (@datum unit) (data out)
         = map (@raw_datum unit) (data exampleSeriesB) ++ map (fun _ => None) missing
      /\ map (@filled unit) (data out)
         = map (fun _ => None) (data exampleSeriesB)
           ++ map (fun xv => Some (filledMarker xv)) missing.
Proof.
  split; [reflexivity|].
  apply (formatStackedDataSeriesValues_ordinal_order
           [exampleSeriesA; exampleSeriesB] false false exampleXValues 1
           exampleSeriesB).
  reflexivity.
Defined.

(** ** Keys of maps and sets *)

Section KeyFacts.
Context {K : Type} `{MapKeyLaws K}.

Lemma keys_set {V : Type} (m : list (K * V)) (k : K) (v : V) :
  JsMap.keys (JsMap.set m k v)
  = if JsMap.has m k then JsMap.keys m else JsMap.keys m ++ [key_canon k].
Proof.
  unfold JsMap.has.
  induction m as [|[j w] m IH]; cbn [JsMap.set JsMap.get JsMap.keys map app];
    [reflexivity|].
  destruct (key_eqb j k); [reflexivity|].
  cbn [map fst]. fold (JsMap.keys (JsMap.set m k v)). rewrite IH.
  destruct (JsMap.get m k); reflexivity.
Qed.

Lemma map_has_keys {V : Type} (m : list (K * V)) (k : K) :
  JsMap.has m k = JsSet.has (JsMap.keys m) k.
Proof.
  unfold JsMap.has.
  induction m as [|[j w] m IH]; cbn [JsMap.get JsMap.keys map JsSet.has existsb fst];
    [reflexivity|].
  destruct (key_eqb j k); [reflexivity|]. exact IH.
Qed.

Lemma map_wfb_keys {V : Type} (m : list (K * V)) :
  JsMap.wfb m = JsSet.wfb (JsMap.keys m).
Proof.
  induction m as [|[j w] m IH]; cbn [JsMap.wfb JsMap.keys map JsSet.wfb fst];
    [reflexivity|].
  fold (JsMap.keys m). rewrite IH, map_has_keys. reflexivity.
Qed.

Lemma set_has_app (s s' : list K) (k : K) :
  JsSet.has (s ++ s') k = JsSet.has s k || JsSet.has s' k.
Proof. unfold JsSet.has. apply existsb_app. Qed.

Lemma set_wfb_app (s s' : list K) :
  JsSet.wfb (s ++ s')
  = JsSet.wfb s && JsSet.wfb s'
    && forallb (fun k => negb (JsSet.has s' k)) s.
Proof.
  induction s as [|j s IH]; cbn [app JsSet.wfb forallb].
  - rewrite andb_true_r. reflexivity.
  - rewrite IH, set_has_app.
    destruct (JsSet.has s j), (JsSet.has s' j), (JsSet.wfb s), (JsSet.wfb s');
      reflexivity.
Qed.

Lemma has_add (s : list K) (j k : K) :
  JsSet.has (JsSet.add s j) k = key_eqb j k || JsSet.has s k.
Proof.
  unfold JsSet.add. destruct (JsSet.has s j) eqn:E.
  - destruct (key_eqb j k) eqn:E'; [|reflexivity].
    rewrite <- (set_has_compat s j k E'), E. reflexivity.
  - rewrite set_has_app. cbn [JsSet.has existsb]. rewrite orb_false_r.
    rewrite (key_eqb_compat_l (key_canon j) j k (key_canon_eqb j)).
    apply orb_comm.
Qed.

Lemma wfb_add (s : list K) (j : K) :
  JsSet.wfb s = true -> JsSet.wfb (JsSet.add s j) = true.
Proof.
  intros Hwf. unfold JsSet.add. destruct (JsSet.has s j) eqn:E; [exact Hwf|].
  rewrite set_wfb_app, Hwf. cbn [JsSet.wfb JsSet.has existsb andb negb].
  apply forallb_forall. intros i Hi. rewrite orb_false_r.
  apply negb_true_iff. destruct (key_eqb (key_canon j) i) eqn:E'; [|reflexivity].
  rewrite key_eqb_sym in E'.
  assert (Hij : key_eqb i j = true).
  { apply (key_eqb_trans i (key_canon j) j E'), key_canon_eqb. }
  assert (Hh : JsSet.has s i = true).
  { apply existsb_exists. exists i. split; [exact Hi | apply key_eqb_refl]. }
  rewrite (set_has_compat s i j Hij), E in Hh. discriminate.
Qed.

Lemma has_fold_add (l s : list K) (k : K) :
  JsSet.has (fold_left JsSet.add l s) k = JsSet.has l k || JsSet.has s k.
Proof.
  revert s. induction l as [|j l IH]; intros s; cbn [fold_left]; [reflexivity|].
  rewrite IH, has_add. unfold JsSet.has. cbn [existsb].
  destruct (key_eqb j k), (existsb (fun i => key_eqb i k) l); reflexivity.
Qed.

Lemma wfb_fold_add (l s : list K) :
  JsSet.wfb s = true -> JsSet.wfb (fold_left JsSet.add l s) = true.
Proof.
  revert s. induction l as [|j l IH]; intros s Hwf; cbn [fold_left]; [exact Hwf|].
  apply IH, wfb_add, Hwf.
Qed.
End KeyFacts.

(** ** Colours: one entry per series, each with a colour *)

Lemma fold_assignColor_keys (chartColors : ColorConfig)
      (customColors : list (string * Color)) (overrides : ColorOverrides)
      (l : list (string * SeriesCollectionValue)) :
  JsMap.wfb l = true ->
  forall st,
    (forall k, JsMap.has l k = true -> JsMap.has (fst st) k = false) ->
    JsMap.keys (fst (fold_left (assignColor chartColors customColors overrides) l st))
    = JsMap.keys (fst st) ++ JsMap.keys l.
Proof.
  induction l as [|[j w] l IH]; intros Hwf [m c] Hnew; cbn [fold_left].
  - cbn [JsMap.keys map]. rewrite app_nil_r. reflexivity.
  - cbn [JsMap.wfb] in Hwf. apply andb_true_iff in Hwf. destruct Hwf as [Hj Hl].
    apply negb_true_iff in Hj. cbn [fst] in Hnew.
    assert (Hmj : JsMap.has m j = false).
    { apply Hnew. unfold JsMap.has. cbn [JsMap.get].
      change (key_eqb j j) with (String.eqb j j). rewrite String.eqb_refl.
      reflexivity. }
    rewrite IH; [|exact Hl|].
    + unfold assignColor at 1. cbn [fst]. rewrite (keys_set (K := string)), Hmj.
      cbn [JsMap.keys map fst key_canon string_MapKey].
      rewrite <- app_assoc. reflexivity.
    + intros k Hk. unfold assignColor. cbn [fst].
      rewrite (has_set (K := string)).
      change (key_eqb j k) with (String.eqb j k).
      destruct (String.eqb j k) eqn:E.
      * apply String.eqb_eq in E. subst k. rewrite Hk in Hj. discriminate.
      * apply Hnew. unfold JsMap.has in *. cbn [JsMap.get].
        change (key_eqb j k) with (String.eqb j k). rewrite E. exact Hk.
Qed.

(** The colour map of [getSeriesColors] has exactly the keys of the series
    collection, in the same order. *)
Theorem getSeriesColors_same_keys
        (seriesCollection : list (string * SeriesCollectionValue))
        (chartColors : ColorConfig) (customColors : list (string * Color))
        (overrides : ColorOverrides) :
  JsMap.wfb seriesCollection = true ->
  JsMap.keys (getSeriesColors seriesCollection chartColors customColors overrides)
  = JsMap.keys seriesCollection.
Proof.
  intros Hwf. unfold getSeriesColors.
  rewrite (fold_assignColor_keys chartColors customColors overrides
                                 seriesCollection Hwf ([], 0)); [reflexivity|].
  intros k _. reflexivity.
Qed.

Lemma getSeriesColors_same_keys_witness :
  JsMap.wfb exampleCollection = true
  /\ JsMap.keys (getSeriesColors exampleCollection examplePalette
                                 exampleCustomColors exampleOverrides)
     = JsMap.keys exampleCollection.
Proof.
  split; [reflexivity|].
  apply (getSeriesColors_same_keys exampleCollection examplePalette
                                   exampleCustomColors exampleOverrides).
  reflexivity.
Defined.

Lemma paletteColor_defined (chartColors : ColorConfig) (counter : nat) :
  vizColors chartColors <> [] ->
  exists color,
    paletteColor chartColors counter = Some color
    /\ In color (vizColors chartColors).
Proof.
  intros Hne. unfold paletteColor.
  destruct (Nat.eqb (List.length (vizColors chartColors)) 0) eqn:E.
  - apply Nat.eqb_eq in E. destruct (vizColors chartColors); [|discriminate].
    contradiction Hne. reflexivity.
  - apply Nat.eqb_neq in E.
    destruct (nth_error (vizColors chartColors)
                        (counter mod List.length (vizColors chartColors)))
      as [color|] eqn:En.
    + exists color. split; [reflexivity|]. eapply nth_error_In. exact En.
    + apply nth_error_None in En.
      pose proof (Nat.mod_upper_bound counter
                    (List.length (vizColors chartColors)) E). lia.
Qed.

Lemma fold_assignColor_defined (chartColors : ColorConfig)
      (customColors : list (string * Color)) (overrides : ColorOverrides)
      (P : string -> option Color -> Prop)
      (l : list (string * SeriesCollectionValue)) :
  (forall k counter,
      P k (if truthyColor (getHighestOverride k customColors overrides)
           then getHighestOverride k customColors overrides
           else paletteColor chartColors counter)) ->
  forall st,
    (forall k c, In (k, c) (fst st) -> P k c) ->
    forall k c,
      In (k, c) (fst (fold_left (assignColor chartColors customColors overrides) l st)) ->
      P k c.
Proof.
  intros HP. induction l as [|[j w] l IH]; intros [m n] Hm k c; cbn [fold_left].
  - apply Hm.
  - apply IH. unfold assignColor. cbn [fst]. intros k' c' Hin.
    apply string_set_in in Hin. destruct Hin as [Hin|[-> ->]].
    + apply (Hm k' c' Hin).
    + apply HP.
Qed.

(** With a non-empty palette no series is left without a colour: every
    entry of the colour map holds a colour, which is the series' highest
    override or a colour of the palette. *)
Theorem getSeriesColors_always_defined
        (seriesCollection : list (string * SeriesCollectionValue))
        (chartColors : ColorConfig) (customColors : list (string * Color))
        (overrides : ColorOverrides) (seriesKey : string) (c : option Color) :
  vizColors chartColors <> [] ->
  In (seriesKey, c)
     (getSeriesColors seriesCollection chartColors customColors overrides) ->
  exists color,
    c = Some color
    /\ (getHighestOverride seriesKey customColors overrides = Some color
        \/ In color (vizColors chartColors)).
Proof.
  intros Hne. unfold getSeriesColors.
  apply (fold_assignColor_defined chartColors customColors overrides
           (fun k c => exists color,
                c = Some color
                /\ (getHighestOverride k customColors overrides = Some color
                    \/ In color (vizColors chartColors)))).
  - intros k counter.
    destruct (getHighestOverride k customColors overrides) as [color|] eqn:E;
      cbn [truthyColor].
    + destruct (negb (String.eqb color "")).
      * exists color. auto.
      * destruct (paletteColor_defined chartColors counter Hne) as (p & -> & Hp).
        exists p. auto.
    + destruct (paletteColor_defined chartColors counter Hne) as (p & -> & Hp).
      exists p. auto.
  - intros k' c' [].
Qed.

Lemma getSeriesColors_always_defined_witness :
  vizColors examplePalette <> []
  /\ In ("A"%string, Some "red"%string)
        (getSeriesColors exampleCollection examplePalette exampleCustomColors
                         exampleOverrides)
  /\ exists color,
      Some "red"%string = Some color
      /\ (getHighestOverride "A"%string exampleCustomColors exampleOverrides
          = Some color
          \/ In color (vizColors examplePalette)).
Proof.
  split; [discriminate|]. split; [left; reflexivity|].
  apply (getSeriesColors_always_defined exampleCollection examplePalette
           exampleCustomColors exampleOverrides "A"%string (Some "red"%string)).
  - discriminate.
  - left. reflexivity.
Defined.


(** ** Cleaning a datum *)




(** ** The series that [splitSeries] builds *)

Section StringMaps.
Context {V : Type}.
Implicit Types (m : list (string * V)).

Lemma string_get_in m k v : JsMap.get m k = Some v -> In (k, v) m.
Proof.
  induction m as [|[j w] m IH]; cbn [JsMap.get]; [discriminate|].
  change (key_eqb j k) with (String.eqb j k).
  destruct (String.eqb j k) eqn:E.
  - apply String.eqb_eq in E. subst j. intros [= ->]. left. reflexivity.
  - intros Hg. right. apply IH, Hg.
Qed.

Lemma string_in_has m k v : In (k, v) m -> JsMap.has m k = true.
Proof.
  unfold JsMap.has.
  induction m as [|[j w] m IH]; cbn [JsMap.get In]; [intros []|].
  change (key_eqb j k) with (String.eqb j k).
  intros [[= -> ->]|Hin].
  - rewrite String.eqb_refl. reflexivity.
  - destruct (String.eqb j k); [reflexivity | apply IH, Hin].
Qed.

Lemma string_wf_in_get m k v :
  JsMap.wfb m = true -> In (k, v) m -> JsMap.get m k = Some v.
Proof.
  induction m as [|[j w] m IH]; cbn [JsMap.wfb JsMap.get In]; [intros _ []|].
  intros Hwf Hin. apply andb_true_iff in Hwf. destruct Hwf as [Hj Hm].
  apply negb_true_iff in Hj.
  change (key_eqb j k) with (String.eqb j k).
  destruct Hin as [[= -> ->]|Hin].
  - rewrite String.eqb_refl. reflexivity.
  - destruct (String.eqb j k) eqn:E.
    + apply String.eqb_eq in E. subst j.
      rewrite (string_in_has m k v Hin) in Hj. discriminate.
    + apply IH; assumption.
Qed.

Lemma string_set_in_new m j w : In (j, w) (JsMap.set m j w).
Proof.
  induction m as [|[i u] m IH]; cbn [JsMap.set]; [left; reflexivity|].
  change (key_eqb i j) with (String.eqb i j).
  destruct (String.eqb i j) eqn:E.
  - apply String.eqb_eq in E. subst i. left. reflexivity.
  - right. exact IH.
Qed.

Lemma string_set_keeps m j w k v :
  In (k, v) m ->
  In (k, v) (JsMap.set m j w) \/ (k = j /\ JsMap.get m j = Some v).
Proof.
  induction m as [|[i u] m IH]; cbn [JsMap.set JsMap.get In]; [intros []|].
  change (key_eqb i j) with (String.eqb i j).
  intros [[= -> ->]|Hin].
  - destruct (String.eqb k j) eqn:E.
    + right. apply String.eqb_eq in E. auto.
    + left. left. reflexivity.
  - destruct (String.eqb i j) eqn:E.
    + left. right. exact Hin.
    + destruct (IH Hin) as [Hs|Hs]; [left; right; exact Hs | right; exact Hs].
Qed.
End StringMaps.

Lemma fold_left_pointwise {A B : Type} (f g : A -> B -> A) (l : list B) :
  (forall a b, f a b = g a b) ->
  forall a, fold_left f l a = fold_left g l a.
Proof.
  intros Hfg. induction l as [|b l IH]; intros a; cbn [fold_left]; [reflexivity|].
  rewrite Hfg. apply IH.
Qed.

Section Splitter.
Variable NumberToString : float -> string.
Variable StringToNumber : string -> float.
Variable spec : BasicSeriesSpec.
Implicit Types (st : SplitState) (s : RawDataSeries Datum)
         (d cleaned : RawDataSeriesDatum Datum) (datum : Datum).

(** The two branches of the loop of [splitSeries] are one loop over the y
    accessors. *)
Lemma splitSeries_fold :
  splitSeries NumberToString StringToNumber spec
  = {| rawDataSeries :=
         JsMap.values
           (st_series
              (fold_left (splitStep NumberToString StringToNumber spec)
                         (spec_data spec)
                         {| st_series := []; st_colorsValues := [];
                            st_xValues := [] |}));
       colorsValues :=
         st_colorsValues
           (fold_left (splitStep NumberToString StringToNumber spec)
                      (spec_data spec)
                      {| st_series := []; st_colorsValues := [];
                         st_xValues := [] |});
       split_xValues :=
         st_xValues
           (fold_left (splitStep NumberToString StringToNumber spec)
                      (spec_data spec)
                      {| st_series := []; st_colorsValues := [];
                         st_xValues := [] |}) |}.
Proof.
  unfold splitSeries. cbv zeta.
  match goal with
  | |- context [fold_left ?f (spec_data spec) ?a] =>
      rewrite (fold_left_pointwise
                 f (splitStep NumberToString StringToNumber spec) (spec_data spec))
  end; [reflexivity|].
  intros st datum. unfold splitStep, takesDatum, splitAccessorsOf, y0AccessorAt.
  destruct (Nat.ltb 0 _ && Nat.ltb _ 1); cbn [negb]; [reflexivity|].
  unfold spec_yAccessors, array_reduce.
  destruct (spec_yAccessors_rest spec) as [|a rest]; reflexivity.
Qed.

Lemma seriesOf_with_data s cleaned :
  seriesOf NumberToString StringToNumber spec s ->
  cleanedFrom NumberToString StringToNumber spec (key (seriesIdentifier s)) cleaned ->
  seriesOf NumberToString StringToNumber spec
           (with_data s (data s ++ [cleaned])).
Proof.
  intros (Hid & Hy & Hsplit & Hkey & Hkeys & Hne & Hdata) Hc.
  unfold seriesOf, with_data. cbn [seriesIdentifier data].
  split; [exact Hid|]. split; [exact Hy|]. split; [exact Hsplit|].
  split; [exact Hkey|]. split; [exact Hkeys|]. split.
  - intros Habs. apply app_eq_nil in Habs. destruct Habs as [_ Habs].
    discriminate.
  - intros d Hd. apply in_app_or in Hd. destruct Hd as [Hd|[<-|[]]].
    + apply Hdata, Hd.
    + exact Hc.
Qed.

Lemma set_series_inv st (seriesKey : string) (v : RawDataSeries Datum) cleaned :
  splitInv NumberToString StringToNumber spec st ->
  seriesKey = key (seriesIdentifier v) ->
  seriesOf NumberToString StringToNumber spec v ->
  In cleaned (data v) ->
  (forall s, JsMap.get (st_series st) seriesKey = Some s ->
             forall d, In d (data s) -> In d (data v)) ->
  (forall d, In d (data v) ->
             d = cleaned
             \/ exists s, In (seriesKey, s) (st_series st) /\ In d (data s)) ->
  splitInv NumberToString StringToNumber spec
           {| st_series := JsMap.set (st_series st) seriesKey v;
              st_colorsValues := JsSet.add (st_colorsValues st) seriesKey;
              st_xValues := JsSet.add (st_xValues st) (raw_x cleaned) |}.
Proof.
  intros (Hwf & Hser & Hcol & Hxwf & Hxs) Hkey Hv Hin Hold Hnew.
  unfold splitInv. cbn [st_series st_colorsValues st_xValues].
  split; [apply (wfb_set (K := string)), Hwf|].
  split; [|split; [|split]].
  - intros k s Hks. apply string_set_in in Hks.
    destruct Hks as [Hks|[-> ->]].
    + destruct (Hser k s Hks) as (Hk & Hs & Hd).
      split; [exact Hk|]. split; [exact Hs|].
      intros d Hd'. rewrite (has_add (K := strnum)), (Hd d Hd').
      apply orb_true_r.
    + split; [exact Hkey|]. split; [exact Hv|].
      intros d Hd. rewrite (has_add (K := strnum)).
      destruct (Hnew d Hd) as [->|(s & Hs & Hds)].
      * rewrite (key_eqb_refl (K := strnum)). reflexivity.
      * destruct (Hser seriesKey s Hs) as (_ & _ & Hx).
        rewrite (Hx d Hds). apply orb_true_r.
  - rewrite (keys_set (K := string)), Hcol. unfold JsSet.add.
    rewrite <- (map_has_keys (K := string)). reflexivity.
  - apply (wfb_add (K := strnum)), Hxwf.
  - intros xv Hxv. rewrite (has_add (K := strnum)) in Hxv.
    apply orb_true_iff in Hxv. destruct Hxv as [Hxv|Hxv].
    + exists seriesKey, v, cleaned.
      split; [apply string_set_in_new|]. split; [exact Hin | exact Hxv].
    + destruct (Hxs xv Hxv) as (k & s & d & Hks & Hd & Hdx).
      destruct (string_set_keeps (st_series st) seriesKey v k s Hks)
        as [Hk|[-> Hg]].
      * exists k, s, d. auto.
      * exists seriesKey, v, d.
        split; [apply string_set_in_new|]. split; [|exact Hdx].
        apply (Hold s Hg d Hd).
Qed.

Lemma addCleanedDatum_inv st datum (accessor : strnum) (index : nat) :
  In datum (spec_data spec) ->
  takesDatum NumberToString spec datum = true ->
  nth_error (spec_yAccessors spec) index = Some accessor ->
  splitInv NumberToString StringToNumber spec st ->
  splitInv NumberToString StringToNumber spec
    (addCleanedDatum NumberToString StringToNumber (spec_id spec)
       (getSplitAccessors NumberToString datum (splitAccessorsOf spec)) accessor
       (cleanDatum NumberToString StringToNumber datum (spec_xAccessor spec)
                   accessor (y0AccessorAt spec index) (spec_markSizeAccessor spec))
       st).
Proof.
  intros Hdatum Htakes Hacc Hinv. unfold addCleanedDatum.
  destruct (cleanDatum NumberToString StringToNumber datum (spec_xAccessor spec)
                       accessor (y0AccessorAt spec index)
                       (spec_markSizeAccessor spec)) as [cleaned|] eqn:Hclean;
    [|exact Hinv].
  assert (Hfrom : cleanedFrom NumberToString StringToNumber spec
                    (getSeriesKey NumberToString StringToNumber (spec_id spec)
                       accessor
                       (getSplitAccessors NumberToString datum (splitAccessorsOf spec)))
                    cleaned).
  { exists datum, accessor, index. auto. }
  unfold updateSeriesMap.
  destruct (JsMap.get (st_series st) _) as [series|] eqn:Hget.
  - pose proof Hinv as (Hwf & Hser & _).
    destruct (Hser _ series (string_get_in _ _ _ Hget)) as (Hk & Hs & _).
    apply set_series_inv.
    + exact Hinv.
    + exact Hk.
    + apply seriesOf_with_data; [exact Hs|]. rewrite <- Hk. exact Hfrom.
    + cbn [with_data data]. apply in_or_app. right. left. reflexivity.
    + intros s Hs' d Hd. rewrite Hget in Hs'. injection Hs' as <-.
      cbn [with_data data]. apply in_or_app. left. exact Hd.
    + cbn [with_data data]. intros d Hd. apply in_app_or in Hd.
      destruct Hd as [Hd|[<-|[]]]; [right | left; reflexivity].
      exists series. split; [apply string_get_in, Hget | exact Hd].
  - apply set_series_inv.
    + exact Hinv.
    + reflexivity.
    + unfold seriesOf. cbn [seriesIdentifier data specId yAccessor splitAccessors
                                             key seriesKeys].
      split; [reflexivity|]. split; [eapply nth_error_In; exact Hacc|].
      split; [exists datum; auto|]. split; [reflexivity|].
      split; [reflexivity|]. split; [discriminate|].
      intros d [<-|[]]. exact Hfrom.
    + left. reflexivity.
    + intros s Hs'. rewrite Hget in Hs'. discriminate.
    + cbn [data]. intros d [<-|[]]. left. reflexivity.
Qed.

Lemma reduce_accessors_inv datum (l : list strnum) :
  In datum (spec_data spec) ->
  takesDatum NumberToString spec datum = true ->
  forall (i : nat) st,
    (forall j a, nth_error l j = Some a ->
                 nth_error (spec_yAccessors spec) (i + j) = Some a) ->
    splitInv NumberToString StringToNumber spec st ->
    splitInv NumberToString StringToNumber spec
      (reduce_from
         (fun st accessor index =>
            addCleanedDatum NumberToString StringToNumber (spec_id spec)
              (getSplitAccessors NumberToString datum (splitAccessorsOf spec))
              accessor
              (cleanDatum NumberToString StringToNumber datum (spec_xAccessor spec)
                          accessor (y0AccessorAt spec index)
                          (spec_markSizeAccessor spec))
              st)
         i l st).
Proof.
  intros Hdatum Htakes. induction l as [|a l IH]; intros i st Hl Hinv;
    cbn [reduce_from]; [exact Hinv|].
  apply IH.
  - intros j b Hj. rewrite Nat.add_succ_comm. apply Hl. exact Hj.
  - apply addCleanedDatum_inv; try assumption.
    rewrite <- (Nat.add_0_r i). apply Hl. reflexivity.
Qed.

Lemma splitStep_inv st datum :
  In datum (spec_data spec) ->
  splitInv NumberToString StringToNumber spec st ->
  splitInv NumberToString StringToNumber spec
           (splitStep NumberToString StringToNumber spec st datum).
Proof.
  intros Hdatum Hinv. unfold splitStep.
  destruct (takesDatum NumberToString spec datum) eqn:Htakes; [|exact Hinv].
  apply reduce_accessors_inv; try assumption. intros j a Hj. exact Hj.
Qed.

Lemma fold_splitStep_inv (l : list Datum) :
  (forall datum, In datum l -> In datum (spec_data spec)) ->
  forall st,
    splitInv NumberToString StringToNumber spec st ->
    splitInv NumberToString StringToNumber spec
             (fold_left (splitStep NumberToString StringToNumber spec) l st).
Proof.
  induction l as [|datum l IH]; intros Hl st Hinv; cbn [fold_left]; [exact Hinv|].
  apply IH; [intros d Hd; apply Hl; right; exact Hd|].
  apply splitStep_inv; [apply Hl; left; reflexivity | exact Hinv].
Qed.

Lemma splitSeries_inv :
  splitInv NumberToString StringToNumber spec
           (fold_left (splitStep NumberToString StringToNumber spec)
                      (spec_data spec)
                      {| st_series := []; st_colorsValues := [];
                         st_xValues := [] |}).
Proof.
  apply fold_splitStep_inv; [auto|].
  unfold splitInv. cbn [st_series st_colorsValues st_xValues].
  split; [reflexivity|]. split; [intros k s []|]. split; [reflexivity|].
  split; [reflexivity|]. intros xv Hxv. discriminate.
Qed.

(** *** No datum is lost *)

Lemma addCleanedDatum_holds_old st (splitAccs : list (strnum * strnum))
      (accessor : strnum) (c : option (RawDataSeriesDatum Datum))
      (seriesKey : string) d :
  holdsDatum seriesKey d st ->
  holdsDatum seriesKey d
             (addCleanedDatum NumberToString StringToNumber (spec_id spec)
                              splitAccs accessor c st).
Proof.
  intros (s & Hs & Hd). unfold addCleanedDatum.
  destruct c as [cleaned|]; [|exists s; auto].
  unfold updateSeriesMap, holdsDatum.
  set (newKey := getSeriesKey NumberToString StringToNumber (spec_id spec)
                              accessor splitAccs).
  destruct (JsMap.get (st_series st) newKey) as [series|] eqn:Hget;
    cbn [st_series].
  - destruct (string_set_keeps (st_series st) newKey
                (with_data series (data series ++ [cleaned])) seriesKey s Hs)
      as [Hk|[-> Hg]].
    + exists s. auto.
    + rewrite Hget in Hg. injection Hg as ->.
      exists (with_data s (data s ++ [cleaned])).
      split; [apply string_set_in_new|].
      cbn [with_data data]. apply in_or_app. left. exact Hd.
  - match goal with
    | |- context [JsMap.set _ _ ?v] =>
        destruct (string_set_keeps (st_series st) newKey v seriesKey s Hs)
        as [Hk|[-> Hg]]
    end.
    + exists s. auto.
    + rewrite Hget in Hg. discriminate.
Qed.

Lemma addCleanedDatum_holds_new st (splitAccs : list (strnum * strnum))
      (accessor : strnum) cleaned :
  holdsDatum (getSeriesKey NumberToString StringToNumber (spec_id spec)
                           accessor splitAccs)
             cleaned
             (addCleanedDatum NumberToString StringToNumber (spec_id spec)
                              splitAccs accessor (Some cleaned) st).
Proof.
  unfold addCleanedDatum, updateSeriesMap, holdsDatum.
  destruct (JsMap.get (st_series st) _) as [series|]; cbn [st_series];
    eexists; (split; [apply string_set_in_new|]); cbn [with_data data].
  - apply in_or_app. right. left. reflexivity.
  - left. reflexivity.
Qed.

Lemma reduce_accessors_holds_old datum (l : list strnum) (seriesKey : string) d :
  forall (i : nat) st,
    holdsDatum seriesKey d st ->
    holdsDatum seriesKey d
      (reduce_from
         (fun st accessor index =>
            addCleanedDatum NumberToString StringToNumber (spec_id spec)
              (getSplitAccessors NumberToString datum (splitAccessorsOf spec))
              accessor
              (cleanDatum NumberToString StringToNumber datum (spec_xAccessor spec)
                          accessor (y0AccessorAt spec index)
                          (spec_markSizeAccessor spec))
              st)
         i l st).
Proof.
  induction l as [|a l IH]; intros i st Hst; cbn [reduce_from]; [exact Hst|].
  apply IH, addCleanedDatum_holds_old, Hst.
Qed.

Lemma reduce_accessors_holds_new datum (l : list strnum) :
  forall (i j : nat) (accessor : strnum) cleaned st,
    nth_error l j = Some accessor ->
    cleanDatum NumberToString StringToNumber datum (spec_xAccessor spec)
               accessor (y0AccessorAt spec (i + j)) (spec_markSizeAccessor spec)
    = Some cleaned ->
    holdsDatum
      (getSeriesKey NumberToString StringToNumber (spec_id spec) accessor
                    (getSplitAccessors NumberToString datum (splitAccessorsOf spec)))
      cleaned
      (reduce_from
         (fun st accessor index =>
            addCleanedDatum NumberToString StringToNumber (spec_id spec)
              (getSplitAccessors NumberToString datum (splitAccessorsOf spec))
              accessor
              (cleanDatum NumberToString StringToNumber datum (spec_xAccessor spec)
                          accessor (y0AccessorAt spec index)
                          (spec_markSizeAccessor spec))
              st)
         i l st).
Proof.
  induction l as [|a l IH]; intros i j accessor cleaned st Hj Hclean;
    [destruct j; discriminate|].
  cbn [reduce_from]. destruct j as [|j]; cbn [nth_error] in Hj.
  - injection Hj as ->. rewrite Nat.add_0_r in Hclean. rewrite Hclean.
    apply reduce_accessors_holds_old, addCleanedDatum_holds_new.
  - apply (IH (S i) j accessor cleaned); [exact Hj|].
    rewrite Nat.add_succ_comm. exact Hclean.
Qed.

Lemma splitStep_holds_old st datum (seriesKey : string) d :
  holdsDatum seriesKey d st ->
  holdsDatum seriesKey d (splitStep NumberToString StringToNumber spec st datum).
Proof.
  intros Hst. unfold splitStep.
  destruct (takesDatum NumberToString spec datum); [|exact Hst].
  apply reduce_accessors_holds_old, Hst.
Qed.

Lemma fold_splitStep_holds_old (l : list Datum) (seriesKey : string) d :
  forall st,
    holdsDatum seriesKey d st ->
    holdsDatum seriesKey d
               (fold_left (splitStep NumberToString StringToNumber spec) l st).
Proof.
  induction l as [|datum l IH]; intros st Hst; cbn [fold_left]; [exact Hst|].
  apply IH, splitStep_holds_old, Hst.
Qed.

Lemma fold_splitStep_holds_new (l : list Datum) datum (index : nat)
      (accessor : strnum) cleaned :
  In datum l ->
  takesDatum NumberToString spec datum = true ->
  nth_error (spec_yAccessors spec) index = Some accessor ->
  cleanDatum NumberToString StringToNumber datum (spec_xAccessor spec)
             accessor (y0AccessorAt spec index) (spec_markSizeAccessor spec)
  = Some cleaned ->
  forall st,
    holdsDatum
      (getSeriesKey NumberToString StringToNumber (spec_id spec) accessor
                    (getSplitAccessors NumberToString datum (splitAccessorsOf spec)))
      cleaned
      (fold_left (splitStep NumberToString StringToNumber spec) l st).
Proof.
  intros Hin Htakes Hacc Hclean.
  induction l as [|e l IH]; intros st; [contradiction|]. cbn [fold_left].
  destruct Hin as [->|Hin]; [|apply (IH Hin)].
  apply fold_splitStep_holds_old. unfold splitStep. rewrite Htakes.
  apply (reduce_accessors_holds_new datum (spec_yAccessors spec) 0 index
                                    accessor cleaned st Hacc Hclean).
Qed.

End Splitter.

Lemma string_set_wfb_NoDup (l : list string) : JsSet.wfb l = true -> NoDup l.
Proof.
  induction l as [|k l IH]; cbn [JsSet.wfb]; intros Hwf; [constructor|].
  apply andb_true_iff in Hwf. destruct Hwf as [Hk Hl].
  apply negb_true_iff in Hk. constructor; [|apply IH, Hl].
  intros Hin. assert (Hh : JsSet.has l k = true).
  { apply existsb_exists. exists k. split; [exact Hin | apply String.eqb_refl]. }
  rewrite Hh in Hk. discriminate.
Qed.

Lemma in_values {K V : Type} (m : list (K * V)) (v : V) :
  In v (JsMap.values m) <-> exists k, In (k, v) m.
Proof.
  unfold JsMap.values. rewrite in_map_iff. split.
  - intros ([k w] & <- & Hin). exists k. exact Hin.
  - intros (k & Hin). exists (k, v). auto.
Qed.

(** Every series that [splitSeries] returns belongs to the spec: it has
    the id of the spec and one of its y accessors, its split accessors are
    those of one datum of the spec, its key is the series key of its
    identifier, its [seriesKeys] are the split values followed by the y
    accessor, it has at least one datum, and each of its data is the
    cleaned form of a datum of the spec that has the key of the series and
    whose x value is in the returned [xValues]. *)
Theorem splitSeries_series_belong_to_spec
        (NumberToString : float -> string) (StringToNumber : string -> float)
        (spec : BasicSeriesSpec) (s : RawDataSeries Datum) :
  let result := splitSeries NumberToString StringToNumber spec in
  In s (rawDataSeries result) ->
  specId (seriesIdentifier s) = spec_id spec
  /\ In (yAccessor (seriesIdentifier s)) (spec_yAccessors spec)
  /\ (exists datum,
         In datum (spec_data spec)
         /\ splitAccessors (seriesIdentifier s)
            = getSplitAccessors NumberToString datum (splitAccessorsOf spec))
  /\ key (seriesIdentifier s)
     = getSeriesKey NumberToString StringToNumber (spec_id spec)
                    (yAccessor (seriesIdentifier s))
                    (splitAccessors (seriesIdentifier s))
  /\ seriesKeys (seriesIdentifier s)
     = JsMap.values (splitAccessors (seriesIdentifier s))
       ++ [yAccessor (seriesIdentifier s)]
  /\ data s <> []
  /\ forall d,
      In d (data s) ->
      JsSet.has (split_xValues result) (raw_x d) = true
      /\ exists datum accessor index,
          In datum (spec_data spec)
          /\ takesDatum NumberToString spec datum = true
          /\ nth_error (spec_yAccessors spec) index = Some accessor
          /\ cleanDatum NumberToString StringToNumber datum (spec_xAccessor spec)
                        accessor (y0AccessorAt spec index)
                        (spec_markSizeAccessor spec) = Some d
          /\ getSeriesKey NumberToString StringToNumber (spec_id spec) accessor
                          (getSplitAccessors NumberToString datum
                                             (splitAccessorsOf spec))
             = key (seriesIdentifier s).
Proof.
  intros result. unfold result. rewrite splitSeries_fold.
  cbn [rawDataSeries split_xValues]. intros Hin.
  apply in_values in Hin. destruct Hin as (k & Hin).
  destruct (splitSeries_inv NumberToString StringToNumber spec)
    as (_ & Hser & _).
  destruct (Hser k s Hin)
    as (_ & (Hid & Hy & Hsplit & Hkey & Hkeys & Hne & Hdata) & Hx).
  split; [exact Hid|]. split; [exact Hy|]. split; [exact Hsplit|].
  split; [exact Hkey|]. split; [exact Hkeys|]. split; [exact Hne|].
  intros d Hd. split; [apply Hx, Hd | apply Hdata, Hd].
Qed.

Lemma splitSeries_series_belong_to_spec_witness :
  let result :=
    splitSeries exampleNumberToString exampleStringToNumber exampleSpec in
  let s := nth 0 (rawDataSeries result)
               {| seriesIdentifier := exampleIdentifier ""%string; data := [] |} in
  In s (rawDataSeries result)
  /\ specId (seriesIdentifier s) = spec_id exampleSpec
  /\ key (seriesIdentifier s)
     = getSeriesKey exampleNumberToString exampleStringToNumber
                    (spec_id exampleSpec) (yAccessor (seriesIdentifier s))
                    (splitAccessors (seriesIdentifier s))
  /\ data s <> [].
Proof.
  assert (Hin : In (nth 0 (rawDataSeries
                             (splitSeries exampleNumberToString
                                          exampleStringToNumber exampleSpec))
                        {| seriesIdentifier := exampleIdentifier ""%string;
                           data := [] |})
                   (rawDataSeries
                      (splitSeries exampleNumberToString exampleStringToNumber
                                   exampleSpec))).
  { vm_compute. left. reflexivity. }
  split; [exact Hin|].
  destruct (splitSeries_series_belong_to_spec
              exampleNumberToString exampleStringToNumber exampleSpec _ Hin)
    as (Hid & _ & _ & Hkey & _ & Hne & _).
  split; [exact Hid|]. split; [exact Hkey | exact Hne].
Defined.

(** The series that [splitSeries] returns have pairwise distinct keys, and
    the returned [colorsValues] are these keys, in the order of the
    series. *)
Theorem splitSeries_distinct_keys
        (NumberToString : float -> string) (StringToNumber : string -> float)
        (spec : BasicSeriesSpec) :
  let result := splitSeries NumberToString StringToNumber spec in
  colorsValues result
  = map (fun s => key (seriesIdentifier s)) (rawDataSeries result)
  /\ NoDup (map (fun s => key (seriesIdentifier s)) (rawDataSeries result)).
Proof.
  intros result. unfold result. rewrite splitSeries_fold.
  cbn [rawDataSeries colorsValues].
  destruct (splitSeries_inv NumberToString StringToNumber spec)
    as (Hwf & Hser & Hcol & _).
  set (st := fold_left (splitStep NumberToString StringToNumber spec)
                       (spec_data spec)
                       {| st_series := []; st_colorsValues := [];
                          st_xValues := [] |}) in *.
  assert (Hkeys : JsMap.keys (st_series st)
                  = map (fun s => key (seriesIdentifier s))
                        (JsMap.values (st_series st))).
  { unfold JsMap.keys, JsMap.values. rewrite map_map.
    apply map_ext_in. intros [k s] Hin. destruct (Hser k s Hin) as (-> & _).
    reflexivity. }
  rewrite <- Hkeys. split; [exact Hcol|].
  apply string_set_wfb_NoDup. rewrite <- (map_wfb_keys (K := string)). exact Hwf.
Qed.

(** The returned [xValues] are a set, and they are exactly the x values of
    the data of the returned series. *)
Theorem splitSeries_xValues_are_the_data_x
        (NumberToString : float -> string) (StringToNumber : string -> float)
        (spec : BasicSeriesSpec) (xv : strnum) :
  let result := splitSeries NumberToString StringToNumber spec in
  JsSet.wfb (split_xValues result) = true
  /\ (JsSet.has (split_xValues result) xv = true
      <-> exists s d,
          In s (rawDataSeries result) /\ In d (data s)
          /\ sameValueZero (raw_x d) xv = true).
Proof.
  intros result. unfold result. rewrite splitSeries_fold.
  cbn [rawDataSeries split_xValues].
  destruct (splitSeries_inv NumberToString StringToNumber spec)
    as (_ & Hser & _ & Hxwf & Hxs).
  split; [exact Hxwf|]. split.
  - intros Hxv. destruct (Hxs xv Hxv) as (k & s & d & Hks & Hd & Hdx).
    exists s, d. split; [apply in_values; exists k; exact Hks | auto].
  - intros (s & d & Hs & Hd & Hdx). apply in_values in Hs.
    destruct Hs as (k & Hks). destruct (Hser k s Hks) as (_ & _ & Hx).
    change (key_eqb (raw_x d) xv = true) in Hdx.
    rewrite <- (set_has_compat _ (raw_x d) xv Hdx).
    apply Hx, Hd.
Qed.

(** No datum is lost: a datum of the spec that passes the split guard and
    that [cleanDatum] accepts under the y accessor at [index] is a datum
    of the returned series that has the series key of this datum and
    accessor. *)
Theorem splitSeries_keeps_every_datum
        (NumberToString : float -> string) (StringToNumber : string -> float)
        (spec : BasicSeriesSpec) (datum : Datum) (index : nat)
        (accessor : strnum) (cleaned : RawDataSeriesDatum Datum) :
  In datum (spec_data spec) ->
  takesDatum NumberToString spec datum = true ->
  nth_error (spec_yAccessors spec) index = Some accessor ->
  cleanDatum NumberToString StringToNumber datum (spec_xAccessor spec)
             accessor (y0AccessorAt spec index) (spec_markSizeAccessor spec)
  = Some cleaned ->
  exists s,
    In s (rawDataSeries (splitSeries NumberToString StringToNumber spec))
    /\ key (seriesIdentifier s)
       = getSeriesKey NumberToString StringToNumber (spec_id spec) accessor
                      (getSplitAccessors NumberToString datum (splitAccessorsOf spec))
    /\ In cleaned (data s).
Proof.
  intros Hin Htakes Hacc Hclean. rewrite splitSeries_fold.
  cbn [rawDataSeries].
  destruct (fold_splitStep_holds_new NumberToString StringToNumber spec
              (spec_data spec) datum index accessor cleaned Hin Htakes Hacc Hclean
              {| st_series := []; st_colorsValues := []; st_xValues := [] |})
    as (s & Hs & Hd).
  destruct (splitSeries_inv NumberToString StringToNumber spec)
    as (_ & Hser & _).
  destruct (Hser _ s Hs) as (Hk & _).
  exists s. split; [apply in_values; eexists; exact Hs|].
  split; [symmetry; exact Hk | exact Hd].
Qed.

Lemma splitSeries_keeps_every_datum_witness :
  let datum := DObject [("x"%string, PNumber 2%float);
                        ("y"%string, PNumber 7%float);
                        ("g"%string, PString "a"%string)] in
  let cleaned := {| raw_x := SNum 2%float; raw_y1 := Num 7%float;
                    raw_y0 := Null; raw_mark := PNull;
                    raw_datum := Some datum |} in
  In datum (spec_data exampleSpec)
  /\ takesDatum exampleNumberToString exampleSpec datum = true
  /\ nth_error (spec_yAccessors exampleSpec) 0 = Some (SStr "y"%string)
  /\ cleanDatum exampleNumberToString exampleStringToNumber datum
                (spec_xAccessor exampleSpec) (SStr "y"%string)
                (y0AccessorAt exampleSpec 0) (spec_markSizeAccessor exampleSpec)
     = Some cleaned
  /\ exists s,
      In s (rawDataSeries
              (splitSeries exampleNumberToString exampleStringToNumber exampleSpec))
      /\ key (seriesIdentifier s)
         = getSeriesKey exampleNumberToString exampleStringToNumber
                        (spec_id exampleSpec) (SStr "y"%string)
                        (getSplitAccessors exampleNumberToString datum
                                           (splitAccessorsOf exampleSpec))
      /\ In cleaned (data s).
Proof.
  split; [right; right; left; reflexivity|]. split; [reflexivity|].
  split; [reflexivity|]. split; [reflexivity|].
  apply (splitSeries_keeps_every_datum
           exampleNumberToString exampleStringToNumber exampleSpec
           (DObject [("x"%string, PNumber 2%float);
                     ("y"%string, PNumber 7%float);
                     ("g"%string, PString "a"%string)])
           0 (SStr "y"%string)).
  - right. right. left. reflexivity.
  - reflexivity.
  - reflexivity.
  - reflexivity.
Defined.

(** ** The x values and the entries of [getSplittedSeries] *)

Section PermFacts.
Context {K : Type} `{MapKeyLaws K}.

Lemma set_has_perm (l l' : list K) (k : K) :
  Permutation l l' -> JsSet.has l k = JsSet.has l' k.
Proof.
  unfold JsSet.has.
  induction 1 as [|a l l' _ IH|a b l|l l' l'' _ IH1 _ IH2]; cbn [existsb].
  - reflexivity.
  - rewrite IH. reflexivity.
  - destruct (key_eqb a k), (key_eqb b k); reflexivity.
  - rewrite IH1. exact IH2.
Qed.

Lemma set_wfb_perm (l l' : list K) :
  Permutation l l' -> JsSet.wfb l = JsSet.wfb l'.
Proof.
  induction 1 as [|a l l' Hp IH|a b l|l l' l'' _ IH1 _ IH2]; cbn [JsSet.wfb].
  - reflexivity.
  - rewrite IH, (set_has_perm l l' a Hp). reflexivity.
  - unfold JsSet.has. cbn [existsb]. fold (JsSet.has l a). fold (JsSet.has l b).
    rewrite (key_eqb_sym a b).
    destruct (key_eqb b a), (JsSet.has l a), (JsSet.has l b), (JsSet.wfb l);
      reflexivity.
  - rewrite IH1. exact IH2.
Qed.

(** [new Set(arr)] of an array without repeated element, whose elements
    are in the form in which a set stores them, is that array. *)
Lemma fold_add_wf (l : list K) :
  forall s,
    JsSet.wfb (s ++ l) = true ->
    Forall (fun k => key_canon k = k) l ->
    fold_left JsSet.add l s = s ++ l.
Proof.
  induction l as [|k l IH]; intros s Hwf Hc; cbn [fold_left].
  - rewrite app_nil_r. reflexivity.
  - inversion Hc as [|? ? Hk Hl]; subst.
    assert (Hs : JsSet.has s k = false).
    { rewrite set_wfb_app in Hwf. apply andb_true_iff in Hwf.
      destruct Hwf as [_ Hall]. rewrite forallb_forall in Hall.
      destruct (JsSet.has s k) eqn:E; [|reflexivity].
      apply existsb_exists in E. destruct E as (j & Hj & Hjk).
      specialize (Hall j Hj). apply negb_true_iff in Hall.
      unfold JsSet.has in Hall. cbn [existsb] in Hall.
      rewrite key_eqb_sym, Hjk in Hall. discriminate. }
    unfold JsSet.add at 2. rewrite Hs, Hk.
    rewrite IH; [rewrite <- app_assoc; reflexivity| |exact Hl].
    rewrite <- app_assoc. exact Hwf.
Qed.

Lemma of_list_wf (l : list K) :
  JsSet.wfb l = true -> Forall (fun k => key_canon k = k) l ->
  JsSet.of_list l = l.
Proof. intros Hwf Hc. apply (fold_add_wf l [] Hwf Hc). Qed.

Lemma add_canonical (s : list K) (k : K) :
  (forall j, key_canon (key_canon j) = key_canon j) ->
  Forall (fun k => key_canon k = k) s ->
  Forall (fun k => key_canon k = k) (JsSet.add s k).
Proof.
  intros Hidem Hs. unfold JsSet.add. destruct (JsSet.has s k); [exact Hs|].
  apply Forall_app. split; [exact Hs|]. constructor; [apply Hidem | constructor].
Qed.

Lemma fold_add_canonical (l s : list K) :
  (forall j, key_canon (key_canon j) = key_canon j) ->
  Forall (fun k => key_canon k = k) s ->
  Forall (fun k => key_canon k = k) (fold_left JsSet.add l s).
Proof.
  intros Hidem. revert s. induction l as [|k l IH]; intros s Hs; cbn [fold_left];
    [exact Hs|].
  apply IH, add_canonical; assumption.
Qed.
End PermFacts.

Lemma canonKey_idempotent (k : strnum) : canonKey (canonKey k) = canonKey k.
Proof.
  destruct k as [f|s]; cbn [canonKey]; [|reflexivity].
  destruct (f =? 0)%float eqn:E; cbn [canonKey]; [reflexivity|].
  rewrite E. reflexivity.
Qed.

(** *** Insertion under a comparator that decides an order *)

Section InsertionSorted.
Context {A : Type} (cmp : A -> A -> float) (le : A -> A -> Prop).
Hypothesis cmp_before : forall a b, (cmp a b <? 0)%float = true -> le a b.
Hypothesis cmp_after : forall a b, (cmp a b <? 0)%float = false -> le b a.
Hypothesis le_trans : forall a b c, le a b -> le b c -> le a c.

Lemma sort_insert_ordered (a : A) (sorted : list A) :
  StronglySorted le sorted -> StronglySorted le (sort_insert cmp a sorted).
Proof.
  induction sorted as [|b rest IH]; intros Hs; cbn [sort_insert].
  - constructor; constructor.
  - inversion Hs as [|? ? Hrest Hb]; subst.
    destruct (cmp a b <? 0)%float eqn:E.
    + constructor; [exact Hs|]. constructor; [apply cmp_before, E|].
      rewrite Forall_forall in Hb |- *. intros c Hc.
      apply (le_trans a b c); [apply cmp_before, E | apply Hb, Hc].
    + constructor; [apply IH, Hrest|].
      rewrite Forall_forall in Hb |- *. intros c Hc.
      apply (Permutation_in _ (sort_insert_perm cmp a rest)) in Hc.
      destruct Hc as [<-|Hc]; [apply cmp_after, E | apply Hb, Hc].
Qed.

Lemma array_sort_ordered (l : list A) : StronglySorted le (array_sort cmp l).
Proof.
  unfold array_sort.
  assert (Hgen : forall sorted,
             StronglySorted le sorted ->
             StronglySorted le
               (fold_left (fun sorted a => sort_insert cmp a sorted) l sorted)).
  { induction l as [|a l IH]; intros sorted Hs; cbn [fold_left]; [exact Hs|].
    apply IH, sort_insert_ordered, Hs. }
  apply Hgen. constructor.
Qed.
End InsertionSorted.

Section Splitted.
Variable NumberToString : float -> string.
Variable StringToNumber : string -> float.
Variable deselectedDataSeries : list SeriesIdentifier.
Implicit Types (st : SplittedState) (spec : BasicSeriesSpec).

Lemma addCleanedDatum_canonical (specId : string)
      (splitAccs : list (strnum * strnum)) (accessor : strnum)
      (c : option (RawDataSeriesDatum Datum)) (st : SplitState) :
  Forall (fun k => canonKey k = k) (st_xValues st) ->
  Forall (fun k => canonKey k = k)
         (st_xValues (addCleanedDatum NumberToString StringToNumber specId
                                      splitAccs accessor c st)).
Proof.
  intros Hst. unfold addCleanedDatum. destruct c as [cleaned|]; [|exact Hst].
  destruct (updateSeriesMap _ _ _ _ _ _ _) as [series seriesKey].
  cbn [st_xValues].
  pose proof (add_canonical (K := strnum) (st_xValues st) (raw_x cleaned)
                            canonKey_idempotent Hst) as Hadd.
  exact Hadd.
Qed.

Lemma splitSeries_xValues_canonical spec :
  Forall (fun k => canonKey k = k)
         (split_xValues (splitSeries NumberToString StringToNumber spec)).
Proof.
  rewrite splitSeries_fold. cbn [split_xValues].
  assert (Hgen : forall l (st : SplitState),
             Forall (fun k => canonKey k = k) (st_xValues st) ->
             Forall (fun k => canonKey k = k)
                    (st_xValues
                       (fold_left (splitStep NumberToString StringToNumber spec)
                                  l st))).
  { induction l as [|datum l IH]; intros st Hst; cbn [fold_left]; [exact Hst|].
    apply IH. unfold splitStep.
    destruct (takesDatum NumberToString spec datum); [|exact Hst].
    generalize 0. revert st Hst.
    induction (spec_yAccessors spec) as [|a accs IHa]; intros st Hst i;
      cbn [reduce_from]; [exact Hst|].
    apply IHa, addCleanedDatum_canonical, Hst. }
  apply Hgen. constructor.
Qed.

Lemma fold_step_xValues (seriesSpecs : list BasicSeriesSpec) :
  forall st,
    let st' :=
      fold_left (splittedStep NumberToString StringToNumber deselectedDataSeries)
                seriesSpecs st in
    (forall xv,
        JsSet.has (ss_xValues st') xv
        = existsb (fun spec =>
                     JsSet.has
                       (split_xValues
                          (splitSeries NumberToString StringToNumber spec)) xv)
                  seriesSpecs
          || JsSet.has (ss_xValues st) xv)
    /\ (JsSet.wfb (ss_xValues st) = true -> JsSet.wfb (ss_xValues st') = true)
    /\ (Forall (fun k => canonKey k = k) (ss_xValues st) ->
        Forall (fun k => canonKey k = k) (ss_xValues st'))
    /\ ss_isOrdinalScale st'
       = existsb (fun spec => isOrdinal (spec_xScaleType spec)) seriesSpecs
         || ss_isOrdinalScale st.
Proof.
  induction seriesSpecs as [|spec specs IH]; intros st; cbn [fold_left existsb].
  - cbv zeta. split; [reflexivity|]. split; [auto|]. split; [auto | reflexivity].
  - destruct (IH (splittedStep NumberToString StringToNumber deselectedDataSeries
                               st spec)) as (Hh & Hw & Hc & Ho).
    cbv zeta in *. split; [|split; [|split]].
    + intros xv. rewrite Hh. unfold splittedStep. cbn [ss_xValues].
      rewrite (has_fold_add (K := strnum)).
      destruct (JsSet.has (split_xValues _) xv); cbn [orb];
        [rewrite orb_true_r; reflexivity | reflexivity].
    + intros Hwf. apply Hw. unfold splittedStep. cbn [ss_xValues].
      apply (wfb_fold_add (K := strnum)), Hwf.
    + intros Hcan. apply Hc. unfold splittedStep. cbn [ss_xValues].
      pose proof (fold_add_canonical (K := strnum)
                    (split_xValues (splitSeries NumberToString StringToNumber spec))
                    (ss_xValues st) canonKey_idempotent Hcan) as Hfold.
      exact Hfold.
    + rewrite Ho. unfold splittedStep. cbn [ss_isOrdinalScale].
      destruct (isOrdinal (spec_xScaleType spec)); cbn [orb];
        [apply orb_true_r | reflexivity].
Qed.

Lemma defaultCompare_before (a b : strnum) :
  (defaultCompare NumberToString a b <? 0)%float
  = String.ltb (ToString NumberToString a) (ToString NumberToString b).
Proof.
  unfold defaultCompare.
  destruct (String.ltb (ToString NumberToString a) (ToString NumberToString b));
    [reflexivity|].
  destruct (String.ltb (ToString NumberToString b) (ToString NumberToString a));
    reflexivity.
Qed.

End Splitted.

Lemma string_not_ltb_trans (s t u : string) :
  String.ltb t s = false -> String.ltb u t = false -> String.ltb u s = false.
Proof.
  intros Hts Hut. destruct (String.ltb u s) eqn:Hus; [|reflexivity].
  destruct (String.eqb t u) eqn:E.
  - apply String.eqb_eq in E. subst u. rewrite Hus in Hts. discriminate.
  - apply String.eqb_neq in E.
    pose proof (string_ltb_total t u E Hut) as Htu.
    rewrite (string_ltb_trans t u s Htu Hus) in Hts. discriminate.
Qed.

Lemma string_ltb_asym (s t : string) :
  String.ltb s t = true -> String.ltb t s = false.
Proof.
  intros Hst. destruct (String.ltb t s) eqn:Hts; [|reflexivity].
  rewrite <- (string_ltb_irrefl s). symmetry.
  apply (string_ltb_trans s t s Hst Hts).
Qed.

(** The x-value universe that [getSplittedSeries] returns holds no value
    twice, and it holds exactly the x values that [splitSeries] returns
    for one of the specs, whatever the deselected series are. *)
Theorem getSplittedSeries_xValues_universe
        (NumberToString : float -> string) (StringToNumber : string -> float)
        (seriesSpecs : list BasicSeriesSpec)
        (deselectedDataSeries : list SeriesIdentifier) (xv : strnum) :
  let result :=
    getSplittedSeries NumberToString StringToNumber seriesSpecs deselectedDataSeries in
  JsSet.wfb (xValues result) = true
  /\ JsSet.has (xValues result) xv
     = existsb (fun spec =>
                  JsSet.has
                    (split_xValues (splitSeries NumberToString StringToNumber spec))
                    xv)
               seriesSpecs.
Proof.
  intros result. unfold result, getSplittedSeries. cbn [xValues].
  destruct (fold_step_xValues NumberToString StringToNumber deselectedDataSeries
              seriesSpecs
              {| ss_splittedSeries := []; ss_seriesCollection := [];
                 ss_xValues := []; ss_isOrdinalScale := false |})
    as (Hh & Hw & _ & _).
  cbv zeta in Hh, Hw. cbn [ss_xValues] in Hh, Hw.
  destruct (ss_isOrdinalScale _).
  - split; [apply Hw; reflexivity|]. rewrite Hh. apply orb_false_r.
  - split.
    + unfold JsSet.of_list. apply (wfb_fold_add (K := strnum)). reflexivity.
    + unfold JsSet.of_list. rewrite (has_fold_add (K := strnum)).
      cbn [JsSet.has existsb]. rewrite orb_false_r.
      rewrite (set_has_perm (K := strnum) _ _ xv
                 (array_sort_perm (defaultCompare NumberToString) _)).
      rewrite Hh. apply orb_false_r.
Qed.

(** When no spec has an ordinal x scale, the x-value universe is in the
    order of [Array.prototype.sort] without a comparator: increasing in
    the string forms of the values, so that a number comes before another
    when its decimal text does (10 before 9). *)
Theorem getSplittedSeries_xValues_sorted_as_strings
        (NumberToString : float -> string) (StringToNumber : string -> float)
        (seriesSpecs : list BasicSeriesSpec)
        (deselectedDataSeries : list SeriesIdentifier) :
  forallb (fun spec => negb (isOrdinal (spec_xScaleType spec))) seriesSpecs = true ->
  StronglySorted
    (fun a b =>
       String.ltb (ToString NumberToString b) (ToString NumberToString a) = false)
    (xValues (getSplittedSeries NumberToString StringToNumber seriesSpecs
                                deselectedDataSeries)).
Proof.
  intros Hord. unfold getSplittedSeries. cbn [xValues].
  destruct (fold_step_xValues NumberToString StringToNumber deselectedDataSeries
              seriesSpecs
              {| ss_splittedSeries := []; ss_seriesCollection := [];
                 ss_xValues := []; ss_isOrdinalScale := false |})
    as (_ & Hw & Hc & Ho).
  cbv zeta in Hw, Hc, Ho. cbn [ss_xValues ss_isOrdinalScale] in Hw, Hc, Ho.
  rewrite Ho, orb_false_r.
  assert (Hnone : existsb (fun spec => isOrdinal (spec_xScaleType spec)) seriesSpecs
                  = false).
  { clear -Hord. induction seriesSpecs as [|spec specs IH]; [reflexivity|].
    cbn [forallb existsb] in *. apply andb_true_iff in Hord.
    destruct Hord as [Hs Hl]. apply negb_true_iff in Hs. rewrite Hs.
    apply IH, Hl. }
  rewrite Hnone.
  set (xs := ss_xValues _) in *.
  pose proof (array_sort_perm (defaultCompare NumberToString) xs) as Hperm.
  rewrite (of_list_wf (K := strnum)).
  - apply array_sort_ordered.
    + intros a b E. rewrite defaultCompare_before in E.
      apply string_ltb_asym, E.
    + intros a b E. rewrite defaultCompare_before in E. exact E.
    + intros a b c Hab Hbc. apply (string_not_ltb_trans _ _ _ Hab Hbc).
  - rewrite (set_wfb_perm (K := strnum) _ _ Hperm). apply Hw. reflexivity.
  - apply (Permutation_Forall (Permutation_sym Hperm)). apply Hc. constructor.
Qed.

Lemma getSplittedSeries_xValues_sorted_as_strings_witness :
  let spec :=
    {| spec_id := "s"%string;
       spec_data :=
         [DObject [("x"%string, PNumber 9%float); ("y"%string, PNumber 1%float)];
          DObject [("x"%string, PNumber 10%float); ("y"%string, PNumber 2%float)]];
       spec_xAccessor := AField (SStr "x"%string);
       spec_yAccessors_first := SStr "y"%string;
       spec_yAccessors_rest := [];
       spec_y0Accessors := None;
       spec_markSizeAccessor := None;
       spec_splitSeriesAccessors := None;
       spec_xScaleType := Continuous;
       spec_sortIndex := None |} in
  xValues (getSplittedSeries exampleNumberToString exampleStringToNumber [spec] [])
  = [SNum 10%float; SNum 9%float]
  /\ StronglySorted
       (fun a b =>
          String.ltb (ToString exampleNumberToString b)
                     (ToString exampleNumberToString a) = false)
       (xValues (getSplittedSeries exampleNumberToString exampleStringToNumber
                                   [spec] [])).
Proof.
  split; [reflexivity|].
  apply (getSplittedSeries_xValues_sorted_as_strings
           exampleNumberToString exampleStringToNumber).
  reflexivity.
Defined.

Lemma removeDeselected_nil (l : list (RawDataSeries Datum)) :
  removeDeselected [] l = l.
Proof.
  unfold removeDeselected, isDeselected. cbn [existsb negb].
  induction l as [|s l IH]; cbn [filter]; [reflexivity|]. rewrite IH. reflexivity.
Qed.

Section Entries.
Variable NumberToString : float -> string.
Variable StringToNumber : string -> float.
Variable deselectedDataSeries : list SeriesIdentifier.
Implicit Types (st : SplittedState) (spec : BasicSeriesSpec).

Lemma step_splitted_get st spec :
  JsMap.get
    (ss_splittedSeries
       (splittedStep NumberToString StringToNumber deselectedDataSeries st spec))
    (spec_id spec)
  = Some (removeDeselected
            deselectedDataSeries
            (rawDataSeries (splitSeries NumberToString StringToNumber spec))).
Proof.
  unfold splittedStep. cbn [ss_splittedSeries].
  rewrite (get_set_same (K := string)) by apply String.eqb_refl.
  destruct deselectedDataSeries as [|d l]; cbn [List.length Nat.ltb Nat.leb].
  - rewrite removeDeselected_nil. reflexivity.
  - reflexivity.
Qed.

Lemma fold_step_splitted_get (seriesSpecs : list BasicSeriesSpec) (specId : string) :
  (forall spec, In spec seriesSpecs -> spec_id spec <> specId) ->
  forall st,
    JsMap.get
      (ss_splittedSeries
         (fold_left (splittedStep NumberToString StringToNumber deselectedDataSeries)
                    seriesSpecs st))
      specId
    = JsMap.get (ss_splittedSeries st) specId.
Proof.
  induction seriesSpecs as [|spec specs IH]; intros Hne st; cbn [fold_left];
    [reflexivity|].
  rewrite IH by (intros spec' Hin; apply Hne; right; exact Hin).
  unfold splittedStep. cbn [ss_splittedSeries].
  apply (get_set_other (K := string)). apply String.eqb_neq, Hne. left. reflexivity.
Qed.

Lemma fold_collection_in (banded : option bool) (sortIndex : option float)
      (l : list (RawDataSeries Datum)) :
  forall (collection : list (string * SeriesCollectionValue))
         (k : string) (v : SeriesCollectionValue),
    In (k, v)
       (fold_left
          (fun seriesCollection series =>
             JsMap.set seriesCollection (key (seriesIdentifier series))
                       {| banded := banded; specSortIndex := sortIndex;
                          scv_seriesIdentifier := seriesIdentifier series |})
          l collection) ->
    In (k, v) collection
    \/ exists s,
        In s l /\ k = key (seriesIdentifier s)
        /\ v = {| banded := banded; specSortIndex := sortIndex;
                  scv_seriesIdentifier := seriesIdentifier s |}.
Proof.
  induction l as [|s l IH]; intros collection k v; cbn [fold_left]; [auto|].
  intros Hin. destruct (IH _ k v Hin) as [Hc|(s' & Hs' & Hk & Hv)].
  - apply string_set_in in Hc. destruct Hc as [Hc|[Hk Hv]]; [left; exact Hc|].
    right. exists s. split; [left; reflexivity | auto].
  - right. exists s'. split; [right; exact Hs' | auto].
Qed.

Lemma fold_step_collection_in (seriesSpecs : list BasicSeriesSpec) :
  forall st (k : string) (v : SeriesCollectionValue),
    In (k, v)
       (ss_seriesCollection
          (fold_left (splittedStep NumberToString StringToNumber deselectedDataSeries)
                     seriesSpecs st)) ->
    In (k, v) (ss_seriesCollection st)
    \/ exists spec s,
        In spec seriesSpecs
        /\ In s (rawDataSeries (splitSeries NumberToString StringToNumber spec))
        /\ k = key (seriesIdentifier s)
        /\ v = {| banded :=
                    match spec_y0Accessors spec with
                    | Some l => Some (Nat.ltb 0 (List.length l))
                    | None => None
                    end;
                  specSortIndex := spec_sortIndex spec;
                  scv_seriesIdentifier := seriesIdentifier s |}.
Proof.
  induction seriesSpecs as [|spec specs IH]; intros st k v; cbn [fold_left];
    [auto|].
  intros Hin. destruct (IH _ k v Hin) as [Hc|(spec' & s & Hspec & Hs & Hk & Hv)].
  - unfold splittedStep in Hc. cbn [ss_seriesCollection] in Hc.
    apply fold_collection_in in Hc. destruct Hc as [Hc|(s & Hs & Hk & Hv)];
      [left; exact Hc|].
    right. exists spec, s. split; [left; reflexivity | auto].
  - right. exists spec', s. split; [right; exact Hspec | auto].
Qed.
End Entries.

(** The entry of [splittedSeries] for a spec id is the series list of the
    last spec with that id, without its deselected series. *)
Theorem getSplittedSeries_entry_of_spec
        (NumberToString : float -> string) (StringToNumber : string -> float)
        (before after : list BasicSeriesSpec) (spec : BasicSeriesSpec)
        (deselectedDataSeries : list SeriesIdentifier) :
  (forall spec', In spec' after -> spec_id spec' <> spec_id spec) ->
  JsMap.get
    (splittedSeries
       (getSplittedSeries NumberToString StringToNumber (before ++ spec :: after)
                          deselectedDataSeries))
    (spec_id spec)
  = Some (removeDeselected
            deselectedDataSeries
            (rawDataSeries (splitSeries NumberToString StringToNumber spec))).
Proof.
  intros Hlast. unfold getSplittedSeries. cbn [splittedSeries].
  rewrite fold_left_app. cbn [fold_left].
  rewrite (fold_step_splitted_get NumberToString StringToNumber
             deselectedDataSeries after (spec_id spec) Hlast).
  apply step_splitted_get.
Qed.

Lemma getSplittedSeries_entry_of_spec_witness :
  JsMap.get
    (splittedSeries
       (getSplittedSeries exampleNumberToString exampleStringToNumber
                          ([exampleSpec] ++ exampleSpec :: []) exampleDeselected))
    (spec_id exampleSpec)
  = Some (removeDeselected
            exampleDeselected
            (rawDataSeries
               (splitSeries exampleNumberToString exampleStringToNumber
                            exampleSpec))).
Proof.
  apply (getSplittedSeries_entry_of_spec
           exampleNumberToString exampleStringToNumber [exampleSpec] []
           exampleSpec exampleDeselected).
  intros spec' [].
Defined.

(** Every entry of [seriesCollection] describes a series that
    [splitSeries] returns for one of the specs: it is keyed by the key of
    the series and holds its identifier, the sort index of the spec, and
    as [banded] whether the spec has a non-empty list of y0 accessors
    ([undefined] when it has no such list). *)
Theorem getSplittedSeries_collection_entries
        (NumberToString : float -> string) (StringToNumber : string -> float)
        (seriesSpecs : list BasicSeriesSpec)
        (deselectedDataSeries : list SeriesIdentifier)
        (k : string) (v : SeriesCollectionValue) :
  JsMap.get
    (seriesCollection
       (getSplittedSeries NumberToString StringToNumber seriesSpecs
                          deselectedDataSeries)) k = Some v ->
  exists spec s,
    In spec seriesSpecs
    /\ In s (rawDataSeries (splitSeries NumberToString StringToNumber spec))
    /\ k = key (seriesIdentifier s)
    /\ scv_seriesIdentifier v = seriesIdentifier s
    /\ specSortIndex v = spec_sortIndex spec
    /\ banded v
       = match spec_y0Accessors spec with
         | Some l => Some (Nat.ltb 0 (List.length l))
         | None => None
         end.
Proof.
  intros Hget. apply string_get_in in Hget.
  unfold getSplittedSeries in Hget. cbn [seriesCollection] in Hget.
  apply fold_step_collection_in in Hget.
  destruct Hget as [[]|(spec & s & Hspec & Hs & Hk & ->)].
  exists spec, s. cbn [scv_seriesIdentifier specSortIndex banded]. auto 6.
Qed.

Lemma getSplittedSeries_collection_entries_witness :
  let result :=
    getSplittedSeries exampleNumberToString exampleStringToNumber [exampleSpec]
                      exampleDeselected in
  let v := {| banded := None; specSortIndex := None;
              scv_seriesIdentifier :=
                {| specId := "spec1"%string; yAccessor := SStr "y"%string;
                   splitAccessors := [(SStr "g"%string, SStr "b"%string)];
                   seriesKeys := [SStr "b"%string; SStr "y"%string];
                   key := exampleKeyB |} |} in
  JsMap.get (seriesCollection result) exampleKeyB = Some v
  /\ exists spec s,
      In spec [exampleSpec]
      /\ In s (rawDataSeries
                 (splitSeries exampleNumberToString exampleStringToNumber spec))
      /\ exampleKeyB = key (seriesIdentifier s)
      /\ scv_seriesIdentifier v = seriesIdentifier s
      /\ specSortIndex v = spec_sortIndex spec
      /\ banded v
         = match spec_y0Accessors spec with
           | Some l => Some (Nat.ltb 0 (List.length l))
           | None => None
           end.
Proof.
  split; [reflexivity|].
  apply (getSplittedSeries_collection_entries
           exampleNumberToString exampleStringToNumber [exampleSpec]
           exampleDeselected exampleKeyB).
  reflexivity.
Defined.

(** ** The index of a series *)

Lemma findIndex_from_spec {A : Type} (p : A -> bool) (arr : list A) :
  forall i : Z,
    (findIndex_from p i arr = (-1)%Z /\ (0 <= i)%Z -> forallb (fun a => negb (p a)) arr = true)
    /\ (forallb (fun a => negb (p a)) arr = true -> findIndex_from p i arr = (-1)%Z)
    /\ ((0 <= i)%Z -> findIndex_from p i arr <> (-1)%Z ->
        exists n a,
          findIndex_from p i arr = (i + Z.of_nat n)%Z
          /\ nth_error arr n = Some a /\ p a = true
          /\ forallb (fun a => negb (p a)) (firstn n arr) = true).
Proof.
  induction arr as [|a rest IH]; intros i; cbn [findIndex_from forallb].
  - split; [auto|]. split; [auto|]. intros _ Habs. contradiction Habs. reflexivity.
  - destruct (p a) eqn:Ea; cbn [negb andb].
    + split; [intros [-> Hi]; lia|]. split; [discriminate|].
      intros Hi _. exists 0, a. rewrite Z.add_0_r. auto.
    + destruct (IH (i + 1)%Z) as (H1 & H2 & H3).
      split; [intros [Hf Hi]; apply H1; split; [exact Hf | lia]|].
      split; [exact H2|].
      intros Hi Hne. destruct (H3 ltac:(lia) Hne) as (n & b & Hf & Hn & Hb & Hfirst).
      exists (S n), b. cbn [nth_error firstn forallb]. rewrite Ea. cbn [negb andb].
      split; [rewrite Hf; lia | auto].
Qed.

(** [getSeriesIndex] looks at keys only: it answers [-1] exactly when no
    array is given or no series of the array has the key of the target,
    and otherwise the position of the first series that has that key. *)
Theorem getSeriesIndex_first_with_key
        (series : option (list SeriesIdentifier)) (target : SeriesIdentifier) :
  (getSeriesIndex series target = (-1)%Z
   <-> forall l s, series = Some l -> In s l -> sid_key s <> sid_key target)
  /\ (getSeriesIndex series target <> (-1)%Z ->
      exists l n s,
        series = Some l
        /\ getSeriesIndex series target = Z.of_nat n
        /\ nth_error l n = Some s
        /\ sid_key s = sid_key target
        /\ forall m s', m < n -> nth_error l m = Some s' ->
                        sid_key s' <> sid_key target).
Proof.
  destruct series as [l|]; cbn [getSeriesIndex].
  - unfold array_findIndex.
    destruct (findIndex_from_spec
                (fun s => String.eqb (sid_key target) (sid_key s)) l 0)
      as (H1 & H2 & H3).
    split; [split|].
    + intros Hf l' s [= <-] Hin Heq.
      pose proof (H1 (conj Hf (Z.le_refl 0))) as Hall.
      rewrite forallb_forall in Hall. specialize (Hall s Hin).
      rewrite <- Heq, String.eqb_refl in Hall. discriminate.
    + intros Hnone. apply H2. apply forallb_forall. intros s Hin.
      apply negb_true_iff, String.eqb_neq. intros Heq.
      apply (Hnone l s eq_refl Hin). symmetry. exact Heq.
    + intros Hne.
      destruct (H3 (Z.le_refl 0) Hne) as (n & s & Hf & Hn & Hs & Hfirst).
      exists l, n, s. split; [reflexivity|]. split; [exact Hf|].
      split; [exact Hn|]. split; [apply String.eqb_eq in Hs; auto|].
      intros m s' Hm Hs' Heq. rewrite forallb_forall in Hfirst.
      assert (Hin : In s' (firstn n l)).
      { apply (nth_error_In _ m). rewrite nth_error_firstn.
        apply Nat.ltb_lt in Hm. rewrite Hm. exact Hs'. }
      specialize (Hfirst s' Hin). rewrite <- Heq, String.eqb_refl in Hfirst.
      discriminate.
  - split; [split; [intros _ l s Habs; discriminate | reflexivity]|].
    intros Habs. contradiction Habs. reflexivity.
Qed.

(** ** The raw series of a group and their counts *)

Lemma addSpecSeries_step (dataSeries : list (string * list (RawDataSeries Datum)))
      (acc : RawDataSeriesOfGroup) (spec : YBasicSeriesSpec) :
  let result := addSpecSeries dataSeries acc spec in
  let counted (t : SeriesTypes) :=
    if hasSeriesType t spec then List.length (seriesOfSpec dataSeries spec) else 0 in
  group_rawDataSeries result
  = group_rawDataSeries acc ++ seriesOfSpec dataSeries spec
  /\ barSeries (group_counts result) = barSeries (group_counts acc) + counted Bar
  /\ lineSeries (group_counts result) = lineSeries (group_counts acc) + counted Line
  /\ areaSeries (group_counts result) = areaSeries (group_counts acc) + counted Area.
Proof.
  unfold addSpecSeries, seriesOfSpec, hasSeriesType.
  destruct (JsMap.get dataSeries (yspec_id spec)) as [ds|];
    destruct (yspec_seriesType spec);
    cbn [group_rawDataSeries group_counts barSeries lineSeries areaSeries
         List.length];
    rewrite ?app_nil_r, ?Nat.add_0_r; auto.
Qed.

Lemma length_flat_map_filter {A B : Type} (f : A -> list B) (p : A -> bool)
      (a : A) (l : list A) :
  List.length (flat_map f (filter p (a :: l)))
  = (if p a then List.length (f a) else 0) + List.length (flat_map f (filter p l)).
Proof.
  cbn [filter]. destruct (p a); [|reflexivity].
  cbn [flat_map]. apply length_app.
Qed.

Lemma fold_addSpecSeries (dataSeries : list (string * list (RawDataSeries Datum)))
      (seriesSpecs : list YBasicSeriesSpec) :
  forall acc,
    let result := fold_left (addSpecSeries dataSeries) seriesSpecs acc in
    group_rawDataSeries result
    = group_rawDataSeries acc ++ flat_map (seriesOfSpec dataSeries) seriesSpecs
    /\ barSeries (group_counts result)
       = barSeries (group_counts acc)
         + List.length (flat_map (seriesOfSpec dataSeries)
                                 (filter (hasSeriesType Bar) seriesSpecs))
    /\ lineSeries (group_counts result)
       = lineSeries (group_counts acc)
         + List.length (flat_map (seriesOfSpec dataSeries)
                                 (filter (hasSeriesType Line) seriesSpecs))
    /\ areaSeries (group_counts result)
       = areaSeries (group_counts acc)
         + List.length (flat_map (seriesOfSpec dataSeries)
                                 (filter (hasSeriesType Area) seriesSpecs)).
Proof.
  induction seriesSpecs as [|spec specs IH]; intros acc; cbn [fold_left].
  - cbn. rewrite app_nil_r, !Nat.add_0_r. auto.
  - destruct (IH (addSpecSeries dataSeries acc spec)) as (Hr & Hb & Hl & Ha).
    destruct (addSpecSeries_step dataSeries acc spec) as (Sr & Sb & Sl & Sa).
    cbv zeta in *. rewrite Hr, Hb, Hl, Ha, Sr, Sb, Sl, Sa.
    rewrite !length_flat_map_filter. cbn [flat_map].
    rewrite <- app_assoc, !Nat.add_assoc. auto.
Qed.

(** [getRawDataSeries] returns the series of the specs of the group in
    the order of the specs (a spec without an entry in the map gives
    none), and each counter is the number of returned series that come
    from a spec of its type, so that the three counters add up to the
    number of returned series. *)
Theorem getRawDataSeries_counts_add_up
        (seriesSpecs : list YBasicSeriesSpec)
        (dataSeries : list (string * list (RawDataSeries Datum))) :
  let result := getRawDataSeries seriesSpecs dataSeries in
  group_rawDataSeries result = flat_map (seriesOfSpec dataSeries) seriesSpecs
  /\ barSeries (group_counts result)
     = List.length (flat_map (seriesOfSpec dataSeries)
                             (filter (hasSeriesType Bar) seriesSpecs))
  /\ lineSeries (group_counts result)
     = List.length (flat_map (seriesOfSpec dataSeries)
                             (filter (hasSeriesType Line) seriesSpecs))
  /\ areaSeries (group_counts result)
     = List.length (flat_map (seriesOfSpec dataSeries)
                             (filter (hasSeriesType Area) seriesSpecs))
  /\ barSeries (group_counts result) + lineSeries (group_counts result)
     + areaSeries (group_counts result)
     = List.length (group_rawDataSeries result).
Proof.
  intros result. unfold result, getRawDataSeries.
  destruct (fold_addSpecSeries dataSeries seriesSpecs
              {| group_rawDataSeries := [];
                 group_counts :=
                   {| barSeries := 0; lineSeries := 0; areaSeries := 0 |} |})
    as (Hr & Hb & Hl & Ha).
  cbv zeta in Hr, Hb, Hl, Ha.
  cbn [group_rawDataSeries group_counts barSeries lineSeries areaSeries app]
    in Hr, Hb, Hl, Ha.
  rewrite Hr, Hb, Hl, Ha. cbn [Nat.add].
  split; [reflexivity|]. split; [reflexivity|]. split; [reflexivity|].
  split; [reflexivity|].
  clear. induction seriesSpecs as [|spec specs IH]; [reflexivity|].
  rewrite !length_flat_map_filter. cbn [flat_map]. rewrite length_app, <- IH.
  unfold hasSeriesType. destruct (yspec_seriesType spec); lia.
Qed.

(** ** Sorting the series collection *)

(** A number minus itself is [0] or [NaN]: never negative. *)
Lemma sub_self_not_negative (t : float) : (t - t <? 0)%float = false.
Proof.
  rewrite ltb_spec, sub_spec. unfold SF64sub.
  destruct (Prim2SF t) as [s|s| |s m e]; cbn [SFsub].
  - destruct s; reflexivity.
  - destruct s; reflexivity.
  - reflexivity.
  - rewrite Z.sub_diag. reflexivity.
Qed.

Lemma fold_set_wf {V : Type} (entries : list (string * V)) :
  forall m : list (string * V),
    JsMap.wfb (m ++ entries) = true ->
    fold_left (fun m '(k, v) => JsMap.set m k v) entries m = m ++ entries.
Proof.
  induction entries as [|[k v] entries IH]; intros m Hwf; cbn [fold_left].
  - rewrite app_nil_r. reflexivity.
  - assert (Hset : JsMap.set m k v = m ++ [(k, v)]).
    { clear IH. induction m as [|[j w] m IHm]; cbn [JsMap.set app]; [reflexivity|].
      cbn [app JsMap.wfb] in Hwf. apply andb_true_iff in Hwf.
      destruct Hwf as [Hj Hm]. apply negb_true_iff in Hj.
      change (key_eqb j k) with (String.eqb j k).
      destruct (String.eqb j k) eqn:E.
      - apply String.eqb_eq in E. subst j.
        rewrite (string_in_has (m ++ (k, v) :: entries) k v) in Hj;
          [discriminate|].
        apply in_or_app. right. left. reflexivity.
      - rewrite (IHm Hm). reflexivity. }
    rewrite Hset, IH; rewrite <- app_assoc; [reflexivity | exact Hwf].
Qed.

Lemma map_wfb_perm {V : Type} (m m' : list (string * V)) :
  Permutation m m' -> JsMap.wfb m = JsMap.wfb m'.
Proof.
  intros Hp. rewrite !(map_wfb_keys (K := string)).
  apply (set_wfb_perm (K := string)). unfold JsMap.keys.
  apply Permutation_map, Hp.
Qed.

(** Sorting the collection loses no series and adds none: the result
    holds the entries of the collection, in some order. *)
Theorem getSortedDataSeriesColorsValuesMap_keeps_entries
        (seriesCollection : list (string * SeriesCollectionValue)) :
  JsMap.wfb seriesCollection = true ->
  Permutation (getSortedDataSeriesColorsValuesMap seriesCollection) seriesCollection
  /\ JsMap.wfb (getSortedDataSeriesColorsValuesMap seriesCollection) = true.
Proof.
  intros Hwf. unfold getSortedDataSeriesColorsValuesMap, map_of_entries.
  set (total := lengthNumber (List.length seriesCollection)).
  pose proof (array_sort_perm (compareSortIndex total) seriesCollection) as Hperm.
  assert (Hwf' : JsMap.wfb (array_sort (compareSortIndex total) seriesCollection)
                 = true).
  { rewrite (map_wfb_perm _ _ Hperm). exact Hwf. }
  rewrite (fold_set_wf _ [] Hwf'). cbn [app]. split; [exact Hperm | exact Hwf'].
Qed.

Lemma getSortedDataSeriesColorsValuesMap_keeps_entries_witness :
  JsMap.wfb sortedCollectionExample = true
  /\ getSortedDataSeriesColorsValuesMap sortedCollectionExample
     = [nth 2 sortedCollectionExample ("A"%string, exampleCollectionValue "A");
        nth 1 sortedCollectionExample ("A"%string, exampleCollectionValue "A");
        nth 0 sortedCollectionExample ("A"%string, exampleCollectionValue "A")]
  /\ Permutation (getSortedDataSeriesColorsValuesMap sortedCollectionExample)
                 sortedCollectionExample.
Proof.
  split; [reflexivity|]. split; [reflexivity|].
  apply (getSortedDataSeriesColorsValuesMap_keeps_entries sortedCollectionExample).
  reflexivity.
Defined.

Lemma sort_insert_without_sort_index (total : float)
      (k : string) (v : SeriesCollectionValue)
      (sorted : list (string * SeriesCollectionValue)) :
  specSortIndex v = None ->
  Forall (fun entry => specSortIndex (snd entry) = None) sorted ->
  sort_insert (compareSortIndex total) (k, v) sorted = sorted ++ [(k, v)].
Proof.
  intros Hv Hs. induction Hs as [|[j w] rest Hw Hrest IHs]; cbn [sort_insert app];
    [reflexivity|].
  cbn [snd] in Hw. rewrite IHs.
  change (compareSortIndex total (k, v) (j, w))
    with (getSortIndex v total - getSortIndex w total)%float.
  unfold getSortIndex. rewrite Hv, Hw, sub_self_not_negative. reflexivity.
Qed.

Lemma array_sort_without_sort_index (total : float)
      (l : list (string * SeriesCollectionValue)) :
  Forall (fun entry => specSortIndex (snd entry) = None) l ->
  array_sort (compareSortIndex total) l = l.
Proof.
  intros Hnone. unfold array_sort.
  assert (Hgen : forall sorted,
             Forall (fun entry => specSortIndex (snd entry) = None) sorted ->
             fold_left (fun sorted a => sort_insert (compareSortIndex total) a sorted)
                       l sorted
             = sorted ++ l).
  { induction Hnone as [|[k v] l Hv Hl IH]; intros sorted Hs; cbn [fold_left];
      [rewrite app_nil_r; reflexivity|].
    cbn [snd] in Hv.
    rewrite (sort_insert_without_sort_index total k v sorted Hv Hs), IH.
    - rewrite <- app_assoc. reflexivity.
    - apply Forall_app. split; [exact Hs|]. constructor; [exact Hv | constructor]. }
  apply (Hgen []). constructor.
Qed.

(** When no series has a sort index the collection comes back as it is:
    every comparison is [size - size], which is not negative, and the sort
    is stable. *)
Theorem getSortedDataSeriesColorsValuesMap_without_sort_index
        (seriesCollection : list (string * SeriesCollectionValue)) :
  JsMap.wfb seriesCollection = true ->
  Forall (fun entry => specSortIndex (snd entry) = None) seriesCollection ->
  getSortedDataSeriesColorsValuesMap seriesCollection = seriesCollection.
Proof.
  intros Hwf Hnone. unfold getSortedDataSeriesColorsValuesMap, map_of_entries.
  rewrite (array_sort_without_sort_index _ seriesCollection Hnone).
  apply (fold_set_wf seriesCollection [] Hwf).
Qed.

Lemma getSortedDataSeriesColorsValuesMap_without_sort_index_witness :
  JsMap.wfb exampleCollection = true
  /\ Forall (fun entry => specSortIndex (snd entry) = None) exampleCollection
  /\ getSortedDataSeriesColorsValuesMap exampleCollection = exampleCollection.
Proof.
  assert (Hnone : Forall (fun entry => specSortIndex (snd entry) = None)
                         exampleCollection).
  { repeat constructor. }
  split; [reflexivity|]. split; [exact Hnone|].
  apply (getSortedDataSeriesColorsValuesMap_without_sort_index
           exampleCollection eq_refl Hnone).
Defined.

(** ** The split accessors of a datum *)

Lemma length_set {K V : Type} `{MapKey K} (m : list (K * V)) (k : K) (v : V) :
  List.length (JsMap.set m k v) <= S (List.length m).
Proof.
  induction m as [|[j w] m IH]; cbn [JsMap.set List.length]; [lia|].
  destruct (key_eqb j k); cbn [List.length]; lia.
Qed.

(** The map of split accessors has no repeated key and at most one entry
    per accessor, and each of its entries holds, under an accessor of the
    list, the string or number that the datum has at that accessor. *)
Theorem getSplitAccessors_values_from_datum
        (NumberToString : float -> string) (datum : Datum)
        (accessors : list strnum) :
  let splitAccessors := getSplitAccessors NumberToString datum accessors in
  JsMap.wfb splitAccessors = true
  /\ List.length splitAccessors <= List.length accessors
  /\ forall a v,
      JsMap.get splitAccessors a = Some v ->
      exists accessor,
        In accessor accessors
        /\ sameValueZero accessor a = true
        /\ getProperty NumberToString datum accessor = strnumPrim v.
Proof.
  intros splitAccessors. unfold splitAccessors, getSplitAccessors.
  destruct datum as [p|fields].
  { split; [reflexivity|]. split; [cbn; lia|]. intros a v Hget. discriminate. }
  set (datum := DObject fields).
  assert (Hgen : forall l (m : list (strnum * strnum)),
             let m' :=
               fold_left
                 (fun splitAccessors accessor =>
                    match getProperty NumberToString datum accessor with
                    | PString s => JsMap.set splitAccessors accessor (SStr s)
                    | PNumber f => JsMap.set splitAccessors accessor (SNum f)
                    | _ => splitAccessors
                    end) l m in
             (JsMap.wfb m = true -> JsMap.wfb m' = true)
             /\ List.length m' <= List.length m + List.length l
             /\ forall a v,
                 JsMap.get m' a = Some v ->
                 JsMap.get m a = Some v
                 \/ exists accessor,
                     In accessor l /\ sameValueZero accessor a = true
                     /\ getProperty NumberToString datum accessor = strnumPrim v).
  { induction l as [|accessor l IH]; intros m; cbn [fold_left].
    - cbv zeta. split; [auto|]. split; [lia | auto].
    - cbv zeta.
      assert (Hstep : forall w : strnum,
                 getProperty NumberToString datum accessor = strnumPrim w ->
                 let m1 := JsMap.set m accessor w in
                 let m' :=
                   fold_left
                     (fun splitAccessors accessor =>
                        match getProperty NumberToString datum accessor with
                        | PString s => JsMap.set splitAccessors accessor (SStr s)
                        | PNumber f => JsMap.set splitAccessors accessor (SNum f)
                        | _ => splitAccessors
                        end) l m1 in
                 (JsMap.wfb m = true -> JsMap.wfb m' = true)
                 /\ List.length m' <= List.length m + S (List.length l)
                 /\ forall a v,
                     JsMap.get m' a = Some v ->
                     JsMap.get m a = Some v
                     \/ exists accessor',
                         In accessor' (accessor :: l)
                         /\ sameValueZero accessor' a = true
                         /\ getProperty NumberToString datum accessor'
                            = strnumPrim v).
      { intros w Hw. cbv zeta.
        destruct (IH (JsMap.set m accessor w)) as (Hwf & Hlen & Hget).
        cbv zeta in Hwf, Hlen, Hget. split; [|split].
        - intros Hm. apply Hwf, (wfb_set (K := strnum)), Hm.
        - pose proof (length_set m accessor w). lia.
        - intros a v Hav. destruct (Hget a v Hav) as [Hm|(acc' & Hin & Hs & Hp)].
          + destruct (sameValueZero accessor a) eqn:E.
            * change (key_eqb accessor a = true) in E.
              rewrite (get_set_same (K := strnum) m accessor a w E) in Hm.
              injection Hm as <-. right. exists accessor.
              split; [left; reflexivity | auto].
            * change (key_eqb accessor a = false) in E.
              rewrite (get_set_other (K := strnum) m accessor a w E) in Hm.
              left. exact Hm.
          + right. exists acc'. split; [right; exact Hin | auto]. }
      destruct (getProperty NumberToString datum accessor) as [| |b|f|s] eqn:Ep;
        try (destruct (IH m) as (Hwf & Hlen & Hget); cbv zeta in Hwf, Hlen, Hget;
             split; [exact Hwf|]; split; [cbn [List.length]; lia|];
             intros a v Hav; destruct (Hget a v Hav) as [Hm|(acc' & Hin & Hs & Hp)];
             [left; exact Hm | right; exists acc'; split; [right; exact Hin | auto]]).
      + apply (Hstep (SNum f)). reflexivity.
      + apply (Hstep (SStr s)). reflexivity. }
  destruct (Hgen accessors []) as (Hwf & Hlen & Hget). cbv zeta in Hwf, Hlen, Hget.
  split; [apply Hwf; reflexivity|]. split; [exact Hlen|].
  intros a v Hav. destruct (Hget a v Hav) as [Habs|Hex]; [discriminate | exact Hex].
Qed.

(** ** Series names *)

(** For a spec that declares split accessors the flag [hasSingleSeries]
    plays no part in the name of a series. *)
Theorem getSeriesName_ignores_single_series_flag
        (NumberToString : float -> string)
        (seriesIdentifier : XYChartSeriesIdentifier) (isTooltip : bool)
        (spec : BasicSeriesSpec) (name : option SeriesName) :
  spec_splitSeriesAccessors spec <> None ->
  getSeriesName NumberToString seriesIdentifier true isTooltip (Some (spec, name))
  = getSeriesName NumberToString seriesIdentifier false isTooltip (Some (spec, name)).
Proof.
  intros Hsplit. unfold getSeriesName.
  destruct (match name with
            | Some (NameFn fn) =>
                (option_map (ToString NumberToString) (fn seriesIdentifier isTooltip),
                 SERIES_DELIMITER)
            | Some (NameOptions options) =>
                (getSeriesNameFromOptions NumberToString options seriesIdentifier
                   match delimiter options with
                   | Some d => d
                   | None => SERIES_DELIMITER
                   end,
                 match delimiter options with
                 | Some d => d
                 | None => SERIES_DELIMITER
                 end)
            | _ => (None, SERIES_DELIMITER)
            end) as [customLabel delim].
  destruct customLabel as [label|]; [reflexivity|].
  destruct (spec_splitSeriesAccessors spec) as [accessors|];
    [|contradiction Hsplit; reflexivity].
  cbn [orb andb].
  destruct (if Nat.ltb 1 (List.length (spec_yAccessors spec))
            then seriesKeys seriesIdentifier
            else removelast (seriesKeys seriesIdentifier)) as [|k nameKeys];
    reflexivity.
Qed.

Lemma getSeriesName_ignores_single_series_flag_witness :
  let seriesIdentifier :=
    {| specId := "spec1"%string; yAccessor := SStr "y"%string;
       splitAccessors := [(SStr "g"%string, SStr "a"%string)];
       seriesKeys := [SStr "a"%string; SStr "y"%string];
       key := exampleKeyA |} in
  spec_splitSeriesAccessors exampleSpec <> None
  /\ getSeriesName exampleNumberToString seriesIdentifier false false
                   (Some (exampleSpec, Some (NameOptions exampleNameOptions)))
     = "group A/count"%string
  /\ getSeriesName exampleNumberToString seriesIdentifier true false
                   (Some (exampleSpec, Some (NameOptions exampleNameOptions)))
     = getSeriesName exampleNumberToString seriesIdentifier false false
                     (Some (exampleSpec, Some (NameOptions exampleNameOptions))).
Proof.
  split; [discriminate|]. split; [reflexivity|].
  apply (getSeriesName_ignores_single_series_flag exampleNumberToString).
  discriminate.
Defined.

Lemma getSplitAccessors_nil (NumberToString : float -> string) (datum : Datum) :
  getSplitAccessors NumberToString datum [] = [].
Proof. destruct datum; reflexivity. Qed.

(** A series that [splitSeries] builds for a spec with a single y accessor
    and a plain name is named after its split values, joined by [" - "],
    and after the spec (its name, or else its id) when it has none. *)
Theorem getSeriesName_of_split_series
        (NumberToString : float -> string) (StringToNumber : string -> float)
        (spec : BasicSeriesSpec) (name : option string)
        (s : RawDataSeries Datum) (hasSingleSeries isTooltip : bool) :
  In s (rawDataSeries (splitSeries NumberToString StringToNumber spec)) ->
  spec_yAccessors_rest spec = [] ->
  getSeriesName NumberToString (seriesIdentifier s) hasSingleSeries isTooltip
                (Some (spec, option_map NameString name))
  = match JsMap.values (splitAccessors (seriesIdentifier s)) with
    | [] =>
        match name with
        | Some name => name
        | None => spec_id spec
        end
    | splitValues => join NumberToString SERIES_DELIMITER splitValues
    end.
Proof.
  intros Hin Hrest. rewrite splitSeries_fold in Hin. cbn [rawDataSeries] in Hin.
  apply in_values in Hin. destruct Hin as (k & Hin).
  destruct (splitSeries_inv NumberToString StringToNumber spec) as (_ & Hser & _).
  destruct (Hser k s Hin) as (_ & (_ & _ & (datum & _ & Hsplit) & _ & Hkeys & _) & _).
  unfold getSeriesName.
  assert (Hcustom : match option_map NameString name with
                    | Some (NameFn fn) =>
                        (option_map (ToString NumberToString)
                                    (fn (seriesIdentifier s) isTooltip),
                         SERIES_DELIMITER)
                    | Some (NameOptions options) =>
                        (getSeriesNameFromOptions NumberToString options
                           (seriesIdentifier s)
                           match delimiter options with
                           | Some d => d
                           | None => SERIES_DELIMITER
                           end,
                         match delimiter options with
                         | Some d => d
                         | None => SERIES_DELIMITER
                         end)
                    | _ => (None, SERIES_DELIMITER)
                    end = (@None string, SERIES_DELIMITER)).
  { destruct name; reflexivity. }
  rewrite Hcustom. unfold spec_yAccessors. rewrite Hrest.
  cbn [List.length Nat.ltb Nat.leb]. rewrite Hkeys, removelast_last.
  destruct (JsMap.values (splitAccessors (seriesIdentifier s)))
    as [|v splitValues] eqn:Hvalues.
  - cbn [List.length Nat.eqb Nat.ltb Nat.leb]. rewrite orb_true_r, andb_false_r.
    destruct name; reflexivity.
  - assert (Hsome : spec_splitSeriesAccessors spec <> None).
    { intros Hnone. rewrite Hsplit in Hvalues. unfold splitAccessorsOf in Hvalues.
      rewrite Hnone, getSplitAccessors_nil in Hvalues. discriminate. }
    destruct (spec_splitSeriesAccessors spec) as [accessors|];
      [|contradiction Hsome; reflexivity].
    cbn [List.length Nat.eqb Nat.ltb Nat.leb andb]. rewrite orb_false_r.
    destruct hasSingleSeries; reflexivity.
Qed.

Lemma getSeriesName_of_split_series_witness :
  let s := nth 1 (rawDataSeries
                    (splitSeries exampleNumberToString exampleStringToNumber
                                 exampleSpec))
               {| seriesIdentifier := exampleIdentifier ""%string; data := [] |} in
  In s (rawDataSeries
          (splitSeries exampleNumberToString exampleStringToNumber exampleSpec))
  /\ spec_yAccessors_rest exampleSpec = []
  /\ getSeriesName exampleNumberToString (seriesIdentifier s) true false
                   (Some (exampleSpec, option_map NameString (Some "Sales"%string)))
     = "b"%string.
Proof.
  assert (Hin : In (nth 1 (rawDataSeries
                             (splitSeries exampleNumberToString
                                          exampleStringToNumber exampleSpec))
                        {| seriesIdentifier := exampleIdentifier ""%string;
                           data := [] |})
                   (rawDataSeries
                      (splitSeries exampleNumberToString exampleStringToNumber
                                   exampleSpec))).
  { vm_compute. right. left. reflexivity. }
  split; [exact Hin|]. split; [reflexivity|].
  rewrite (getSeriesName_of_split_series
             exampleNumberToString exampleStringToNumber exampleSpec
             (Some "Sales"%string) _ true false Hin eq_refl).
  reflexivity.
Defined.

(** ** Formatting on any scale *)

Lemma sort_insert_never_before_in {A : Type} (cmp : A -> A -> float) (a : A)
      (sorted : list A) :
  (forall b, In b sorted -> (cmp a b <? 0)%float = false) ->
  sort_insert cmp a sorted = sorted ++ [a].
Proof.
  induction sorted as [|b rest IH]; intros Hc; cbn [sort_insert app];
    [reflexivity|].
  rewrite (Hc b (or_introl eq_refl)), IH; [reflexivity|].
  intros c Hin. apply Hc. right. exact Hin.
Qed.

Lemma array_sort_never_before_in {A : Type} (cmp : A -> A -> float) (l : list A) :
  (forall a b, In a l -> In b l -> (cmp a b <? 0)%float = false) ->
  array_sort cmp l = l.
Proof.
  intros Hc. unfold array_sort.
  assert (Hgen : forall rest sorted,
             (forall a b, In a (sorted ++ rest) -> In b (sorted ++ rest) ->
                          (cmp a b <? 0)%float = false) ->
             fold_left (fun sorted a => sort_insert cmp a sorted) rest sorted
             = sorted ++ rest).
  { induction rest as [|a rest IH]; intros sorted Hall; cbn [fold_left].
    - rewrite app_nil_r. reflexivity.
    - rewrite sort_insert_never_before_in.
      + rewrite IH; rewrite <- app_assoc; [reflexivity | exact Hall].
      + intros b Hb. apply Hall; apply in_or_app;
          [right; left; reflexivity | left; exact Hb]. }
  apply (Hgen l []). exact Hc.
Qed.

Lemma mapi_from_ext_in {A B : Type} (f g : A -> nat -> B) (l : list A) :
  (forall a i, In a l -> f a i = g a i) ->
  forall j, mapi_from f j l = mapi_from g j l.
Proof.
  induction l as [|a l IH]; intros Hfg j; cbn [mapi_from]; [reflexivity|].
  rewrite (Hfg a j (or_introl eq_refl)), IH; [reflexivity|].
  intros b i Hin. apply Hfg. right. exact Hin.
Qed.

Lemma mapi_from_length {A B : Type} (f : A -> nat -> B) (l : list A) :
  forall j, List.length (mapi_from f j l) = List.length l.
Proof.
  induction l as [|a l IH]; intros j; cbn [mapi_from List.length]; [reflexivity|].
  rewrite IH. reflexivity.
Qed.

Lemma in_fold_delete_universe {T : Type} (k : strnum)
      (l : list (RawDataSeriesDatum T)) (xValues : list strnum) :
  In k (fold_left (fun s d => JsSet.delete s (raw_x d)) l xValues) -> In k xValues.
Proof.
  revert xValues. induction l as [|d l IH]; intros xValues; cbn [fold_left];
    [auto|].
  intros Hin. apply IH in Hin. unfold JsSet.delete in Hin.
  apply filter_In in Hin. apply Hin.
Qed.

(** When every x value is a string, the scale type plays no part: the
    comparator answers 0 for every pair and the data keep the order they
    have on an ordinal scale. *)
Theorem formatStackedDataSeriesValues_string_x_unsorted
        {T : Type} (dataseries : list (RawDataSeries T))
        (scaleToExtent isPercentageMode : bool) (xValues : list strnum)
        (xScaleType : ScaleType) :
  forallb isString xValues = true ->
  (forall ds d, In ds dataseries -> In d (data ds) -> isString (raw_x d) = true) ->
  formatStackedDataSeriesValues dataseries scaleToExtent isPercentageMode xValues
                                xScaleType
  = formatStackedDataSeriesValues dataseries scaleToExtent isPercentageMode xValues
                                  Ordinal.
Proof.
  intros Huniverse Hdata. unfold formatStackedDataSeriesValues, array_mapi.
  apply mapi_from_ext_in. intros ds i Hin.
  rewrite formatSeries_via_ordinal.
  destruct (formatSeries_ordinal_data dataseries scaleToExtent isPercentageMode
                                      xValues ds i Hin) as (Hid & Hx & _).
  cbv zeta in Hid, Hx.
  set (out := formatSeries _ scaleToExtent isPercentageMode xValues Ordinal ds i)
    in *.
  assert (Hstr : forall a, In a (data out) -> isString (x a) = true).
  { intros a Ha. apply (in_map (@x T)) in Ha. rewrite Hx in Ha.
    apply in_app_or in Ha. destruct Ha as [Ha|Ha].
    - apply in_map_iff in Ha. destruct Ha as (d & <- & Hd).
      apply (Hdata ds d Hin Hd).
    - apply in_fold_delete_universe in Ha.
      rewrite forallb_forall in Huniverse. apply Huniverse, Ha. }
  rewrite array_sort_never_before_in.
  - destruct out as [sid outData]. unfold with_data.
    cbn [seriesIdentifier data] in *. rewrite Hid. reflexivity.
  - intros a b Ha Hb. unfold datumXSortPredicate.
    pose proof (Hstr a Ha) as Hsa. destruct (x a); [discriminate|].
    destruct (isOrdinal xScaleType); reflexivity.
Qed.

Lemma formatStackedDataSeriesValues_string_x_unsorted_witness :
  forallb isString categoryXValues = true
  /\ map (fun out => map (@x unit) (data out))
         (formatStackedDataSeriesValues categorySeries false false categoryXValues
                                        Continuous)
     = [[SStr "b"%string; SStr "a"%string; SStr "c"%string];
        [SStr "c"%string; SStr "b"%string; SStr "a"%string]]
  /\ formatStackedDataSeriesValues categorySeries false false categoryXValues
                                   Continuous
     = formatStackedDataSeriesValues categorySeries false false categoryXValues
                                     Ordinal.
Proof.
  split; [reflexivity|]. split; [reflexivity|].
  apply (formatStackedDataSeriesValues_string_x_unsorted
           categorySeries false false categoryXValues Continuous).
  - reflexivity.
  - intros ds d [<-|[<-|[]]] Hd; cbn [data] in Hd.
    + destruct Hd as [<-|[<-|[]]]; reflexivity.
    + destruct Hd as [<-|[]]. reflexivity.
Defined.

(** Whatever the scale, [formatStackedDataSeriesValues] returns one series
    per input series, at the same position and with the same identifier,
    and its data are, in some order, the formatted data of the input and
    one synthesised datum per x value of the universe that the input
    lacks. *)
Theorem formatStackedDataSeriesValues_keeps_series
        {T : Type} (dataseries : list (RawDataSeries T))
        (scaleToExtent isPercentageMode : bool) (xValues : list strnum)
        (xScaleType : ScaleType) :
  let result :=
    formatStackedDataSeriesValues dataseries scaleToExtent isPercentageMode
                                  xValues xScaleType in
  List.length result = List.length dataseries
  /\ forall i ds,
      nth_error dataseries i = Some ds ->
      exists out,
        nth_error result i = Some out
        /\ seriesIdentifier out = seriesIdentifier ds
        /\ Permutation
             (map (@x T) (data out))
             (map (@raw_x T) (data ds)
                  ++ fold_left (fun s d => JsSet.delete s (raw_x d)) (data ds)
                               xValues).
Proof.
  intros result. unfold result, formatStackedDataSeriesValues, array_mapi.
  split; [apply mapi_from_length|].
  intros i ds Hnth.
  assert (Hin : In ds dataseries) by (eapply nth_error_In; exact Hnth).
  eexists. split; [apply (mapi_from_nth_error _ dataseries 0 i ds Hnth)|].
  rewrite formatSeries_via_ordinal.
  destruct (formatSeries_ordinal_data dataseries scaleToExtent isPercentageMode
                                      xValues ds (0 + i) Hin) as (_ & Hx & _).
  cbv zeta in Hx. cbn [with_data seriesIdentifier data].
  split; [reflexivity|]. rewrite <- Hx.
  apply Permutation_map, array_sort_perm.
Qed.

(** ** The universe covers what [getSplittedSeries] hands on *)

Section Covers.
Variable NumberToString : float -> string.
Variable StringToNumber : string -> float.
Variable deselectedDataSeries : list SeriesIdentifier.

Lemma fold_step_splitted_from (seriesSpecs : list BasicSeriesSpec) :
  forall (st : SplittedState) (specId : string)
         (series : list (RawDataSeries Datum)),
    In (specId, series)
       (ss_splittedSeries
          (fold_left (splittedStep NumberToString StringToNumber deselectedDataSeries)
                     seriesSpecs st)) ->
    In (specId, series) (ss_splittedSeries st)
    \/ exists spec,
        In spec seriesSpecs /\ specId = spec_id spec
        /\ series
           = removeDeselected
               deselectedDataSeries
               (rawDataSeries (splitSeries NumberToString StringToNumber spec)).
Proof.
  induction seriesSpecs as [|spec specs IH]; intros st specId series;
    cbn [fold_left]; [auto|].
  intros Hin. destruct (IH _ specId series Hin) as [Hst|(spec' & Hs & Hid & Hser)].
  - unfold splittedStep in Hst. cbn [ss_splittedSeries] in Hst.
    apply string_set_in in Hst. destruct Hst as [Hst|[Hid Hser]];
      [left; exact Hst|].
    right. exists spec. split; [left; reflexivity|]. split; [exact Hid|].
    rewrite Hser. destruct deselectedDataSeries as [|d l];
      cbn [List.length Nat.ltb Nat.leb];
      [rewrite removeDeselected_nil; reflexivity | reflexivity].
  - right. exists spec'. split; [right; exact Hs | auto].
Qed.

Lemma getSplittedSeries_has_xValues (seriesSpecs : list BasicSeriesSpec)
      (xv : strnum) :
  JsSet.has
    (xValues (getSplittedSeries NumberToString StringToNumber seriesSpecs
                                deselectedDataSeries)) xv
  = existsb (fun spec =>
               JsSet.has
                 (split_xValues (splitSeries NumberToString StringToNumber spec))
                 xv)
            seriesSpecs.
Proof.
  unfold getSplittedSeries. cbn [xValues].
  destruct (fold_step_xValues NumberToString StringToNumber deselectedDataSeries
              seriesSpecs
              {| ss_splittedSeries := []; ss_seriesCollection := [];
                 ss_xValues := []; ss_isOrdinalScale := false |})
    as (Hh & _).
  cbv zeta in Hh. cbn [ss_xValues] in Hh.
  destruct (ss_isOrdinalScale _).
  - rewrite Hh. apply orb_false_r.
  - unfold JsSet.of_list. rewrite (has_fold_add (K := strnum)).
    cbn [JsSet.has existsb]. rewrite orb_false_r.
    rewrite (set_has_perm (K := strnum) _ _ xv
               (array_sort_perm (defaultCompare NumberToString) _)).
    rewrite Hh. apply orb_false_r.
Qed.
End Covers.

(** Every datum of every series that [getSplittedSeries] hands on in
    [splittedSeries] has its x value in the returned universe: the
    stacking step receives series that hold only x values of the
    universe. *)
Theorem getSplittedSeries_universe_covers_series
        (NumberToString : float -> string) (StringToNumber : string -> float)
        (seriesSpecs : list BasicSeriesSpec)
        (deselectedDataSeries : list SeriesIdentifier)
        (specId : string) (series : list (RawDataSeries Datum))
        (s : RawDataSeries Datum) (d : RawDataSeriesDatum Datum) :
  let result :=
    getSplittedSeries NumberToString StringToNumber seriesSpecs deselectedDataSeries in
  In (specId, series) (splittedSeries result) ->
  In s series ->
  In d (data s) ->
  JsSet.has (xValues result) (raw_x d) = true.
Proof.
  intros result Hentry Hs Hd. unfold result.
  rewrite getSplittedSeries_has_xValues.
  unfold result, getSplittedSeries in Hentry. cbn [splittedSeries] in Hentry.
  apply fold_step_splitted_from in Hentry.
  destruct Hentry as [[]|(spec & Hspec & _ & ->)].
  unfold removeDeselected in Hs. apply filter_In in Hs. destruct Hs as [Hs _].
  apply existsb_exists. exists spec. split; [exact Hspec|].
  rewrite splitSeries_fold in Hs |- *. cbn [rawDataSeries split_xValues] in Hs |- *.
  apply in_values in Hs. destruct Hs as (k & Hks).
  destruct (splitSeries_inv NumberToString StringToNumber spec) as (_ & Hser & _).
  destruct (Hser k s Hks) as (_ & _ & Hx). apply Hx, Hd.
Qed.

Lemma getSplittedSeries_universe_covers_series_witness :
  let result :=
    getSplittedSeries exampleNumberToString exampleStringToNumber [exampleSpec]
                      exampleDeselected in
  let series := removeDeselected
                  exampleDeselected
                  (rawDataSeries
                     (splitSeries exampleNumberToString exampleStringToNumber
                                  exampleSpec)) in
  let s := nth 0 series
               {| seriesIdentifier := exampleIdentifier ""%string; data := [] |} in
  let d := nth 1 (data s)
               {| raw_x := SNum 0%float; raw_y1 := Null; raw_y0 := Null;
                  raw_mark := PNull; raw_datum := None |} in
  In ("spec1"%string, series) (splittedSeries result)
  /\ In s series
  /\ In d (data s)
  /\ raw_x d = SNum 2%float
  /\ JsSet.has (xValues result) (raw_x d) = true.
Proof.
  cbv zeta.
  assert (H1 : In ("spec1"%string,
                   removeDeselected
                     exampleDeselected
                     (rawDataSeries
                        (splitSeries exampleNumberToString exampleStringToNumber
                                     exampleSpec)))
                  (splittedSeries
                     (getSplittedSeries exampleNumberToString
                                        exampleStringToNumber [exampleSpec]
                                        exampleDeselected))).
  { vm_compute. left. reflexivity. }
  assert (H2 : In (nth 0 (removeDeselected
                            exampleDeselected
                            (rawDataSeries
                               (splitSeries exampleNumberToString
                                            exampleStringToNumber exampleSpec)))
                       {| seriesIdentifier := exampleIdentifier ""%string;
                          data := [] |})
                  (removeDeselected
                     exampleDeselected
                     (rawDataSeries
                        (splitSeries exampleNumberToString exampleStringToNumber
                                     exampleSpec)))).
  { vm_compute. left. reflexivity. }
  assert (H3 : In (nth 1 (data
                            (nth 0 (removeDeselected
                                      exampleDeselected
                                      (rawDataSeries
                                         (splitSeries exampleNumberToString
                                                      exampleStringToNumber
                                                      exampleSpec)))
                                 {| seriesIdentifier := exampleIdentifier ""%string;
                                    data := [] |}))
                       {| raw_x := SNum 0%float; raw_y1 := Null; raw_y0 := Null;
                          raw_mark := PNull; raw_datum := None |})
                  (data
                     (nth 0 (removeDeselected
                               exampleDeselected
                               (rawDataSeries
                                  (splitSeries exampleNumberToString
                                               exampleStringToNumber exampleSpec)))
                          {| seriesIdentifier := exampleIdentifier ""%string;
                             data := [] |}))).
  { vm_compute. right. left. reflexivity. }
  split; [exact H1|]. split; [exact H2|]. split; [exact H3|].
  split; [reflexivity|].
  apply (getSplittedSeries_universe_covers_series
           exampleNumberToString exampleStringToNumber [exampleSpec]
           exampleDeselected "spec1"%string _ _ _ H1 H2 H3).
Defined.
